(** * The subscription dispatcher of faststream: [BaseHandler.consume]

    A shallow embedding of [faststream/broker/handler.py]: the handler-item
    loop of [BaseHandler.consume], the exit stacks it opens, [BaseHandler.close]
    and the [MultiLock] used to drain in-flight calls, followed by the
    properties of the dispatch algorithm.

    Python's exceptions are values of [exn]; a call that can raise returns an
    [outcome].  The statements of [consume] run in the monad [M], which threads
    the local variables of the call ([frame]), the state that outlives it
    ([world]) and writes the observable calls made on the collaborators
    ([event]).

    The registration of calls and the schema properties of the handler, the
    declarer of queues and exchanges of [faststream/rabbit/helpers.py] and
    the hooks of the application of [faststream/app.py] follow, each with
    its own properties. *)

From Stdlib Require Import String Bool Arith ZArith Lia List.
Import ListNotations.
Open Scope string_scope.
Open Scope list_scope.

(** ** Python values, exceptions and outcomes *)

(** The dynamically typed values that travel through the dispatcher: raw
    messages ([MsgType]), decoded bodies ([Any]) and handler results
    ([SendableMessage]).  [VNone] is Python's [None], the empty result. *)
Inductive value : Type :=
| VNone
| VBool (b : bool)
| VInt (z : Z)
| VStr (s : string).

(** Instances of Python's [Exception].  [StopConsume] and [HandlerException]
    are the two classes of [faststream.exceptions] that [consume] names;
    [AssertionError] is what a failed [assert] raises; [Exception] stands for
    every other subclass.  Signals that do not derive from [Exception] (task
    cancellation, interpreter exit) belong to the scheduler and are not
    modelled. *)
Inductive exn : Type :=
| StopConsume
| HandlerException (detail : string)
| AssertionError (msg : string)
| Exception (detail : string).

Inductive outcome (A : Type) : Type :=
| Return (a : A)
| Raise (e : exn).

Arguments Return {A} a.
Arguments Raise {A} e.

(** What [log_context_builder] returns: [Dict[str, str]]. *)
Definition LogContext : Type := list (string * string).

(** The token of [ContextVar.set]: it remembers the value to restore. *)
Definition Token : Type := option LogContext.

(** Modelled from the spec: [faststream.broker.message.StreamMessage] is not
    among the sources.  The Message Envelope holds the raw payload, headers,
    the correlation identifier, the mutable [decoded_body] and the mutable
    [processed] flag. *)
Module StreamMessage.
Record t : Type := {
  raw_message : value;
  headers : list (string * string);
  correlation_id : string;
  decoded_body : value;
  processed : bool
}.

(** [message.decoded_body = b]. *)
Definition set_decoded_body (m : t) (b : value) : t :=
  {| raw_message := raw_message m; headers := headers m;
     correlation_id := correlation_id m; decoded_body := b;
     processed := processed m |}.

(** [message.processed = p]. *)
Definition set_processed (m : t) (p : bool) : t :=
  {| raw_message := raw_message m; headers := headers m;
     correlation_id := correlation_id m; decoded_body := decoded_body m;
     processed := p |}.
End StreamMessage.

(** [PublisherProtocol] of [faststream/broker/types.py]: [publish] is called
    with the message and the [correlation_id] keyword; what it returns is
    ignored by [consume]. *)
Module PublisherProtocol.
Record t : Type := {
  name : string;
  publish : value -> string -> outcome unit
}.
End PublisherProtocol.

(** Modelled from the spec: [faststream.broker.middlewares.BaseMiddleware] is
    not among the sources.  A Middleware Scope is created per raw message by
    its factory; entering it may fail; it exposes a consume-scope wrapping the
    decoded body and a publish-scope wrapping an outgoing value, each a
    begin/end pair whose end call is guaranteed on every exit path and leaves
    the outcome of the block it closes as it is. *)
Module BaseMiddleware.
Record t : Type := {
  name : string;
  __aenter__ : outcome unit;
  consume_scope : value -> outcome value;
  publish_scope : value -> outcome value
}.
End BaseMiddleware.

(** [HandlerCallWrapper] of [faststream.broker.wrapper], as [consume] uses it:
    [call_wrapped] returns [Optional[WrappedReturn]], a pair of the handler's
    value and an optional inline response publisher; [_publishers] are the
    statically bound publishers; [trigger] is recorded as an event. *)
Module HandlerCallWrapper.
Definition WrappedReturn : Type := (value * option PublisherProtocol.t)%type.

Record t : Type := {
  _original_call : string;
  call_wrapped : StreamMessage.t -> outcome (option WrappedReturn);
  _publishers : list PublisherProtocol.t
}.
End HandlerCallWrapper.

(** [HandlerItem] (handler.py, lines 57-86).  [dependant] is only read by the
    schema generator and is left out. *)
Module HandlerItem.
Record t : Type := {
  handler : HandlerCallWrapper.t;
  filter : StreamMessage.t -> outcome bool;
  parser : value -> outcome StreamMessage.t;
  decoder : StreamMessage.t -> outcome value;
  middlewares : list (value -> BaseMiddleware.t)
}.

Definition call_name (self : t) : string :=
  HandlerCallWrapper._original_call (handler self).
End HandlerItem.

(** ** MultiLock (handler.py, lines 351-386) *)

(** An unbounded [asyncio.Queue]: the items and the count of unfinished tasks.
    [None] of the option is the exception the real method raises
    ([QueueEmpty], [ValueError]). *)
Module Queue.
Record t : Type := {
  items : list unit;
  unfinished_tasks : nat
}.

Definition empty_queue : t := {| items := []; unfinished_tasks := 0 |}.

Definition put_nowait (q : t) (x : unit) : t :=
  {| items := items q ++ [x]; unfinished_tasks := S (unfinished_tasks q) |}.

Definition get_nowait (q : t) : option (unit * t) :=
  match items q with
  | [] => None
  | x :: rest =>
      Some (x, {| items := rest; unfinished_tasks := unfinished_tasks q |})
  end.

Definition task_done (q : t) : option t :=
  match unfinished_tasks q with
  | O => None
  | S n => Some {| items := items q; unfinished_tasks := n |}
  end.

Definition qsize (q : t) : nat := length (items q).
End Queue.

Module MultiLock.
Record t : Type := { queue : Queue.t }.

Definition __init__ : t := {| queue := Queue.empty_queue |}.

Definition __enter__ (self : t) : t :=
  {| queue := Queue.put_nowait (queue self) tt |}.

(** [with suppress(asyncio.QueueEmpty, ValueError)]: either exception ends
    the block silently, keeping what was done before it. *)
Definition __exit__ (self : t) : t :=
  match Queue.get_nowait (queue self) with
  | None => self
  | Some (_, q) =>
      match Queue.task_done q with
      | None => {| queue := q |}
      | Some q' => {| queue := q' |}
      end
  end.

Definition qsize (self : t) : nat := Queue.qsize (queue self).

Definition empty (self : t) : bool :=
  match Queue.items (queue self) with [] => true | _ => false end.
End MultiLock.

(** ** Events, state and the monad *)

(** What [consume] does to its collaborators, in the order done.  [Filtered]
    records a filter call with the envelope it was given and its answer;
    [Trigger] records [h.handler.trigger] with its keyword arguments, [None]
    for one that was not passed. *)
Inductive event : Type :=
| LockEnter
| LockExit
| ScopeEnter (key : string)
| ScopeExit (key : string)
| MiddlewareEnter (m : string)
| MiddlewareExit (m : string)
| Parse (h : string)
| SetLocal (key : string) (v : LogContext)
| ResetLocal (key : string)
| Decode (h : string)
| Filtered (h : string) (message : StreamMessage.t) (accepted : bool)
| ConsumeScopeEnter (m : string) (body : value)
| ConsumeScopeExit (m : string)
| Call (h : string) (message : StreamMessage.t)
| PublishScopeEnter (m : string) (v : value)
| PublishScopeExit (m : string)
| Publish (p : string) (message : value) (correlation : string)
| Close
| WaitRelease (timeout : nat)
| Trigger (h : string) (result : option value) (error : option exn).

(** What an exit stack holds: the exit method to call when it unwinds. *)
Inductive exit_callback : Type :=
| ExitLock
| ExitScope (key : string)
| ExitMiddleware (m : string)
| ExitConsumeScope (m : string)
| ExitPublishScope (m : string).

(** The three [AsyncExitStack] variables of [consume]. *)
Inductive stack_var : Type := v_stack | v_consume_stack | v_pub_stack.

(** The state that outlives a call: [self.running], [self.lock] and the
    context variable ["log_context"] ([None] while unset). *)
Record world : Type := {
  running : bool;
  lock : MultiLock.t;
  log_context : option LogContext
}.

(** The local variables of one [consume] call. *)
Record frame : Type := {
  result : option HandlerCallWrapper.WrappedReturn;
  result_msg : value;
  log_context_tag : option Token;
  logged : bool;
  processed : bool;
  stack : list exit_callback;
  consume_stack : list exit_callback;
  pub_stack : list exit_callback
}.

Record state : Type := { vars : frame; env : world }.

Definition M (A : Type) : Type := state -> outcome A * state * list event.

Definition ret {A} (a : A) : M A := fun s => (Return a, s, []).

Definition raise {A} (e : exn) : M A := fun s => (Raise e, s, []).

Definition bind {A B} (m : M A) (f : A -> M B) : M B := fun s =>
  match m s with
  | (Return a, s1, l1) =>
      match f a s1 with (r, s2, l2) => (r, s2, l1 ++ l2) end
  | (Raise e, s1, l1) => (Raise e, s1, l1)
  end.

Declare Scope py_scope.
Delimit Scope py_scope with py.
Notation "x <- c1 ;; c2" := (bind c1 (fun x => c2))
  (at level 61, c1 at next level, right associativity) : py_scope.
Notation "c1 ;; c2" := (bind c1 (fun _ => c2))
  (at level 61, right associativity) : py_scope.
Open Scope py_scope.

(** Awaiting a collaborator: its outcome becomes the outcome of the step. *)
Definition await {A} (o : outcome A) : M A := fun s => (o, s, []).

Definition emit (e : event) : M unit := fun s => (Return tt, s, [e]).

Definition get_vars : M frame := fun s => (Return (vars s), s, []).

Definition get_env : M world := fun s => (Return (env s), s, []).

Definition modify_vars (g : frame -> frame) : M unit := fun s =>
  (Return tt, {| vars := g (vars s); env := env s |}, []).

Definition modify_env (g : world -> world) : M unit := fun s =>
  (Return tt, {| vars := vars s; env := g (env s) |}, []).

(** [try: body / except: handler / else: orelse]. *)
Definition try_except_else {A B} (body : M A) (handler : exn -> M B)
    (orelse : A -> M B) : M B := fun s =>
  match body s with
  | (Return a, s1, l1) =>
      match orelse a s1 with (r, s2, l2) => (r, s2, l1 ++ l2) end
  | (Raise e, s1, l1) =>
      match handler e s1 with (r, s2, l2) => (r, s2, l1 ++ l2) end
  end.

(** [try: body / finally: fin]: [fin] always runs; the outcome is the one of
    [body] unless [fin] raises. *)
Definition finally {A} (body : M A) (fin : M unit) : M A := fun s =>
  match body s with
  | (r, s1, l1) =>
      match fin s1 with
      | (Return _, s2, l2) => (r, s2, l1 ++ l2)
      | (Raise e, s2, l2) => (Raise e, s2, l1 ++ l2)
      end
  end.

(** [assert cond, msg], as an interpreter that keeps assertions runs it. *)
Definition assert_ (cond : bool) (msg : string) : M unit :=
  if cond then ret tt else raise (AssertionError msg).

(** ** Assignments *)

Definition get_stack (v : stack_var) (f : frame) : list exit_callback :=
  match v with
  | v_stack => stack f
  | v_consume_stack => consume_stack f
  | v_pub_stack => pub_stack f
  end.

Definition set_stack (v : stack_var) (cbs : list exit_callback) (f : frame) : frame :=
  {| result := result f; result_msg := result_msg f;
     log_context_tag := log_context_tag f; logged := logged f;
     processed := processed f;
     stack := match v with v_stack => cbs | _ => stack f end;
     consume_stack := match v with v_consume_stack => cbs | _ => consume_stack f end;
     pub_stack := match v with v_pub_stack => cbs | _ => pub_stack f end |}.

Definition set_result (r : option HandlerCallWrapper.WrappedReturn) (f : frame) : frame :=
  {| result := r; result_msg := result_msg f;
     log_context_tag := log_context_tag f; logged := logged f;
     processed := processed f; stack := stack f;
     consume_stack := consume_stack f; pub_stack := pub_stack f |}.

Definition set_result_msg (v : value) (f : frame) : frame :=
  {| result := result f; result_msg := v;
     log_context_tag := log_context_tag f; logged := logged f;
     processed := processed f; stack := stack f;
     consume_stack := consume_stack f; pub_stack := pub_stack f |}.

Definition set_log_context_tag (t : option Token) (f : frame) : frame :=
  {| result := result f; result_msg := result_msg f;
     log_context_tag := t; logged := logged f;
     processed := processed f; stack := stack f;
     consume_stack := consume_stack f; pub_stack := pub_stack f |}.

Definition set_processed (p : bool) (f : frame) : frame :=
  {| result := result f; result_msg := result_msg f;
     log_context_tag := log_context_tag f; logged := logged f;
     processed := p; stack := stack f;
     consume_stack := consume_stack f; pub_stack := pub_stack f |}.

Definition set_running (b : bool) (w : world) : world :=
  {| running := b; lock := lock w; log_context := log_context w |}.

Definition set_lock (l : MultiLock.t) (w : world) : world :=
  {| running := running w; lock := l; log_context := log_context w |}.

Definition set_log_context (c : option LogContext) (w : world) : world :=
  {| running := running w; lock := lock w; log_context := c |}.

(** ** Exit stacks *)

(** Registers an exit method on a stack; the last one registered runs first. *)
Definition push (v : stack_var) (cb : exit_callback) : M unit :=
  modify_vars (fun f => set_stack v (cb :: get_stack v f) f).

(** The exit methods.  [MultiLock.__exit__] takes one entry back; the others
    are the end calls of scopes of collaborators and are recorded. *)
Definition run_callback (cb : exit_callback) : M unit :=
  match cb with
  | ExitLock =>
      emit LockExit ;;
      modify_env (fun w => set_lock (MultiLock.__exit__ (lock w)) w)
  | ExitScope k => emit (ScopeExit k)
  | ExitMiddleware m => emit (MiddlewareExit m)
  | ExitConsumeScope m => emit (ConsumeScopeExit m)
  | ExitPublishScope m => emit (PublishScopeExit m)
  end.

Fixpoint unwind (cbs : list exit_callback) : M unit :=
  match cbs with
  | [] => ret tt
  | cb :: rest => run_callback cb ;; unwind rest
  end.

(** [async with AsyncExitStack() as v: body]: the stack starts empty, and
    whatever [body] registered on it is unwound when the block is left,
    normally or by an exception. *)
Definition AsyncExitStack {A} (v : stack_var) (body : M A) : M A :=
  modify_vars (set_stack v []) ;;
  finally body
    (f <- get_vars ;;
     modify_vars (set_stack v []) ;;
     unwind (get_stack v f)).

(** Modelled from the spec: [faststream.utils.context.repository.context] is
    not among the sources.  [set_local] sets the context variable and returns
    the token that restores the previous value; [reset_local] restores it;
    [scope] is a begin/end pair around the block. *)
Module context.
Definition set_local (key : string) (v : LogContext) : M Token :=
  w <- get_env ;;
  emit (SetLocal key v) ;;
  modify_env (set_log_context (Some v)) ;;
  ret (log_context w).

Definition reset_local (key : string) (tag : Token) : M unit :=
  emit (ResetLocal key) ;;
  modify_env (set_log_context tag).
End context.

(** ** BaseHandler (handler.py, lines 89-348) *)

Module BaseHandler.

(** The attributes [consume] reads and does not write.  [self.running] and
    [self.lock] are in [world]. *)
Record t : Type := {
  calls : list HandlerItem.t;
  middlewares : list (value -> BaseMiddleware.t);
  log_context_builder : StreamMessage.t -> LogContext;
  graceful_timeout : option nat
}.

(** [MultiLock.wait_release] (lines 379-386): waits only for a truthy
    timeout; the wait changes nothing the call can observe. *)
Definition wait_release (timeout : option nat) : M unit :=
  match timeout with
  | Some (S n) => emit (WaitRelease (S n))
  | _ => ret tt
  end.

(** [start] (lines 301-304). *)
Definition start (self : t) : M unit :=
  modify_env (set_running true).

(** [close] (lines 306-313). *)
Definition close (self : t) : M unit :=
  emit Close ;;
  modify_env (set_running false) ;;
  wait_release (graceful_timeout self).

(** [h.handler.trigger(result=..., error=...)]. *)
Definition trigger (h : HandlerItem.t) (res : option value) (error : option exn)
  : M unit :=
  emit (Trigger (HandlerItem.call_name h) res error).

(** [stack.enter_context(self.lock)] (line 207). *)
Definition enter_lock : M unit :=
  emit LockEnter ;;
  modify_env (fun w => set_lock (MultiLock.__enter__ (lock w)) w) ;;
  push v_stack ExitLock.

(** [stack.enter_context(context.scope("handler_", self))] (line 209). *)
Definition enter_scope (key : string) : M unit :=
  emit (ScopeEnter key) ;;
  push v_stack (ExitScope key).

(** [await stack.enter_async_context(m(msg))] (lines 212, 219). *)
Definition enter_async_context (m : BaseMiddleware.t) : M BaseMiddleware.t :=
  emit (MiddlewareEnter (BaseMiddleware.name m)) ;;
  await (BaseMiddleware.__aenter__ m) ;;
  push v_stack (ExitMiddleware (BaseMiddleware.name m)) ;;
  ret m.

(** The list comprehensions of lines 211-213 and 218-220. *)
Fixpoint enter_middlewares (msg : value) (ms : list (value -> BaseMiddleware.t))
  : M (list BaseMiddleware.t) :=
  match ms with
  | [] => ret []
  | m :: rest =>
      x <- enter_async_context (m msg) ;;
      xs <- enter_middlewares msg rest ;;
      ret (x :: xs)
  end.

(** Lines 243-248: each middleware of the chain wraps the decoded body. *)
Fixpoint enter_consume_scopes (all_middlewares : list BaseMiddleware.t)
  (message : StreamMessage.t) : M StreamMessage.t :=
  match all_middlewares with
  | [] => ret message
  | m_consume :: rest =>
      emit (ConsumeScopeEnter (BaseMiddleware.name m_consume)
              (StreamMessage.decoded_body message)) ;;
      body <- await (BaseMiddleware.consume_scope m_consume
                       (StreamMessage.decoded_body message)) ;;
      push v_consume_stack (ExitConsumeScope (BaseMiddleware.name m_consume)) ;;
      enter_consume_scopes rest (StreamMessage.set_decoded_body message body)
  end.

(** Lines 264-269: each middleware of the chain wraps the value to send. *)
Fixpoint enter_publish_scopes (all_middlewares : list BaseMiddleware.t)
  (result_to_send : value) : M value :=
  match all_middlewares with
  | [] => ret result_to_send
  | m_pub :: rest =>
      emit (PublishScopeEnter (BaseMiddleware.name m_pub) result_to_send) ;;
      v <- await (BaseMiddleware.publish_scope m_pub result_to_send) ;;
      push v_pub_stack (ExitPublishScope (BaseMiddleware.name m_pub)) ;;
      enter_publish_scopes rest v
  end.

(** Lines 261-274: one publisher. *)
Definition publish_one (all_middlewares : list BaseMiddleware.t)
  (message : StreamMessage.t) (result_msg : value)
  (publisher : PublisherProtocol.t) : M unit :=
  AsyncExitStack v_pub_stack
    (result_to_send <- enter_publish_scopes all_middlewares result_msg ;;
     emit (Publish (PublisherProtocol.name publisher) result_to_send
             (StreamMessage.correlation_id message)) ;;
     await (PublisherProtocol.publish publisher result_to_send
              (StreamMessage.correlation_id message))).

(** Lines 259-274: [for publisher in (pub_response, *h.handler._publishers)],
    skipping the ones that are [None]. *)
Fixpoint publish_all (all_middlewares : list BaseMiddleware.t)
  (message : StreamMessage.t) (result_msg : value)
  (publishers : list (option PublisherProtocol.t)) : M unit :=
  match publishers with
  | [] => ret tt
  | None :: rest => publish_all all_middlewares message result_msg rest
  | Some publisher :: rest =>
      publish_one all_middlewares message result_msg publisher ;;
      publish_all all_middlewares message result_msg rest
  end.

(** Lines 242-253: the handler call inside the consume scopes. *)
Definition call_handler (h : HandlerItem.t)
  (all_middlewares : list BaseMiddleware.t) (message : StreamMessage.t)
  : M (option HandlerCallWrapper.WrappedReturn) :=
  AsyncExitStack v_consume_stack
    (message' <- enter_consume_scopes all_middlewares message ;;
     emit (Call (HandlerItem.call_name h) message') ;;
     r <- await (HandlerCallWrapper.call_wrapped (HandlerItem.handler h) message') ;;
     modify_vars (set_result r) ;;
     ret r).

(** Lines 242-274: the body of the [try]. *)
Definition try_body (h : HandlerItem.t)
  (all_middlewares : list BaseMiddleware.t) (message : StreamMessage.t) : M unit :=
  r <- call_handler h all_middlewares message ;;
  match r with
  | Some (result_msg, pub_response) =>
      modify_vars (set_result_msg result_msg) ;;
      publish_all all_middlewares message result_msg
        (pub_response ::
         map Some (HandlerCallWrapper._publishers (HandlerItem.handler h)))
  | None => ret tt
  end.

Section Consume.

(** [IS_OPTIMIZED] of [faststream._compat], which is not among the
    sources: a constant of the running interpreter. *)
Variable IS_OPTIMIZED : bool.

(** Lines 241-292: the [try] statement.  Returns whether [break] ran.
    The envelope is not read after line 290 sets its flag. *)
Definition process (self : t) (h : HandlerItem.t)
  (all_middlewares : list BaseMiddleware.t) (message : StreamMessage.t)
  : M bool :=
  try_except_else (try_body h all_middlewares message)
    (fun e =>
       match e with
       | StopConsume =>
           close self ;;
           trigger h None None ;;
           ret false
       | HandlerException _ =>
           trigger h None None ;;
           raise e
       | _ =>
           trigger h None (Some e) ;;
           raise e
       end)
    (fun _ =>
       f <- get_vars ;;
       trigger h (Some match result f with
                       | Some r => fst r
                       | None => VNone
                       end) None ;;
       modify_vars (set_processed true) ;;
       ret IS_OPTIMIZED).

(** Lines 218-239: the item's middlewares are entered on the stack of the
    call, the raw message is parsed, the log context set, the body decoded
    and the filter asked.  Returns the chain and the envelope when the
    filter accepted and the assertion of line 237 passed. *)
Definition prepare (self : t) (msg : value)
  (gl_middlewares : list BaseMiddleware.t) (h : HandlerItem.t)
  : M (option (list BaseMiddleware.t * StreamMessage.t)) :=
  local_middlewares <- enter_middlewares msg (HandlerItem.middlewares h) ;;
  let all_middlewares := gl_middlewares ++ local_middlewares in
  emit (Parse (HandlerItem.call_name h)) ;;
  message <- await (HandlerItem.parser h msg) ;;
  f <- get_vars ;;
  (if negb (logged f) then
     tag <- context.set_local "log_context" (log_context_builder self message) ;;
     modify_vars (set_log_context_tag (Some tag))
   else ret tt) ;;
  emit (Decode (HandlerItem.call_name h)) ;;
  body <- await (HandlerItem.decoder h message) ;;
  let message := StreamMessage.set_decoded_body message body in
  f <- get_vars ;;
  let message := StreamMessage.set_processed message (processed f) in
  accepted <- await (HandlerItem.filter h message) ;;
  emit (Filtered (HandlerItem.call_name h) message accepted) ;;
  if accepted : bool then
    assert_ (negb (processed f))
      "You can't process a message with multiple consumers" ;;
    ret (Some (all_middlewares, message))
  else ret None.

(** Lines 218-292: the body of [for h in self.calls].  Returns whether
    [break] ran. *)
Definition consume_call (self : t) (msg : value)
  (gl_middlewares : list BaseMiddleware.t) (h : HandlerItem.t) : M bool :=
  matched <- prepare self msg gl_middlewares h ;;
  match matched with
  | Some (all_middlewares, message) => process self h all_middlewares message
  | None => ret false
  end.

(** Lines 217-292: [for h in self.calls].  Returns whether the loop was
    left by [break]. *)
Fixpoint consume_loop (self : t) (msg : value)
  (gl_middlewares : list BaseMiddleware.t) (hs : list HandlerItem.t) : M bool :=
  match hs with
  | [] => ret false
  | h :: rest =>
      stop <- consume_call self msg gl_middlewares h ;;
      if stop : bool then ret true
      else consume_loop self msg gl_middlewares rest
  end.

(** Lines 207-213: the lock, the context scope and the global
    middlewares are entered on the stack of the call. *)
Definition enter_call (self : t) (msg : value) : M (list BaseMiddleware.t) :=
  enter_lock ;;
  enter_scope "handler_" ;;
  enter_middlewares msg (middlewares self).

(** Lines 207-292: everything of the [async with] block before the
    assertion of line 294, over the items [hs]. *)
Definition consume_scan (self : t) (msg : value) (hs : list HandlerItem.t)
  : M bool :=
  gl_middlewares <- enter_call self msg ;;
  consume_loop self msg gl_middlewares hs.

(** Lines 206-294: the [async with AsyncExitStack() as stack] block. *)
Definition consume_block (self : t) (msg : value) : M unit :=
  AsyncExitStack v_stack
    (consume_scan self msg (calls self) ;;
     w <- get_env ;;
     f <- get_vars ;;
     assert_ (negb (running w) || processed f) "You have to consume message").

(** Lines 199-299, on the local variables of the call. *)
Definition consume_body (self : t) (msg : value) : M value :=
  w <- get_env ;;
  if negb (running w) then
    f <- get_vars ;;
    ret (result_msg f)
  else
    consume_block self msg ;;
    f <- get_vars ;;
    match log_context_tag f with
    | Some tag => context.reset_local "log_context" tag
    | None => ret tt
    end ;;
    f <- get_vars ;;
    ret (result_msg f).

(** The local variables as lines 199-200, 205 and 215-216 initialise
    them. *)
Definition initial_frame : frame :=
  {| result := None; result_msg := VNone; log_context_tag := None;
     logged := false; processed := false;
     stack := []; consume_stack := []; pub_stack := [] |}.

Definition initial_state (w : world) : state :=
  {| vars := initial_frame; env := w |}.

(** [consume] (lines 186-299): one dispatch call, from the state that
    outlives it to the outcome, the state after it and what was done. *)
Definition consume (self : t) (msg : value) (w : world)
  : outcome value * world * list event :=
  match consume_body self msg (initial_state w) with
  | (r, s, evs) => (r, env s, evs)
  end.

End Consume.

End BaseHandler.

(** * Vocabulary of the properties *)

(** The three components of what [consume] returns. *)
Definition outcome_of {A} (x : outcome A * world * list event) : outcome A :=
  fst (fst x).

Definition world_after {A} (x : outcome A * world * list event) : world :=
  snd (fst x).

Definition events_of {A} (x : outcome A * world * list event) : list event :=
  snd x.

Definition count_events (p : event -> bool) (l : list event) : nat :=
  length (List.filter p l).

(** The event an exit method leaves, and what unwinding a stack does to the
    lock. *)
Definition exit_event (cb : exit_callback) : event :=
  match cb with
  | ExitLock => LockExit
  | ExitScope k => ScopeExit k
  | ExitMiddleware m => MiddlewareExit m
  | ExitConsumeScope m => ConsumeScopeExit m
  | ExitPublishScope m => PublishScopeExit m
  end.

Fixpoint unwind_lock (cbs : list exit_callback) (l : MultiLock.t) : MultiLock.t :=
  match cbs with
  | [] => l
  | ExitLock :: rest => unwind_lock rest (MultiLock.__exit__ l)
  | _ :: rest => unwind_lock rest l
  end.

Definition is_LockEnter (e : event) : bool :=
  match e with LockEnter => true | _ => false end.

Definition is_LockExit (e : event) : bool :=
  match e with LockExit => true | _ => false end.

Definition lock_event (e : event) : bool := is_LockEnter e || is_LockExit e.

(** A relation between the state before, the state after and what was done in
    between that holds of no step at all and composes along steps. *)
Class StepRel (R : state -> state -> list event -> Prop) : Prop := {
  step_refl : forall s, R s s [];
  step_trans : forall s1 s2 s3 l1 l2,
      R s1 s2 l1 -> R s2 s3 l2 -> R s1 s3 (l1 ++ l2)
}.

(** [keeps R m]: however [m] ends, [R] relates its start to its end. *)
Definition keeps (R : state -> state -> list event -> Prop) {A} (m : M A) : Prop :=
  forall s r s' l, m s = (r, s', l) -> R s s' l.

(** The steps that leave the lock alone: they neither enter nor exit it, they
    register no exit of the lock, and they only add to the stack of the
    call. *)
Definition lock_quiet (s s' : state) (l : list event) : Prop :=
  ~ In ExitLock (consume_stack (vars s)) ->
  ~ In ExitLock (pub_stack (vars s)) ->
  ~ In ExitLock (consume_stack (vars s')) /\
  ~ In ExitLock (pub_stack (vars s')) /\
  lock (env s') = lock (env s) /\
  (exists k, stack (vars s') = k ++ stack (vars s) /\ ~ In ExitLock k) /\
  List.filter lock_event l = [].

(** ** The chain of middlewares, as functions *)

(** The middlewares a list of factories makes for a raw message. *)
Definition instantiate (msg : value) (fs : list (value -> BaseMiddleware.t))
    : list BaseMiddleware.t :=
  map (fun m => m msg) fs.

(** Every middleware of the list can be entered. *)
Definition enter_ok (ms : list BaseMiddleware.t) : Prop :=
  Forall (fun m => BaseMiddleware.__aenter__ m = Return tt) ms.

Definition enter_events (ms : list BaseMiddleware.t) : list event :=
  map (fun m => MiddlewareEnter (BaseMiddleware.name m)) ms.

Definition middleware_exits (ms : list BaseMiddleware.t) : list exit_callback :=
  rev (map (fun m => ExitMiddleware (BaseMiddleware.name m)) ms).

(** The decoded body after each middleware of the chain, in order, has
    wrapped it. *)
Fixpoint wrap_consume (ms : list BaseMiddleware.t) (body : value) : outcome value :=
  match ms with
  | [] => Return body
  | m :: rest =>
      match BaseMiddleware.consume_scope m body with
      | Return b => wrap_consume rest b
      | Raise e => Raise e
      end
  end.

(** The value to send after each middleware of the chain, in order, has
    wrapped it. *)
Fixpoint wrap_publish (ms : list BaseMiddleware.t) (v : value) : outcome value :=
  match ms with
  | [] => Return v
  | m :: rest =>
      match BaseMiddleware.publish_scope m v with
      | Return v' => wrap_publish rest v'
      | Raise e => Raise e
      end
  end.

(** The scopes entered along the chain, each with the value it was given. *)
Fixpoint consume_scope_events (ms : list BaseMiddleware.t) (body : value)
    : list event :=
  match ms with
  | [] => []
  | m :: rest =>
      ConsumeScopeEnter (BaseMiddleware.name m) body ::
      match BaseMiddleware.consume_scope m body with
      | Return b => consume_scope_events rest b
      | Raise _ => []
      end
  end.

Fixpoint publish_scope_events (ms : list BaseMiddleware.t) (v : value)
    : list event :=
  match ms with
  | [] => []
  | m :: rest =>
      PublishScopeEnter (BaseMiddleware.name m) v ::
      match BaseMiddleware.publish_scope m v with
      | Return v' => publish_scope_events rest v'
      | Raise _ => []
      end
  end.

Definition consume_scope_exits (ms : list BaseMiddleware.t) : list exit_callback :=
  rev (map (fun m => ExitConsumeScope (BaseMiddleware.name m)) ms).

Definition publish_scope_exits (ms : list BaseMiddleware.t) : list exit_callback :=
  rev (map (fun m => ExitPublishScope (BaseMiddleware.name m)) ms).

(** What one handler call inside its consume scopes leaves in the trace. *)
Definition call_events (h : HandlerItem.t) (ms : list BaseMiddleware.t)
    (message : StreamMessage.t) (body : value) : list event :=
  consume_scope_events ms (StreamMessage.decoded_body message) ++
  [Call (HandlerItem.call_name h) (StreamMessage.set_decoded_body message body)] ++
  map exit_event (consume_scope_exits ms).

(** The publishers a result goes to: the inline response target, when there
    is one, followed by the statically bound publishers. *)
Definition targets (pub_response : option PublisherProtocol.t) (h : HandlerItem.t)
    : list PublisherProtocol.t :=
  match pub_response with Some p => [p] | None => [] end ++
  HandlerCallWrapper._publishers (HandlerItem.handler h).

(** What publishing to one publisher leaves in the trace. *)
Definition publish_events (ms : list BaseMiddleware.t) (v out : value)
    (correlation : string) (p : PublisherProtocol.t) : list event :=
  publish_scope_events ms v ++
  [Publish (PublisherProtocol.name p) out correlation] ++
  map exit_event (publish_scope_exits ms).

(** The frame after publishing to [ps]: a publish block, if one ran, left its
    stack empty. *)
Definition published (ps : list PublisherProtocol.t) (f : frame) : frame :=
  match ps with
  | [] => f
  | _ :: _ => set_stack v_pub_stack [] f
  end.

Definition is_Call (e : event) : bool :=
  match e with Call _ _ => true | _ => false end.

Definition is_Parse (e : event) : bool :=
  match e with Parse _ => true | _ => false end.

Definition is_Publish (e : event) : bool :=
  match e with Publish _ _ _ => true | _ => false end.

Definition is_PublishScopeEnter (e : event) : bool :=
  match e with PublishScopeEnter _ _ => true | _ => false end.

Definition is_SetLocal (e : event) : bool :=
  match e with SetLocal _ _ => true | _ => false end.

Definition is_ResetLocal (e : event) : bool :=
  match e with ResetLocal _ => true | _ => false end.

(** The end calls of scopes and of the lock: what unwinding a stack leaves. *)
Definition is_exit (e : event) : bool :=
  match e with
  | LockExit | ScopeExit _ | MiddlewareExit _
  | ConsumeScopeExit _ | PublishScopeExit _ => true
  | _ => false
  end.

(** What [BaseHandler.close] leaves in the trace. *)
Definition close_events (self : BaseHandler.t) : list event :=
  Close ::
  match BaseHandler.graceful_timeout self with
  | Some (S n) => [WaitRelease (S n)]
  | _ => []
  end.

(** The [error] keyword [trigger] is called with when the [try] statement
    re-raises [e]: none for a declared handler error, [e] itself
    otherwise. *)
Definition error_arg (e : exn) : option exn :=
  match e with
  | HandlerException _ => None
  | _ => Some e
  end.

(** What publishing a result to every target leaves in the trace. *)
Definition publish_all_events (ms : list BaseMiddleware.t) (v out : value)
    (correlation : string) (ps : list PublisherProtocol.t) : list event :=
  concat (map (publish_events ms v out correlation) ps).

(** Every publisher of the list accepts the value. *)
Definition publish_ok (out : value) (correlation : string)
    (ps : list PublisherProtocol.t) : Prop :=
  Forall (fun p => PublisherProtocol.publish p out correlation = Return tt) ps.

(** The envelope an item's filter is asked about: the parsed one, with the
    decoded body and the flag of the call. *)
Definition filtered_message (m0 : StreamMessage.t) (body : value) (done : bool)
    : StreamMessage.t :=
  StreamMessage.set_processed (StreamMessage.set_decoded_body m0 body) done.

(** What lines 218-236 leave in the trace when nothing raises. *)
Definition prepare_events (self : BaseHandler.t) (msg : value) (h : HandlerItem.t)
    (m0 : StreamMessage.t) (body : value) (done accepted : bool) : list event :=
  enter_events (instantiate msg (HandlerItem.middlewares h)) ++
  [Parse (HandlerItem.call_name h);
   SetLocal "log_context" (BaseHandler.log_context_builder self m0);
   Decode (HandlerItem.call_name h);
   Filtered (HandlerItem.call_name h) (filtered_message m0 body done) accepted].

(** The state after lines 218-236 when nothing raises. *)
Definition prepared (self : BaseHandler.t) (msg : value) (h : HandlerItem.t)
    (m0 : StreamMessage.t) (s : state) : state :=
  {| vars := set_log_context_tag (Some (log_context (env s)))
               (set_stack v_stack
                  (middleware_exits (instantiate msg (HandlerItem.middlewares h)) ++
                   stack (vars s))
                  (vars s));
     env := set_log_context (Some (BaseHandler.log_context_builder self m0)) (env s) |}.

(** The world after the stack of the call is unwound from [s]. *)
Definition unwound (s : state) : world :=
  set_lock (unwind_lock (stack (vars s)) (lock (env s))) (env s).

(** What unwinding the stack of the call from [s] leaves in the trace. *)
Definition unwind_events (s : state) : list event :=
  map exit_event (stack (vars s)).

Definition must_consume : exn := AssertionError "You have to consume message".

Definition multiple_consumers : exn :=
  AssertionError "You can't process a message with multiple consumers".

(** The events of an iteration that report a call on a collaborator and
    nothing else: no exit, no answer of a filter, nothing of the lock, of the
    log context or of the handler's [trigger]. *)
Definition plain_event (e : event) : bool :=
  match e with
  | MiddlewareEnter _ | Parse _ | Decode _
  | ConsumeScopeEnter _ _ | Call _ _ | PublishScopeEnter _ _
  | Publish _ _ _ => true
  | _ => false
  end.

(** ** The log context *)

(** The value of the context variable after the events [l], when every
    [set_local] among them took effect and nothing restored it. *)
Definition last_set (l : list event) (c : option LogContext) : option LogContext :=
  fold_left (fun c e => match e with SetLocal _ v => Some v | _ => c end) l c.

(** The steps that never reset the log context: the variable holds what the
    last [set_local] gave it. *)
Definition log_kept (s s' : state) (l : list event) : Prop :=
  List.filter is_ResetLocal l = [] /\
  log_context (env s') = last_set l (log_context (env s)).

(** ** The controlled stop *)

Definition stop_free {A} (o : outcome A) : Prop := o <> Raise StopConsume.

(** The collaborators of an item that [consume] calls outside the [try]
    statement do not raise the controlled-stop signal. *)
Definition stop_free_item (msg : value) (h : HandlerItem.t) : Prop :=
  Forall (fun m : value -> BaseMiddleware.t =>
            stop_free (BaseMiddleware.__aenter__ (m msg)))
         (HandlerItem.middlewares h) /\
  stop_free (HandlerItem.parser h msg) /\
  (forall m, stop_free (HandlerItem.decoder h m)) /\
  (forall m, stop_free (HandlerItem.filter h m)).

Definition stop_free_outside (self : BaseHandler.t) (msg : value) : Prop :=
  Forall (fun m : value -> BaseMiddleware.t =>
            stop_free (BaseMiddleware.__aenter__ (m msg)))
         (BaseHandler.middlewares self) /\
  Forall (stop_free_item msg) (BaseHandler.calls self).

(** [m] never ends by raising the controlled-stop signal. *)
Definition never_stops {A} (m : M A) : Prop :=
  forall s r s' l, m s = (r, s', l) -> r <> Raise StopConsume.

(** Once closed, closed: [close] leaves the dispatcher not running, and no
    step of [consume] starts it again. *)
Definition stays_closed (s s' : state) (l : list event) : Prop :=
  (In Close l -> running (env s') = false) /\
  (running (env s) = false -> running (env s') = false).

(** ** Items that do not match *)

(** The item [h] can be prepared for the raw message and its filter rejects
    the envelope; [done] is the flag of the call at that point. *)
Definition rejects (self : BaseHandler.t) (msg : value) (done : bool)
    (h : HandlerItem.t) : Prop :=
  enter_ok (instantiate msg (HandlerItem.middlewares h)) /\
  exists m0 body,
    HandlerItem.parser h msg = Return m0 /\
    HandlerItem.decoder h m0 = Return body /\
    HandlerItem.filter h (filtered_message m0 body done) = Return false.

(** The value [consume] returns for what the handler call returned. *)
Definition returned_value (r : option HandlerCallWrapper.WrappedReturn) : value :=
  match r with
  | Some (res, _) => res
  | None => VNone
  end.

Definition parse_events (hs : list HandlerItem.t) : list event :=
  map (fun h => Parse (HandlerItem.call_name h)) hs.

(** ** What an iteration can do *)

(** [trigger(result=...)]: the report of a handler that processed the
    delivery. *)
Definition is_success (e : event) : bool :=
  match e with Trigger _ (Some _) None => true | _ => false end.

Definition is_Filtered (e : event) : bool :=
  match e with Filtered _ _ _ => true | _ => false end.

(** A filter accepted. *)
Definition is_accept (e : event) : bool :=
  match e with Filtered _ _ accepted => accepted | _ => false end.

(** A filter accepted an envelope flagged as already processed. *)
Definition is_rematch (e : event) : bool :=
  match e with
  | Filtered _ m accepted => accepted && StreamMessage.processed m
  | _ => false
  end.

Definition is_Close (e : event) : bool :=
  match e with Close => true | _ => false end.

(** The events that tell how a delivery went: a filter's answer, a
    processing report, a close. *)
Definition telling (e : event) : bool := is_success e || is_Filtered e || is_Close e.

(** The steps that change neither the flag of the call nor the running flag
    and tell nothing; with [keep], nor the recorded result. *)
Definition inert (keep : bool) (s s' : state) (l : list event) : Prop :=
  processed (vars s') = processed (vars s) /\
  running (env s') = running (env s) /\
  (keep = true ->
   result (vars s') = result (vars s) /\
   result_msg (vars s') = result_msg (vars s)) /\
  List.filter telling l = [].

(** How the [try] statement of an item named [n] can end, from [s] to [s'],
    leaving [l]: the handler processed the delivery and reported a value; or
    the dispatcher was closed on a controlled stop; or an exception was
    raised to the caller. *)
Definition tried (opt : bool) (n : string) (s : state)
    (r : outcome bool) (s' : state) (l : list event) : Prop :=
  List.filter is_Filtered l = [] /\
  ((r = Return opt /\
    processed (vars s') = true /\
    running (env s') = running (env s) /\
    exists v,
      List.filter is_success l = [Trigger n (Some v) None] /\
      (result_msg (vars s') = v \/
       (v = VNone /\ result_msg (vars s') = result_msg (vars s))))
   \/
   (r = Return false /\
    processed (vars s') = processed (vars s) /\
    running (env s') = false /\
    List.filter is_success l = [] /\
    In Close l)
   \/
   (exists e,
       r = Raise e /\ e <> StopConsume /\
       processed (vars s') = processed (vars s) /\
       running (env s') = running (env s) /\
       List.filter is_success l = [])).

(** How an iteration over the item [h] can end.  Either the [try] statement
    was not reached: a collaborator raised before the filter answered, or the
    filter rejected, or it accepted a delivery already processed and the
    assertion of line 237 failed.  Or the filter accepted a delivery not yet
    processed and the [try] statement ran. *)
Definition iterated (opt : bool) (h : HandlerItem.t) (s : state)
    (r : outcome bool) (s' : state) (l : list event) : Prop :=
  (processed (vars s') = processed (vars s) /\
   running (env s') = running (env s) /\
   result_msg (vars s') = result_msg (vars s) /\
   List.filter is_success l = [] /\
   List.filter is_Close l = [] /\
   ((List.filter is_Filtered l = [] /\ exists e, r = Raise e)
    \/
    (exists l0 m,
        l = l0 ++ [Filtered (HandlerItem.call_name h) m false] /\
        List.filter is_Filtered l0 = [] /\ r = Return false)
    \/
    (exists l0 m,
        l = l0 ++ [Filtered (HandlerItem.call_name h) m true] /\
        List.filter is_Filtered l0 = [] /\
        processed (vars s) = true /\
        StreamMessage.processed m = true /\
        r = Raise multiple_consumers)))
  \/
  (processed (vars s) = false /\
   exists l0 m lt sp,
     l = l0 ++ Filtered (HandlerItem.call_name h) m true :: lt /\
     List.filter telling l0 = [] /\
     StreamMessage.processed m = false /\
     inert true s sp l0 /\
     tried opt (HandlerItem.call_name h) sp r s' lt).

(** ** One consumer per delivery *)

(** Once the delivery is processed it stays processed and no other handler
    reports a result; before that, at most one does, and then the delivery is
    processed. *)
Definition once (s s' : state) (l : list event) : Prop :=
  (processed (vars s) = true ->
   processed (vars s') = true /\ List.filter is_success l = []) /\
  (processed (vars s) = false ->
   List.filter is_success l = [] \/
   (processed (vars s') = true /\ exists t, List.filter is_success l = [t])).

(** The assertion of line 237 answers a filter that accepts a delivery
    already processed: such an answer is the last thing the loop does. *)
Definition rematch_last {A} (r : outcome A) (l : list event) : Prop :=
  List.filter is_rematch l = [] \/
  (r = Raise multiple_consumers /\
   exists l0 e, l = l0 ++ [e] /\ is_rematch e = true /\ List.filter is_rematch l0 = []).

(** A stronger property, which the dispatcher does not have: in a call of
    [consume], at most one filter accepts the delivery. *)
Definition at_most_one_filter_accepts (opt : bool) (self : BaseHandler.t)
    (msg : value) (w : world) : Prop :=
  count_events is_accept (events_of (BaseHandler.consume opt self msg w)) <= 1.

(** ** The returned value *)

(** The flag of the call is set, and the dispatcher closed, only after a
    filter has accepted. *)
Definition accept_first (s s' : state) (l : list event) : Prop :=
  (processed (vars s) = false /\ processed (vars s') = true) \/
  (running (env s) = true /\ running (env s') = false) ->
  existsb is_accept l = true.

(** One handler reported the value [v], and [v] is the recorded result. *)
Definition reported (v : value) (s s' : state) (l : list event) : Prop :=
  exists n,
    List.filter is_success l = [Trigger n (Some v) None] /\
    (result_msg (vars s') = v \/
     (v = VNone /\ result_msg (vars s') = result_msg (vars s))).

(** While the dispatcher keeps running: a processed delivery keeps its
    recorded result and nothing more is reported; an unprocessed one either
    stays so, with the recorded result untouched, or is processed by a handler
    that reports the recorded result. *)
Definition value_kept (s s' : state) (l : list event) : Prop :=
  running (env s) = true /\
  (processed (vars s) = true ->
   processed (vars s') = true /\
   result_msg (vars s') = result_msg (vars s) /\
   List.filter is_success l = []) /\
  (processed (vars s) = false ->
   (processed (vars s') = false /\
    result_msg (vars s') = result_msg (vars s) /\
    List.filter is_success l = []) \/
   (processed (vars s') = true /\ exists v, reported v s s' l)).

(** A stronger property, which the dispatcher does not have: [consume]
    returns the empty result only if the dispatcher is not running or no
    filter accepted. *)
Definition empty_only_when_unmatched (opt : bool) (self : BaseHandler.t)
    (msg : value) (w : world) : Prop :=
  outcome_of (BaseHandler.consume opt self msg w) = Return VNone ->
  running w = false \/
  count_events is_accept (events_of (BaseHandler.consume opt self msg w)) = 0.

(** ** Publishing the result *)

(** The targets that [publish] is called on: the loop over the targets ends
    with the first one that raises. *)
Fixpoint tried_targets (out : value) (correlation : string)
    (ps : list PublisherProtocol.t) : list PublisherProtocol.t :=
  match ps with
  | [] => []
  | p :: rest =>
      p :: match PublisherProtocol.publish p out correlation with
           | Return _ => tried_targets out correlation rest
           | Raise _ => []
           end
  end.

(** The calls of [publish] made for the result [v] of a handler: none when a
    publish scope of the chain raises, which ends the block of the first
    target before its [publish]. *)
Definition publish_calls (ms : list BaseMiddleware.t) (v : value)
    (correlation : string) (ps : list PublisherProtocol.t) : list event :=
  match wrap_publish ms v with
  | Return out =>
      map (fun p => Publish (PublisherProtocol.name p) out correlation)
        (tried_targets out correlation ps)
  | Raise _ => []
  end.

(** How the [try] statement ends when its body raised [e]: the controlled
    stop is swallowed, anything else is raised again. *)
Definition after_failure (e : exn) : outcome bool :=
  match e with
  | StopConsume => Return false
  | _ => Raise e
  end.

(** A stronger property, which the dispatcher does not have: whenever a
    handler was called and returned a result, every target of the result is
    published to, with the correlation identifier of the message. *)
Definition every_target_is_published_to (opt : bool) (self : BaseHandler.t)
    (msg : value) (w : world) : Prop :=
  forall h message res pr p,
    In h (BaseHandler.calls self) ->
    In (Call (HandlerItem.call_name h) message)
       (events_of (BaseHandler.consume opt self msg w)) ->
    HandlerCallWrapper.call_wrapped (HandlerItem.handler h) message =
      Return (Some (res, pr)) ->
    In p (targets pr h) ->
    exists out,
      In (Publish (PublisherProtocol.name p) out (StreamMessage.correlation_id message))
         (events_of (BaseHandler.consume opt self msg w)).

(** * Sample subscriptions *)

(** Small dispatchers on which the properties below are instantiated. *)
Module Sample.

(** A middleware that lets bodies through and marks what is published. *)
Definition marking (n : string) : value -> BaseMiddleware.t := fun _ =>
  {| BaseMiddleware.name := n;
     BaseMiddleware.__aenter__ := Return tt;
     BaseMiddleware.consume_scope := fun b => Return b;
     BaseMiddleware.publish_scope := fun v =>
       match v with
       | VStr s => Return (VStr (s ++ "+" ++ n))
       | _ => Return v
       end |}.

(** A parser that stamps the envelope with a correlation identifier. *)
Definition parser (cid : string) (raw : value) : outcome StreamMessage.t :=
  Return {| StreamMessage.raw_message := raw;
            StreamMessage.headers := [];
            StreamMessage.correlation_id := cid;
            StreamMessage.decoded_body := VNone;
            StreamMessage.processed := false |}.

Definition decoder (m : StreamMessage.t) : outcome value :=
  Return (StreamMessage.raw_message m).

Definition publisher (n : string) : PublisherProtocol.t :=
  {| PublisherProtocol.name := n;
     PublisherProtocol.publish := fun _ _ => Return tt |}.

(** An item whose filter answers [accept] and whose handler ends as
    [call]. *)
Definition item (n cid : string) (accept : bool)
  (call : outcome (option HandlerCallWrapper.WrappedReturn))
  (pubs : list PublisherProtocol.t)
  (mws : list (value -> BaseMiddleware.t)) : HandlerItem.t :=
  {| HandlerItem.handler :=
       {| HandlerCallWrapper._original_call := n;
          HandlerCallWrapper.call_wrapped := fun _ => call;
          HandlerCallWrapper._publishers := pubs |};
     HandlerItem.filter := fun _ => Return accept;
     HandlerItem.parser := parser cid;
     HandlerItem.decoder := decoder;
     HandlerItem.middlewares := mws |}.

Definition dispatcher (cs : list HandlerItem.t)
  (gl : list (value -> BaseMiddleware.t)) : BaseHandler.t :=
  {| BaseHandler.calls := cs;
     BaseHandler.middlewares := gl;
     BaseHandler.log_context_builder := fun m =>
       [("message_id", StreamMessage.correlation_id m)];
     BaseHandler.graceful_timeout := None |}.

(** A started dispatcher with nothing in flight. *)
Definition started : world :=
  {| running := true; lock := MultiLock.__init__; log_context := None |}.

Definition stopped : world :=
  {| running := false; lock := MultiLock.__init__; log_context := None |}.

Definition hello : value := VStr "hello".

Definition returns (v : string) : outcome (option HandlerCallWrapper.WrappedReturn) :=
  Return (Some (VStr v, None)).

(** No item registered. *)
Definition nobody : BaseHandler.t := dispatcher [] [marking "g"].

(** One item, whose filter rejects. *)
Definition deaf : BaseHandler.t :=
  dispatcher [item "A" "id-A" false (Return None) [] []] [marking "g"].

(** One item, whose handler fails. *)
Definition failing : BaseHandler.t :=
  dispatcher [item "A" "id-A" true (Raise (Exception "boom")) [] []] [marking "g"].

(** One item, whose handler signals a declared handler error. *)
Definition declaring : BaseHandler.t :=
  dispatcher [item "A" "id-A" true (Raise (HandlerException "nack")) [] []]
    [marking "g"].

(** One item, whose handler asks to stop consuming. *)
Definition stopper : HandlerItem.t :=
  item "A" "id-A" true (Raise StopConsume) [] [].

Definition stopping : BaseHandler.t := dispatcher [stopper] [marking "g"].

(** Two items: the first rejects, the second accepts and answers. *)
Definition second_of_two : BaseHandler.t :=
  dispatcher [item "A" "id-A" false (Return None) [] [];
              item "B" "id-B" true (returns "b") [] []] [].

(** Two items whose filters both accept; the first asks to stop. *)
Definition stop_then_answer : BaseHandler.t :=
  dispatcher [stopper; item "B" "id-B" true (returns "b") [] []] [].

(** One item, whose handler returns nothing to send. *)
Definition silent : BaseHandler.t :=
  dispatcher [item "A" "id-A" true (Return (Some (VNone, None))) [] []] [].

(** The envelope [parser cid] makes of [hello], as a filter sees it. *)
Definition seen (cid : string) : StreamMessage.t :=
  {| StreamMessage.raw_message := hello;
     StreamMessage.headers := [];
     StreamMessage.correlation_id := cid;
     StreamMessage.decoded_body := hello;
     StreamMessage.processed := false |}.

(** Two items whose filters both accept and whose handlers both answer. *)
Definition both_answer : BaseHandler.t :=
  dispatcher [item "A" "id-A" true (returns "a") [] [];
              item "B" "id-B" true (returns "b") [] []] [].

(** The envelope of [hello] as the second of them sees it. *)
Definition seen_again (cid : string) : StreamMessage.t :=
  {| StreamMessage.raw_message := hello;
     StreamMessage.headers := [];
     StreamMessage.correlation_id := cid;
     StreamMessage.decoded_body := hello;
     StreamMessage.processed := true |}.

(** Three items, of which only the second accepts; its result goes to one
    static publisher through a global and a local middleware. *)
Definition item_A : HandlerItem.t := item "A" "id-A" false (returns "a") [] [].

Definition item_B : HandlerItem.t :=
  item "B" "id-B" true (returns "b") [publisher "replies"] [marking "l"].

Definition item_C : HandlerItem.t := item "C" "id-C" false (returns "c") [] [].

Definition middle_of_three : BaseHandler.t :=
  dispatcher [item_A; item_B; item_C] [marking "g"].

End Sample.

(** * Building a handler *)

(** ** [BaseHandler.__init__], [add_call] and the schema properties
    (handler.py, lines 78-86, 101-184 and 315-348) *)

(** Modelled from the spec: [faststream.utils.functions.to_async] is not among
    the sources.  A filter, a parser and a decoder "may be asynchronous"; a
    call and an awaited call both are an [outcome] here, so that the function
    registered is the function given. *)
Definition to_async {A B} (f : A -> outcome B) : A -> outcome B := f.

(** What [self.calls[0]] raises on an empty list. *)
Definition IndexError : exn := Exception "list index out of range".

Module Registration.

(** [BaseHandler.__init__] (lines 101-126): no call is registered, the
    handler is not running and its lock is new.  The logger and the schema
    attributes, which the dispatch does not read, are left out.  The
    attributes go where the dispatch reads them: [self.running] and
    [self.lock] to the [world], which keeps its context variable. *)
Definition __init__ (log_context_builder : StreamMessage.t -> LogContext)
  (middlewares : list (value -> BaseMiddleware.t))
  (graceful_timeout : option nat) (w : world) : BaseHandler.t * world :=
  ({| BaseHandler.calls := [];
      BaseHandler.middlewares := middlewares;
      BaseHandler.log_context_builder := log_context_builder;
      BaseHandler.graceful_timeout := graceful_timeout |},
   {| running := false; lock := MultiLock.__init__;
      log_context := log_context w |}).

(** [self.calls.append(item)] (line 165). *)
Definition append_call (self : BaseHandler.t) (item : HandlerItem.t)
  : BaseHandler.t :=
  {| BaseHandler.calls := BaseHandler.calls self ++ [item];
     BaseHandler.middlewares := BaseHandler.middlewares self;
     BaseHandler.log_context_builder := BaseHandler.log_context_builder self;
     BaseHandler.graceful_timeout := BaseHandler.graceful_timeout self |}.

Section AddCall.

(** The user's functions, the dependencies declared for them and the keyword
    arguments passed on to [wrap_handler]. *)
Variables Callable Depends Kwargs : Type.

(** [WrapHandlerMixin.wrap_handler] of [faststream.broker.core.handler_wrapper],
    which is not among the sources: it makes the call wrapper of a function,
    with the logger of the handler.  The dependant it returns with it is only
    read by the schema generator.  A registration in which it raises
    registers nothing and is not described here. *)
Variable wrap_handler : Callable -> list Depends -> Kwargs -> HandlerCallWrapper.t.

(** [faststream.asyncapi.utils.to_camelcase], which is not among the
    sources. *)
Variable to_camelcase : string -> string.

(** [real_wrapper] (lines 155-176): wraps the function, registers the item
    after the ones registered before and returns the call wrapper. *)
Definition real_wrapper (total_deps : list Depends) (wrap_kwargs : Kwargs)
  (filter : StreamMessage.t -> outcome bool)
  (parser : value -> outcome StreamMessage.t)
  (decoder : StreamMessage.t -> outcome value)
  (total_middlewares : list (value -> BaseMiddleware.t))
  (func : Callable) (self : BaseHandler.t)
  : BaseHandler.t * HandlerCallWrapper.t :=
  let handler := wrap_handler func total_deps wrap_kwargs in
  (append_call self
     {| HandlerItem.handler := handler;
        HandlerItem.filter := to_async filter;
        HandlerItem.parser := to_async parser;
        HandlerItem.decoder := to_async decoder;
        HandlerItem.middlewares := total_middlewares |},
   handler).

(** The [call_name] property of the handler (lines 315-318). *)
Definition call_name (self : BaseHandler.t) : outcome string :=
  match BaseHandler.calls self with
  | [] => Raise IndexError
  | h :: _ => Return (to_camelcase (HandlerItem.call_name h))
  end.

(** The schema of a payload, [AnyDict]. *)
Variable AnyDict : Type.

(** [faststream.asyncapi.message.parse_handler_params], which is not among
    the sources, applied to [h.dependant] and the prefix: [dependant] is left
    out of the items here, and what the schema generator makes of it is a
    function of the item. *)
Variable parse_handler_params : HandlerItem.t -> string -> outcome AnyDict.

(** [getattr(unwrap(handler._original_call), "__doc__", None)]: the original
    call is known here by its name, its documentation is a function of the
    call wrapper. *)
Variable __doc__ : HandlerCallWrapper.t -> option string.

(** The truth value of an [Optional[str]]: [None] and the empty string are
    false. *)
Definition truthy (o : option string) : bool :=
  match o with
  | Some s => negb (String.eqb s "")
  | None => false
  end.

(** The [description] property of an item (lines 78-86). *)
Definition item_description (h : HandlerItem.t) : option string :=
  __doc__ (HandlerItem.handler h).

(** The [description] property of the handler (lines 320-330);
    [_description] is the attribute that [__init__] stores. *)
Definition description (_description : option string) (self : BaseHandler.t)
  : option string :=
  if truthy _description then _description
  else
    match BaseHandler.calls self with
    | [] => None
    | h :: _ => item_description h
    end.

(** [self._title or self.call_name] (line 339): the name is read only when
    the title is false. *)
Definition title_or_call_name (_title : option string) (self : BaseHandler.t)
  : outcome string :=
  match _title with
  | Some s => if truthy _title then Return s else call_name self
  | None => call_name self
  end.

(** The loop of [get_payloads] (lines 336-346) over the items [hs]. *)
Fixpoint payloads (_title : option string) (self : BaseHandler.t)
  (hs : list HandlerItem.t) : outcome (list (AnyDict * string)) :=
  match hs with
  | [] => Return []
  | h :: rest =>
      match title_or_call_name _title self with
      | Raise e => Raise e
      | Return name =>
          match parse_handler_params h (name ++ ":Message") with
          | Raise e => Raise e
          | Return body =>
              match payloads _title self rest with
              | Raise e => Raise e
              | Return ps =>
                  Return ((body, to_camelcase (HandlerItem.call_name h)) :: ps)
              end
          end
      end
  end.

(** [get_payloads] (lines 332-348); [_title] is the attribute that
    [__init__] stores. *)
Definition get_payloads (_title : option string) (self : BaseHandler.t)
  : outcome (list (AnyDict * string)) :=
  payloads _title self (BaseHandler.calls self).

End AddCall.

Arguments real_wrapper {Callable Depends Kwargs}.
Arguments payloads to_camelcase {AnyDict}.
Arguments get_payloads to_camelcase {AnyDict}.

End Registration.

(** * Vocabulary of the further properties *)

(** ** Histories of a lock *)

(** What the users of a [MultiLock] do to it. *)
Inductive lock_call : Type := CallEnter | CallExit.

Definition lock_step (l : MultiLock.t) (c : lock_call) : MultiLock.t :=
  match c with
  | CallEnter => MultiLock.__enter__ l
  | CallExit => MultiLock.__exit__ l
  end.

(** The lock after the calls of a history, the first call first. *)
Definition lock_after (history : list lock_call) (l : MultiLock.t) : MultiLock.t :=
  fold_left lock_step history l.

(** The entries not yet taken back after a history that started with [n] of
    them: an exit with none to take back is not counted. *)
Fixpoint in_flight (history : list lock_call) (n : nat) : nat :=
  match history with
  | [] => n
  | CallEnter :: rest => in_flight rest (S n)
  | CallExit :: rest => in_flight rest (pred n)
  end.

(** ** What reaches a handler *)

Definition is_Trigger (e : event) : bool :=
  match e with Trigger _ _ _ => true | _ => false end.

(** What is done for an item only once its filter has accepted: the handler
    call, a publication, a report to [trigger], the close of the handler. *)
Definition reaches_handler (e : event) : bool :=
  is_Call e || is_Publish e || is_Trigger e || is_Close e.

(** A filter accepted a delivery that no item had processed: the [try]
    statement of the item is attempted. *)
Definition is_attempt (e : event) : bool :=
  match e with
  | Filtered _ m accepted => accepted && negb (StreamMessage.processed m)
  | _ => false
  end.

(** The steps that reach no handler. *)
Definition unreached (s s' : state) (l : list event) : Prop :=
  List.filter reaches_handler l = [].

(** The steps that report nothing to [trigger]. *)
Definition unreported (s s' : state) (l : list event) : Prop :=
  List.filter is_Trigger l = [].

(** The steps that report to [trigger] once for each attempt. *)
Definition reported_once (s s' : state) (l : list event) : Prop :=
  count_events is_Trigger l = count_events is_attempt l.

(** The steps that call no handler. *)
Definition uncalled (s s' : state) (l : list event) : Prop :=
  List.filter is_Call l = [].

(** The steps in which the handlers are called at most as often as
    [trigger]. *)
Definition called_and_reported (s s' : state) (l : list event) : Prop :=
  count_events is_Call l <= count_events is_Trigger l.

(** ** The teardown of a call *)

(** The end calls of what the stack of the call holds: the lock, the context
    scope and the middlewares. *)
Definition is_teardown (e : event) : bool :=
  match e with
  | LockExit | ScopeExit _ | MiddlewareExit _ => true
  | _ => false
  end.

(** The middlewares whose [__aenter__] was called, in the order of the
    calls. *)
Definition entered (l : list event) : list string :=
  flat_map (fun e => match e with MiddlewareEnter m => [m] | _ => [] end) l.

(** The exit methods that the stacks of the [try] statement hold. *)
Definition inner (cb : exit_callback) : bool :=
  match cb with
  | ExitConsumeScope _ | ExitPublishScope _ => true
  | _ => false
  end.

(** The steps that leave the stack of the call alone: they register nothing
    on it, enter no middleware and make no end call of what it holds. *)
Definition calm (s s' : state) (l : list event) : Prop :=
  forallb inner (consume_stack (vars s)) = true ->
  forallb inner (pub_stack (vars s)) = true ->
  forallb inner (consume_stack (vars s')) = true /\
  forallb inner (pub_stack (vars s')) = true /\
  stack (vars s') = stack (vars s) /\
  List.filter is_teardown l = [] /\
  entered l = [].

(** The middlewares that a handler makes for a raw message during a call, in
    the order in which the call enters them: its own, then those of its
    items in the order of registration. *)
Definition middlewares_of (self : BaseHandler.t) (msg : value)
    : list BaseMiddleware.t :=
  instantiate msg
    (BaseHandler.middlewares self ++
     flat_map HandlerItem.middlewares (BaseHandler.calls self)).

(** How far a step came through the middlewares [all] it has to enter.  It
    entered [ms], the first of them, and [rest] is what is left.  Either
    every [__aenter__] it called returned; or the last thing it did was to
    call the [__aenter__] of the first middleware left, which raised what
    the step raises. *)
Definition entered_through {A} (all ms rest : list BaseMiddleware.t)
    (r : outcome A) (l : list event) : Prop :=
  all = ms ++ rest /\
  enter_ok ms /\
  (entered l = map BaseMiddleware.name ms \/
   exists f rest' e l0,
     rest = f :: rest' /\
     BaseMiddleware.__aenter__ f = Raise e /\
     r = Raise e /\
     l = l0 ++ [MiddlewareEnter (BaseMiddleware.name f)] /\
     entered l0 = map BaseMiddleware.name ms).

(** The steps that go through the middlewares [all]: they make no end call
    of what the stack of the call holds, and only add to it the exits of the
    middlewares they entered, the last one entered on top.  With [full], a
    step that returns has entered them all. *)
Definition stacked {A} (all : list BaseMiddleware.t) (full : bool)
    (r : outcome A) (s s' : state) (l : list event) : Prop :=
  forallb inner (consume_stack (vars s)) = true ->
  forallb inner (pub_stack (vars s)) = true ->
  forallb inner (consume_stack (vars s')) = true /\
  forallb inner (pub_stack (vars s')) = true /\
  List.filter is_teardown l = [] /\
  exists ms rest,
    entered_through all ms rest r l /\
    stack (vars s') = middleware_exits ms ++ stack (vars s) /\
    (full = true -> (exists a, r = Return a) -> rest = []).

Definition stacks {A} (all : list BaseMiddleware.t) (full : bool) (m : M A) : Prop :=
  forall s r s' l, m s = (r, s', l) -> stacked all full r s s' l.

(** ** The token of the log context *)

(** The context variable and the token of the call after one more event:
    [set_local] stores its value and hands back what it replaces. *)
Definition track (ct : option LogContext * option Token) (e : event)
    : option LogContext * option Token :=
  match e with
  | SetLocal _ v => (Some v, Some (fst ct))
  | _ => ct
  end.

(** The steps that never reset the log context and keep, as the token of the
    call, what the last [set_local] replaced. *)
Definition tracked (s s' : state) (l : list event) : Prop :=
  List.filter is_ResetLocal l = [] /\
  (log_context (env s'), log_context_tag (vars s')) =
  fold_left track l (log_context (env s), log_context_tag (vars s)).

(** What the last [set_local] among the events [l] replaced; the value [c]
    held before them when there is none. *)
Definition before_last_set (l : list event) (c : option LogContext)
    : option LogContext :=
  match snd (fold_left track l (c, None)) with
  | Some old => old
  | None => c
  end.

(** ** The schema of a handler *)

(** The prefix that [get_payloads] gives every payload of a handler: the
    title when there is one, the name of the first call else. *)
Definition payload_prefix (to_camelcase : string -> string)
    (_title : option string) (self : BaseHandler.t) : string :=
  ((if Registration.truthy _title then
     match _title with Some s => s | None => "" end
   else
     match BaseHandler.calls self with
     | h :: _ => to_camelcase (HandlerItem.call_name h)
     | [] => ""
     end) ++ ":Message")%string.

(** * Faulty collaborators *)

(** Collaborators that fail, on which the properties of the error paths are
    instantiated. *)
Module Faulty.

(** A middleware that cannot be entered. *)
Definition broken (n : string) : value -> BaseMiddleware.t := fun _ =>
  {| BaseMiddleware.name := n;
     BaseMiddleware.__aenter__ := Raise (Exception "down");
     BaseMiddleware.consume_scope := fun b => Return b;
     BaseMiddleware.publish_scope := fun v => Return v |}.

(** One accepting item behind three global middlewares, of which the second
    cannot be entered. *)
Definition guarded : BaseHandler.t :=
  Sample.dispatcher [Sample.item "A" "id-A" true (Sample.returns "a") [] []]
    [Sample.marking "g"; broken "x"; Sample.marking "h"].

(** A publisher that refuses what it is given. *)
Definition refusing (n : string) : PublisherProtocol.t :=
  {| PublisherProtocol.name := n;
     PublisherProtocol.publish := fun _ _ => Raise (Exception "refused") |}.

(** An item whose result goes to three publishers, of which the second
    refuses. *)
Definition fan_out : HandlerItem.t :=
  Sample.item "A" "id-A" true (Sample.returns "a")
    [Sample.publisher "p1"; refusing "p2"; Sample.publisher "p3"] [].

(** An item whose parser fails. *)
Definition unparsable : HandlerItem.t :=
  {| HandlerItem.handler :=
       {| HandlerCallWrapper._original_call := "A";
          HandlerCallWrapper.call_wrapped := fun _ => Sample.returns "a";
          HandlerCallWrapper._publishers := [] |};
     HandlerItem.filter := fun _ => Return true;
     HandlerItem.parser := fun _ => Raise (Exception "garbled");
     HandlerItem.decoder := Sample.decoder;
     HandlerItem.middlewares := [] |}.

Definition garbling : BaseHandler.t := Sample.dispatcher [unparsable] [].

(** A [wrap_handler] for functions given by their name: the call wrapper
    answers with the name. *)
Definition wrap_named (func : string) (dependencies : list unit) (kwargs : unit)
  : HandlerCallWrapper.t :=
  {| HandlerCallWrapper._original_call := func;
     HandlerCallWrapper.call_wrapped := fun _ => Sample.returns func;
     HandlerCallWrapper._publishers := [] |}.

(** A publisher that asks to stop consuming. *)
Definition halting (n : string) : PublisherProtocol.t :=
  {| PublisherProtocol.name := n;
     PublisherProtocol.publish := fun _ _ => Raise StopConsume |}.

(** An item whose result goes to a publisher that asks to stop. *)
Definition last_answer : HandlerItem.t :=
  Sample.item "A" "id-A" true (Sample.returns "a") [halting "p1"] [].

(** An item whose handler returns nothing, with a publisher bound. *)
Definition mute : HandlerItem.t :=
  Sample.item "A" "id-A" true (Return None) [Sample.publisher "p1"] [].

(** A middleware whose consume scope cannot be entered. *)
Definition choking (n : string) : value -> BaseMiddleware.t := fun _ =>
  {| BaseMiddleware.name := n;
     BaseMiddleware.__aenter__ := Return tt;
     BaseMiddleware.consume_scope := fun _ => Raise (Exception "choked");
     BaseMiddleware.publish_scope := fun v => Return v |}.

(** A schema generator that knows the payload of the call ["A"] only. *)
Definition params_of (h : HandlerItem.t) (prefix : string) : outcome string :=
  if String.eqb (HandlerItem.call_name h) "A" then Return (prefix ++ ":A")%string
  else Raise (Exception "unknown").

End Faulty.

(** * Declaring queues and exchanges *)

(** ** [RabbitDeclarer] (rabbit/helpers.py, lines 10-122) *)

(** [dict.get(k)]: the value of the first key that equals [k], [None] when
    there is none.  [eqb stored k] is what the dictionary asks: same hash
    and [stored is k or stored == k], so that a key equals itself. *)
Fixpoint dict_get {K V : Type} (eqb : K -> K -> bool) (d : list (K * V)) (k : K)
    : option V :=
  match d with
  | [] => None
  | (stored, v) :: rest => if eqb stored k then Some v else dict_get eqb rest k
  end.

(** [d[k] = v]: the value of a key that equals [k] is replaced, a new key
    comes last. *)
Fixpoint dict_set {K V : Type} (eqb : K -> K -> bool) (d : list (K * V)) (k : K)
    (v : V) : list (K * V) :=
  match d with
  | [] => [(k, v)]
  | (stored, v') :: rest =>
      if eqb stored k then (stored, v) :: rest
      else (stored, v') :: dict_set eqb rest k v
  end.

Module RabbitDeclarer.

Section Declarer.

(** [RabbitQueue], and what a [RabbitExchange] holds besides [bind_to], of
    [faststream.rabbit.shared.schemas]; the queues and exchanges of
    [aio_pika].  None of them is among the sources. *)
Variables RabbitQueue ExchangeFields RobustQueue RobustExchange : Type.

(** A [RabbitExchange]: its fields and, when [bind_to] is not [None], the
    exchange it is bound to. *)
Inductive RabbitExchange : Type :=
| Unbound (fields : ExchangeFields)
| BoundTo (fields : ExchangeFields) (parent : RabbitExchange).

Definition fields (exchange : RabbitExchange) : ExchangeFields :=
  match exchange with Unbound f | BoundTo f _ => f end.

Definition bind_to (exchange : RabbitExchange) : option RabbitExchange :=
  match exchange with
  | Unbound _ => None
  | BoundTo _ parent => Some parent
  end.

(** The keys of the two dictionaries, as a dictionary compares them. *)
Variable queue_eqb : RabbitQueue -> RabbitQueue -> bool.
Variable exchange_eqb : RabbitExchange -> RabbitExchange -> bool.

(** The channel: [channel.declare_queue] and [channel.declare_exchange] on
    the fields that [model_to_dict] keeps, and [exch.bind] with the routing
    key and the arguments of the exchange bound. *)
Variable channel_declare_queue : RabbitQueue -> outcome RobustQueue.
Variable channel_declare_exchange : ExchangeFields -> outcome RobustExchange.
Variable bind : RobustExchange -> RobustExchange -> ExchangeFields -> outcome unit.

(** The calls made on the channel and on the exchanges, in the order made. *)
Inductive call : Type :=
| DeclareQueue (queue : RabbitQueue)
| DeclareExchange (exchange : ExchangeFields)
| Bind (exch parent : RobustExchange) (exchange : ExchangeFields).

Record t : Type := {
  queues : list (RabbitQueue * RobustQueue);
  exchanges : list (RabbitExchange * RobustExchange)
}.

(** [__init__] (lines 36-49). *)
Definition __init__ : t := {| queues := []; exchanges := [] |}.

(** [declare_queue] (lines 51-79). *)
Definition declare_queue (queue : RabbitQueue) (self : t)
  : outcome RobustQueue * t * list call :=
  match dict_get queue_eqb (queues self) queue with
  | Some q => (Return q, self, [])
  | None =>
      match channel_declare_queue queue with
      | Return q =>
          (Return q,
           {| queues := dict_set queue_eqb (queues self) queue q;
              exchanges := exchanges self |},
           [DeclareQueue queue])
      | Raise e => (Raise e, self, [DeclareQueue queue])
      end
  end.

(** Lines 96-112 of [declare_exchange]: the exchange is declared unless it
    is known. *)
Definition declare_known (exchange : RabbitExchange) (self : t)
  : outcome RobustExchange * t * list call :=
  match dict_get exchange_eqb (exchanges self) exchange with
  | Some exch => (Return exch, self, [])
  | None =>
      match channel_declare_exchange (fields exchange) with
      | Return exch =>
          (Return exch,
           {| queues := queues self;
              exchanges := dict_set exchange_eqb (exchanges self) exchange exch |},
           [DeclareExchange (fields exchange)])
      | Raise e => (Raise e, self, [DeclareExchange (fields exchange)])
      end
  end.

(** [declare_exchange] (lines 81-122): the exchange is declared unless it is
    known, then the exchange it is bound to, and the two are bound. *)
Fixpoint declare_exchange (exchange : RabbitExchange) (self : t)
  : outcome RobustExchange * t * list call :=
  match declare_known exchange self with
  | (Raise e, self1, l1) => (Raise e, self1, l1)
  | (Return exch, self1, l1) =>
      match exchange with
      | Unbound _ => (Return exch, self1, l1)
      | BoundTo f parent_exchange =>
          match declare_exchange parent_exchange self1 with
          | (Raise e, self2, l2) => (Raise e, self2, l1 ++ l2)
          | (Return parent, self2, l2) =>
              match bind exch parent f with
              | Return _ => (Return exch, self2, l1 ++ l2 ++ [Bind exch parent f])
              | Raise e => (Raise e, self2, l1 ++ l2 ++ [Bind exch parent f])
              end
          end
      end
  end.

(** The calls that bind an exchange. *)
Definition is_Bind (c : call) : bool :=
  match c with Bind _ _ _ => true | _ => false end.

(** Everything known to [self] is known to [self'], with the same object. *)
Definition known_in (self self' : t) : Prop :=
  forall exchange exch,
    dict_get exchange_eqb (exchanges self) exchange = Some exch ->
    dict_get exchange_eqb (exchanges self') exchange = Some exch.

End Declarer.

Arguments Unbound {ExchangeFields}.
Arguments BoundTo {ExchangeFields}.
Arguments fields {ExchangeFields}.
Arguments bind_to {ExchangeFields}.
Arguments DeclareQueue {RabbitQueue ExchangeFields RobustExchange}.
Arguments DeclareExchange {RabbitQueue ExchangeFields RobustExchange}.
Arguments Bind {RabbitQueue ExchangeFields RobustExchange}.
Arguments queues {RabbitQueue ExchangeFields RobustQueue RobustExchange}.
Arguments exchanges {RabbitQueue ExchangeFields RobustQueue RobustExchange}.
Arguments __init__ {RabbitQueue ExchangeFields RobustQueue RobustExchange}.
Arguments declare_queue {RabbitQueue ExchangeFields RobustQueue RobustExchange}.
Arguments declare_known {RabbitQueue ExchangeFields RobustQueue RobustExchange}.
Arguments declare_exchange {RabbitQueue ExchangeFields RobustQueue RobustExchange}.
Arguments is_Bind {RabbitQueue ExchangeFields RobustExchange}.
Arguments known_in {RabbitQueue ExchangeFields RobustQueue RobustExchange}.

End RabbitDeclarer.

(** A channel on which the properties of the declarer are instantiated:
    queues and exchanges are known by their names, and the channel refuses
    the name ["forbidden"]. *)
Module Broker.

Definition declare (name : string) : outcome string :=
  if String.eqb name "forbidden" then Raise (Exception "refused")
  else Return name.

Fixpoint exchange_eqb (a b : RabbitDeclarer.RabbitExchange string) : bool :=
  match a, b with
  | RabbitDeclarer.Unbound f, RabbitDeclarer.Unbound g => String.eqb f g
  | RabbitDeclarer.BoundTo f p, RabbitDeclarer.BoundTo g q =>
      String.eqb f g && exchange_eqb p q
  | _, _ => false
  end.

Definition bind (exch parent routing : string) : outcome unit := Return tt.

(** The exchange ["logs"], bound to ["events"], bound to ["root"]. *)
Definition logs : RabbitDeclarer.RabbitExchange string :=
  RabbitDeclarer.BoundTo "logs"
    (RabbitDeclarer.BoundTo "events" (RabbitDeclarer.Unbound "root")).

End Broker.
(** * The application *)

(** ** [FastStream]: hooks, start and shutdown (app.py, lines 138-205 and
    233-315) *)

Module FastStream.

(** [run_extra_options]: [Dict[str, SettingField]]. *)
Definition Options : Type := list (string * value).

(** A hook as the application holds it: a function object, known here by
    its name.  What a call of it does is [call_hook] below. *)
Definition AsyncFunc : Type := string.

(** The broker, of [faststream.broker.core.broker], which is not among the
    sources: the application starts and closes it. *)
Record BrokerUsecase : Type := {
  broker_name : string;
  start : outcome unit;
  close : outcome unit
}.

(** What the application does to its collaborators, in the order done. *)
Inductive call : Type :=
| Hook (name : string) (kwargs : Options)
| BrokerStart (broker : string)
| BrokerClose (broker : string)
| Log (level : Z) (message : string).

(** The attributes of the application that its start and shutdown read;
    [logger] holds the name of the logger.  The four lists are changed in
    place only, by the decorators below. *)
Record t : Type := {
  broker : option BrokerUsecase;
  logger : option string;
  _on_startup_calling : list AsyncFunc;
  _after_startup_calling : list AsyncFunc;
  _on_shutdown_calling : list AsyncFunc;
  _after_shutdown_calling : list AsyncFunc
}.

(** [set_broker] (lines 138-143). *)
Definition set_broker (self : t) (b : BrokerUsecase) : t :=
  {| broker := Some b; logger := logger self;
     _on_startup_calling := _on_startup_calling self;
     _after_startup_calling := _after_startup_calling self;
     _on_shutdown_calling := _on_shutdown_calling self;
     _after_shutdown_calling := _after_shutdown_calling self |}.

Section Hooks.

(** The user's functions. *)
Variable Callable : Type.

(** [apply_types(to_async(func))] of [faststream.utils], which is not among
    the sources: the hook that calling the function makes. *)
Variable apply_types : Callable -> AsyncFunc.

(** [on_startup] (lines 145-160): the hook is registered last and the
    function is returned as it is. *)
Definition on_startup (self : t) (func : Callable) : t * Callable :=
  ({| broker := broker self; logger := logger self;
      _on_startup_calling := _on_startup_calling self ++ [apply_types func];
      _after_startup_calling := _after_startup_calling self;
      _on_shutdown_calling := _on_shutdown_calling self;
      _after_shutdown_calling := _after_shutdown_calling self |},
   func).

(** [on_shutdown] (lines 162-175). *)
Definition on_shutdown (self : t) (func : Callable) : t * Callable :=
  ({| broker := broker self; logger := logger self;
      _on_startup_calling := _on_startup_calling self;
      _after_startup_calling := _after_startup_calling self;
      _on_shutdown_calling := _on_shutdown_calling self ++ [apply_types func];
      _after_shutdown_calling := _after_shutdown_calling self |},
   func).

(** [after_startup] (lines 177-190). *)
Definition after_startup (self : t) (func : Callable) : t * Callable :=
  ({| broker := broker self; logger := logger self;
      _on_startup_calling := _on_startup_calling self;
      _after_startup_calling := _after_startup_calling self ++ [apply_types func];
      _on_shutdown_calling := _on_shutdown_calling self;
      _after_shutdown_calling := _after_shutdown_calling self |},
   func).

(** [after_shutdown] (lines 192-205). *)
Definition after_shutdown (self : t) (func : Callable) : t * Callable :=
  ({| broker := broker self; logger := logger self;
      _on_startup_calling := _on_startup_calling self;
      _after_startup_calling := _after_startup_calling self;
      _on_shutdown_calling := _on_shutdown_calling self;
      _after_shutdown_calling := _after_shutdown_calling self ++ [apply_types func] |},
   func).

End Hooks.

Arguments on_startup {Callable}.
Arguments on_shutdown {Callable}.
Arguments after_startup {Callable}.
Arguments after_shutdown {Callable}.

(** How a step of the application ends: its outcome, the application after
    it and the calls it made.  [None] stands for a loop over hooks that was
    cut: a hook that registers a hook of its own kind each time it is called
    keeps the loop of the source running for ever. *)
Definition result : Type := option (outcome unit * t * list call).

(** One step after another: the second runs, on the application the first
    left, when the first returned. *)
Definition then_ (a : result) (b : t -> result) : result :=
  match a with
  | Some (Return _, self, l1) =>
      match b self with
      | Some (r, self', l2) => Some (r, self', l1 ++ l2)
      | None => None
      end
  | Some (Raise e, self, l1) => Some (Raise e, self, l1)
  | None => None
  end.

Section Run.

(** What awaiting a hook does.  A hook is the user's code: it is called with
    keyword arguments on the application as it is then, may use it (set its
    broker, register hooks) while it runs, also when it ends by raising, and
    leaves it as the second component. *)
Variable call_hook : AsyncFunc -> Options -> t -> outcome unit * t.

(** [for func in calling: await func(...)], with the keyword arguments
    [kwargs], from the index [i] on.  The list is the attribute [calling]
    of the application: the iterator of a Python list reads it by index, so
    that a hook registered while the loop runs is called by it too.  [fuel]
    bounds the number of iterations. *)
Fixpoint call_all (fuel : nat) (calling : t -> list AsyncFunc)
  (kwargs : Options) (i : nat) (self : t) : result :=
  match fuel with
  | O => None
  | S fuel' =>
      match nth_error (calling self) i with
      | None => Some (Return tt, self, [])
      | Some func =>
          match call_hook func kwargs self with
          | (Return _, self') =>
              match call_all fuel' calling kwargs (S i) self' with
              | Some (r, self'', l) => Some (r, self'', Hook func kwargs :: l)
              | None => None
              end
          | (Raise e, self') => Some (Raise e, self', [Hook func kwargs])
          end
      end
  end.

(** Lines 283-284: [self.broker] is read when the hooks before it have
    run. *)
Definition start_broker (self : t) : result :=
  match broker self with
  | Some b => Some (start b, self, [BrokerStart (broker_name b)])
  | None => Some (Return tt, self, [])
  end.

(** Lines 298-299. *)
Definition close_broker (self : t) : result :=
  match broker self with
  | Some b => Some (close b, self, [BrokerClose (broker_name b)])
  | None => Some (Return tt, self, [])
  end.

(** [_startup] (lines 271-287). *)
Definition _startup (fuel : nat) (self : t) (run_extra_options : Options)
  : result :=
  then_ (call_all fuel _on_startup_calling run_extra_options 0 self)
    (fun self =>
       then_ (start_broker self)
         (fun self => call_all fuel _after_startup_calling [] 0 self)).

(** [_shutdown] (lines 289-302). *)
Definition _shutdown (fuel : nat) (self : t) : result :=
  then_ (call_all fuel _on_shutdown_calling [] 0 self)
    (fun self =>
       then_ (close_broker self)
         (fun self => call_all fuel _after_shutdown_calling [] 0 self)).

(** [_log] (lines 304-315). *)
Definition _log (self : t) (level : Z) (message : string) : result :=
  match logger self with
  | Some _ => Some (Return tt, self, [Log level message])
  | None => Some (Return tt, self, [])
  end.

(** [_start] (lines 233-251); [run_extra_options or {}]. *)
Definition _start (fuel : nat) (self : t) (log_level : Z)
  (run_extra_options : option Options) : result :=
  then_ (_log self log_level "FastStream app starting...")
    (fun self =>
       then_
         (_startup fuel self
            match run_extra_options with
            | Some options => options
            | None => []
            end)
         (fun self =>
            _log self log_level
              "FastStream app started successfully! To exit, press CTRL+C")).

(** The application after the hooks [funcs] were called in turn. *)
Fixpoint after_hooks (funcs : list AsyncFunc) (kwargs : Options) (self : t) : t :=
  match funcs with
  | [] => self
  | func :: rest => after_hooks rest kwargs (snd (call_hook func kwargs self))
  end.

(** Every hook of [funcs], called in turn from [self] with [kwargs],
    returns and leaves the list [calling] as it is. *)
Fixpoint hooks_return (calling : t -> list AsyncFunc) (funcs : list AsyncFunc)
  (kwargs : Options) (self : t) : Prop :=
  match funcs with
  | [] => True
  | func :: rest =>
      fst (call_hook func kwargs self) = Return tt /\
      calling (snd (call_hook func kwargs self)) = calling self /\
      hooks_return calling rest kwargs (snd (call_hook func kwargs self))
  end.

End Run.

(** The calls of the hooks of a list, in order. *)
Definition hook_calls (funcs : list AsyncFunc) (kwargs : Options) : list call :=
  map (fun func => Hook func kwargs) funcs.

(** What starting or closing the broker of [self] leaves in the trace. *)
Definition broker_call (self : t) (c : string -> call) : list call :=
  match broker self with
  | Some b => [c (broker_name b)]
  | None => []
  end.

(** The calls made by a step. *)
Definition calls_of (x : result) : list call :=
  match x with
  | Some (_, _, l) => l
  | None => []
  end.

Definition is_BrokerStart (c : call) : bool :=
  match c with BrokerStart _ => true | _ => false end.

Definition is_BrokerClose (c : call) : bool :=
  match c with BrokerClose _ => true | _ => false end.

End FastStream.

(** An application on which the properties of start and shutdown are
    instantiated. *)
Module Service.

Definition rabbit : FastStream.BrokerUsecase :=
  {| FastStream.broker_name := "rabbit";
     FastStream.start := Return tt;
     FastStream.close := Return tt |}.

(** The hooks, by name: ["connect"] creates the broker and sets it,
    ["crash"] raises, ["invite"] registers the hook ["welcome"] to run after
    the start, and any other hook returns. *)
Definition call_hook (func : FastStream.AsyncFunc) (kwargs : FastStream.Options)
  (self : FastStream.t) : outcome unit * FastStream.t :=
  if String.eqb func "connect" then (Return tt, FastStream.set_broker self rabbit)
  else if String.eqb func "crash" then (Raise (Exception "hook failed"), self)
  else if String.eqb func "invite" then
    (Return tt, fst (FastStream.after_startup (fun n : string => n) self "welcome"))
  else (Return tt, self).

(** An application made without a broker, whose startup hooks set it. *)
Definition app : FastStream.t :=
  {| FastStream.broker := None;
     FastStream.logger := Some "faststream";
     FastStream._on_startup_calling := ["invite"; "connect"];
     FastStream._after_startup_calling := ["announce"];
     FastStream._on_shutdown_calling := ["drain"];
     FastStream._after_shutdown_calling := ["farewell"] |}.

(** An application around a broker, with hooks that fail: the second
    startup hook and the only shutdown hook. *)
Definition fragile : FastStream.t :=
  {| FastStream.broker := Some rabbit;
     FastStream.logger := Some "faststream";
     FastStream._on_startup_calling := ["configure"; "crash"; "warm"];
     FastStream._after_startup_calling := ["announce"];
     FastStream._on_shutdown_calling := ["crash"];
     FastStream._after_shutdown_calling := ["farewell"] |}.

End Service.

(** * Properties *)

(** ** Running a computation step by step *)

Lemma bind_inv {A B} (m : M A) (f : A -> M B) s r s' l :
  bind m f s = (r, s', l) ->
  (exists a s1 l1 l2,
      m s = (Return a, s1, l1) /\ f a s1 = (r, s', l2) /\ l = l1 ++ l2)
  \/ (exists e, m s = (Raise e, s', l) /\ r = Raise e).
Proof.
  unfold bind. destruct (m s) as [[[a | e] s1] l1].
  - destruct (f a s1) as [[r2 s2] l2] eqn:E. intros H. inversion H; subst.
    left. exists a, s1, l1, l2. auto.
  - intros H. inversion H; subst. right. exists e. auto.
Qed.

Lemma bind_return {A B} (m : M A) (f : A -> M B) s a s1 l1 :
  m s = (Return a, s1, l1) ->
  bind m f s = (let '(r, s2, l2) := f a s1 in (r, s2, l1 ++ l2)).
Proof. intros H. unfold bind. rewrite H. reflexivity. Qed.

Lemma bind_raise {A B} (m : M A) (f : A -> M B) s e s1 l1 :
  m s = (Raise e, s1, l1) -> bind m f s = (Raise e, s1, l1).
Proof. intros H. unfold bind. rewrite H. reflexivity. Qed.

(** ** Relations every step of a computation keeps *)

Section Keeps.
Variable R : state -> state -> list event -> Prop.
Context `{StepRel R}.

Lemma keeps_ret {A} (a : A) : keeps R (ret a).
Proof. intros s r s' l E. inversion E; subst. apply step_refl. Qed.

Lemma keeps_raise {A} (e : exn) : keeps R (@raise A e).
Proof. intros s r s' l E. inversion E; subst. apply step_refl. Qed.

Lemma keeps_await {A} (o : outcome A) : keeps R (await o).
Proof. intros s r s' l E. inversion E; subst. apply step_refl. Qed.

Lemma keeps_get_vars : keeps R get_vars.
Proof. intros s r s' l E. inversion E; subst. apply step_refl. Qed.

Lemma keeps_get_env : keeps R get_env.
Proof. intros s r s' l E. inversion E; subst. apply step_refl. Qed.

Lemma keeps_assert_ c msg : keeps R (assert_ c msg).
Proof. destruct c; [apply keeps_ret | apply keeps_raise]. Qed.

Lemma keeps_bind {A B} (m : M A) (f : A -> M B) :
  keeps R m -> (forall a, keeps R (f a)) -> keeps R (bind m f).
Proof.
  intros Hm Hf s r s' l E. apply bind_inv in E.
  destruct E as [(a & s1 & l1 & l2 & E1 & E2 & ->) | (e & E1 & _)].
  - eapply step_trans; [eapply Hm | eapply Hf]; eauto.
  - eapply Hm; eauto.
Qed.

Lemma keeps_try_except_else {A B} (body : M A) (handler : exn -> M B)
  (orelse : A -> M B) :
  keeps R body -> (forall e, keeps R (handler e)) ->
  (forall a, keeps R (orelse a)) ->
  keeps R (try_except_else body handler orelse).
Proof.
  intros Hb Hh Ho s r s' l. unfold try_except_else.
  destruct (body s) as [[[a | e] s1] l1] eqn:E1.
  - destruct (orelse a s1) as [[r2 s2] l2] eqn:E2. intros E; inversion E; subst.
    eapply step_trans; [eapply Hb | eapply Ho]; eauto.
  - destruct (handler e s1) as [[r2 s2] l2] eqn:E2. intros E; inversion E; subst.
    eapply step_trans; [eapply Hb | eapply Hh]; eauto.
Qed.

Lemma keeps_finally {A} (body : M A) (fin : M unit) :
  keeps R body -> keeps R fin -> keeps R (finally body fin).
Proof.
  intros Hb Hf s r s' l. unfold finally.
  destruct (body s) as [[r1 s1] l1] eqn:E1.
  destruct (fin s1) as [[[u | e] s2] l2] eqn:E2; intros E; inversion E; subst;
  (eapply step_trans; [eapply Hb | eapply Hf]; eauto).
Qed.

Lemma keeps_emit e : (forall s, R s s [e]) -> keeps R (emit e).
Proof. intros He s r s' l E. inversion E; subst. apply He. Qed.

Lemma keeps_modify_vars g :
  (forall s, R s {| vars := g (vars s); env := env s |} []) ->
  keeps R (modify_vars g).
Proof. intros Hg s r s' l E. inversion E; subst. apply Hg. Qed.

Lemma keeps_modify_env g :
  (forall s, R s {| vars := vars s; env := g (env s) |} []) ->
  keeps R (modify_env g).
Proof. intros Hg s r s' l E. inversion E; subst. apply Hg. Qed.
End Keeps.

(** Splits a goal [keeps R m] along the structure of [m]; what is left are the
    steps that emit or assign, and the calls of other functions. *)
Ltac step_rel_done :=
  try lazymatch goal with |- StepRel _ => typeclasses eauto end.

Ltac kbind := apply keeps_bind; step_rel_done.

Ltac keeps_step :=
  lazymatch goal with
  | |- forall _, _ => intros ?
  | |- keeps _ (bind _ _) => apply keeps_bind
  | |- keeps _ (ret _) => apply keeps_ret
  | |- keeps _ (raise _) => apply keeps_raise
  | |- keeps _ (await _) => apply keeps_await
  | |- keeps _ get_vars => apply keeps_get_vars
  | |- keeps _ get_env => apply keeps_get_env
  | |- keeps _ (assert_ _ _) => apply keeps_assert_
  | |- keeps _ (try_except_else _ _ _) => apply keeps_try_except_else
  | |- keeps _ (finally _ _) => apply keeps_finally
  | |- keeps _ (emit _) => apply keeps_emit
  | |- keeps _ (modify_vars _) => apply keeps_modify_vars
  | |- keeps _ (modify_env _) => apply keeps_modify_env
  | |- keeps _ (match ?x with _ => _ end) => destruct x
  end; step_rel_done.

Lemma bind_assoc {A B C} (m : M A) (f : A -> M B) (g : B -> M C) s :
  bind (bind m f) g s = bind m (fun x => bind (f x) g) s.
Proof.
  unfold bind. destruct (m s) as [[[a | e] s1] l1]; [| reflexivity].
  destruct (f a s1) as [[[b | e] s2] l2]; [| reflexivity].
  destruct (g b s2) as [[r s3] l3]. rewrite app_assoc. reflexivity.
Qed.

(** ** What the exit stacks do *)

Lemma state_eta (s : state) : {| vars := vars s; env := env s |} = s.
Proof. destruct s; reflexivity. Qed.

Lemma set_lock_same (w : world) : set_lock (lock w) w = w.
Proof. destruct w; reflexivity. Qed.

(** Unwinding never raises: it runs every exit method, in order. *)
Lemma unwind_run (cbs : list exit_callback) (s : state) :
  unwind cbs s =
  (Return tt,
   {| vars := vars s; env := set_lock (unwind_lock cbs (lock (env s))) (env s) |},
   map exit_event cbs).
Proof.
  revert s. induction cbs as [| cb rest IH]; intros s; simpl.
  - unfold ret. rewrite set_lock_same, state_eta. reflexivity.
  - unfold bind at 1.
    destruct cb; simpl; unfold bind, emit, modify_env; simpl;
      rewrite IH; simpl; try rewrite state_eta; reflexivity.
Qed.

Lemma unwind_lock_quiet (cbs : list exit_callback) (l : MultiLock.t) :
  ~ In ExitLock cbs -> unwind_lock cbs l = l.
Proof.
  induction cbs as [| cb rest IH]; simpl; intros H; [reflexivity |].
  destruct cb; try (apply IH; tauto). exfalso; apply H; auto.
Qed.

Lemma unwind_lock_app (a b : list exit_callback) (l : MultiLock.t) :
  unwind_lock (a ++ b) l = unwind_lock b (unwind_lock a l).
Proof.
  revert l. induction a as [| cb rest IH]; intros l; simpl; [reflexivity |].
  destruct cb; apply IH.
Qed.

Lemma exit_events_quiet (cbs : list exit_callback) :
  ~ In ExitLock cbs -> List.filter lock_event (map exit_event cbs) = [].
Proof.
  induction cbs as [| cb rest IH]; simpl; intros H; [reflexivity |].
  destruct cb; simpl; try (apply IH; tauto). exfalso; apply H; auto.
Qed.

(** The block of an exit stack, run: the body starts on an empty stack; what
    it registered is unwound, whatever its outcome, which is kept. *)
Lemma AsyncExitStack_run {A} (v : stack_var) (body : M A) (s : state) :
  AsyncExitStack v body s =
  match body {| vars := set_stack v [] (vars s); env := env s |} with
  | (r, s1, l1) =>
      (r,
       {| vars := set_stack v [] (vars s1);
          env := set_lock (unwind_lock (get_stack v (vars s1)) (lock (env s1))) (env s1) |},
       l1 ++ map exit_event (get_stack v (vars s1)))
  end.
Proof.
  unfold AsyncExitStack, bind at 1, modify_vars at 1. simpl.
  unfold finally.
  destruct (body _) as [[r s1] l1].
  unfold bind, get_vars, modify_vars. rewrite unwind_run. simpl. reflexivity.
Qed.

(** The lock is a bag of indistinguishable entries: taking one out after
    putting one in gives the lock back. *)
Lemma units_snoc (l : list unit) : l ++ [tt] = tt :: l.
Proof.
  induction l as [| [] l IH]; simpl; [reflexivity |]. rewrite IH. reflexivity.
Qed.

Lemma MultiLock_exit_enter (l : MultiLock.t) :
  MultiLock.__exit__ (MultiLock.__enter__ l) = l.
Proof.
  destruct l as [[items n]].
  unfold MultiLock.__exit__, MultiLock.__enter__, Queue.put_nowait, Queue.get_nowait.
  simpl. rewrite units_snoc. reflexivity.
Qed.

Lemma enter_lock_run s :
  BaseHandler.enter_lock s =
  (Return tt,
   {| vars := set_stack v_stack (ExitLock :: stack (vars s)) (vars s);
      env := set_lock (MultiLock.__enter__ (lock (env s))) (env s) |},
   [LockEnter]).
Proof. reflexivity. Qed.

(** ** [consume] in terms of its block *)

Lemma consume_run (opt : bool) (self : BaseHandler.t) (msg : value) (w : world) :
  BaseHandler.consume opt self msg w =
  if running w then
    match BaseHandler.consume_block opt self msg (BaseHandler.initial_state w) with
    | (Return _, s1, l1) =>
        match log_context_tag (vars s1) with
        | Some tag =>
            (Return (result_msg (vars s1)), set_log_context tag (env s1),
             l1 ++ [ResetLocal "log_context"])
        | None => (Return (result_msg (vars s1)), env s1, l1)
        end
    | (Raise e, s1, l1) => (Raise e, env s1, l1)
    end
  else (Return VNone, w, []).
Proof.
  unfold BaseHandler.consume, BaseHandler.consume_body.
  unfold bind at 1, get_env at 1. simpl.
  destruct (running w); simpl; [| reflexivity].
  unfold bind at 1.
  destruct (BaseHandler.consume_block opt self msg (BaseHandler.initial_state w))
    as [[[u | e] s1] l1]; [| reflexivity].
  unfold bind at 1, get_vars at 1. simpl.
  destruct (log_context_tag (vars s1)); simpl.
  - reflexivity.
  - rewrite app_nil_r. reflexivity.
Qed.

(** ** The steps of an iteration, run *)

Lemma set_stack_twice v a b f : set_stack v a (set_stack v b f) = set_stack v a f.
Proof. destruct v, f; reflexivity. Qed.

Lemma get_set_stack v a f : get_stack v (set_stack v a f) = a.
Proof. destruct v; reflexivity. Qed.

Lemma set_decoded_body_same (m : StreamMessage.t) :
  StreamMessage.set_decoded_body m (StreamMessage.decoded_body m) = m.
Proof. destruct m; reflexivity. Qed.

Lemma set_decoded_body_twice (m : StreamMessage.t) a b :
  StreamMessage.set_decoded_body (StreamMessage.set_decoded_body m a) b =
  StreamMessage.set_decoded_body m b.
Proof. reflexivity. Qed.

Lemma enter_middlewares_run msg fs s :
  enter_ok (instantiate msg fs) ->
  BaseHandler.enter_middlewares msg fs s =
  (Return (instantiate msg fs),
   {| vars := set_stack v_stack
                (middleware_exits (instantiate msg fs) ++ stack (vars s)) (vars s);
      env := env s |},
   enter_events (instantiate msg fs)).
Proof.
  revert s. induction fs as [| m rest IH]; intros s Hok; simpl.
  - unfold ret. destruct s as [[] ?]; reflexivity.
  - inversion Hok as [| x xs Hm Hrest]; subst.
    unfold BaseHandler.enter_async_context.
    unfold bind at 1. unfold bind at 1. unfold emit at 1.
    unfold bind at 1. unfold await at 1. rewrite Hm.
    unfold bind at 1. unfold push at 1, modify_vars at 1. simpl.
    unfold bind at 1. rewrite IH by assumption. simpl.
    unfold middleware_exits. simpl. rewrite <- app_assoc. simpl.
    rewrite app_nil_r, set_stack_twice. reflexivity.
Qed.

Lemma enter_consume_scopes_run ms message s body :
  wrap_consume ms (StreamMessage.decoded_body message) = Return body ->
  BaseHandler.enter_consume_scopes ms message s =
  (Return (StreamMessage.set_decoded_body message body),
   {| vars := set_stack v_consume_stack
                (consume_scope_exits ms ++ consume_stack (vars s)) (vars s);
      env := env s |},
   consume_scope_events ms (StreamMessage.decoded_body message)).
Proof.
  revert message s. induction ms as [| m rest IH]; intros message s; simpl.
  - intros E; inversion E; subst. rewrite set_decoded_body_same.
    unfold ret. destruct s as [[] ?]; reflexivity.
  - destruct (BaseMiddleware.consume_scope m (StreamMessage.decoded_body message))
      as [b | e] eqn:Em; [| discriminate].
    intros Hw.
    unfold bind at 1. unfold emit at 1.
    unfold bind at 1. unfold await at 1.
    unfold bind at 1. unfold push at 1, modify_vars at 1.
    rewrite (IH (StreamMessage.set_decoded_body message b) _ Hw). simpl.
    unfold consume_scope_exits. simpl. rewrite <- app_assoc. simpl.
    rewrite set_stack_twice. reflexivity.
Qed.

Lemma enter_publish_scopes_run ms v s out :
  wrap_publish ms v = Return out ->
  BaseHandler.enter_publish_scopes ms v s =
  (Return out,
   {| vars := set_stack v_pub_stack
                (publish_scope_exits ms ++ pub_stack (vars s)) (vars s);
      env := env s |},
   publish_scope_events ms v).
Proof.
  revert v s. induction ms as [| m rest IH]; intros v s; simpl.
  - intros E; inversion E; subst.
    unfold ret. destruct s as [[] ?]; reflexivity.
  - destruct (BaseMiddleware.publish_scope m v) as [b | e] eqn:Em; [| discriminate].
    intros Hw.
    unfold bind at 1. unfold emit at 1.
    unfold bind at 1. unfold await at 1.
    unfold bind at 1. unfold push at 1, modify_vars at 1.
    rewrite (IH _ _ Hw). simpl.
    unfold publish_scope_exits. simpl. rewrite <- app_assoc. simpl.
    rewrite set_stack_twice. reflexivity.
Qed.

Lemma unwind_lock_consume_exits ms l : unwind_lock (consume_scope_exits ms) l = l.
Proof.
  apply unwind_lock_quiet. unfold consume_scope_exits.
  rewrite <- in_rev, in_map_iff. intros (m & E & _). discriminate.
Qed.

Lemma unwind_lock_publish_exits ms l : unwind_lock (publish_scope_exits ms) l = l.
Proof.
  apply unwind_lock_quiet. unfold publish_scope_exits.
  rewrite <- in_rev, in_map_iff. intros (m & E & _). discriminate.
Qed.

Lemma unwind_lock_middleware_exits ms l : unwind_lock (middleware_exits ms) l = l.
Proof.
  apply unwind_lock_quiet. unfold middleware_exits.
  rewrite <- in_rev, in_map_iff. intros (m & E & _). discriminate.
Qed.

(** The handler call: its scopes are entered, the callable runs, the scopes
    are left; the callable's outcome is the outcome of the block. *)
Lemma call_handler_run h ms message s body :
  wrap_consume ms (StreamMessage.decoded_body message) = Return body ->
  BaseHandler.call_handler h ms message s =
  match HandlerCallWrapper.call_wrapped (HandlerItem.handler h)
          (StreamMessage.set_decoded_body message body) with
  | Return r =>
      (Return r,
       {| vars := set_result r (set_stack v_consume_stack [] (vars s)); env := env s |},
       call_events h ms message body)
  | Raise e =>
      (Raise e,
       {| vars := set_stack v_consume_stack [] (vars s); env := env s |},
       call_events h ms message body)
  end.
Proof.
  intros Hw. unfold BaseHandler.call_handler. rewrite AsyncExitStack_run.
  unfold bind at 1. rewrite (enter_consume_scopes_run _ _ _ _ Hw).
  unfold bind at 1. unfold emit at 1.
  unfold bind at 1. unfold await at 1.
  destruct (HandlerCallWrapper.call_wrapped _ _) as [r | e]; simpl;
    rewrite app_nil_r, unwind_lock_consume_exits, set_lock_same;
    unfold call_events; simpl; rewrite <- app_assoc; simpl;
    destruct s as [[] ?]; reflexivity.
Qed.

Lemma publish_one_run ms message v p s out :
  wrap_publish ms v = Return out ->
  BaseHandler.publish_one ms message v p s =
  (PublisherProtocol.publish p out (StreamMessage.correlation_id message),
   {| vars := set_stack v_pub_stack [] (vars s); env := env s |},
   publish_events ms v out (StreamMessage.correlation_id message) p).
Proof.
  intros Hw. unfold BaseHandler.publish_one. rewrite AsyncExitStack_run.
  unfold bind at 1. rewrite (enter_publish_scopes_run _ _ _ _ Hw).
  unfold bind at 1. unfold emit at 1. unfold await. simpl.
  rewrite app_nil_r, unwind_lock_publish_exits, set_lock_same.
  unfold publish_events. simpl. rewrite <- app_assoc. simpl.
  destruct s as [[] ?]; reflexivity.
Qed.

Lemma targets_cons pr h ps :
  ps = HandlerCallWrapper._publishers (HandlerItem.handler h) ->
  forall ms message v s,
    BaseHandler.publish_all ms message v (pr :: map Some ps) s =
    BaseHandler.publish_all ms message v (map Some (targets pr h)) s.
Proof. intros ->. intros. unfold targets. destruct pr; reflexivity. Qed.

Lemma publish_all_run ms message v ps s out :
  wrap_publish ms v = Return out ->
  publish_ok out (StreamMessage.correlation_id message) ps ->
  BaseHandler.publish_all ms message v (map Some ps) s =
  (Return tt,
   {| vars := published ps (vars s); env := env s |},
   publish_all_events ms v out (StreamMessage.correlation_id message) ps).
Proof.
  intros Hw. revert s. induction ps as [| p rest IH]; intros s Hok; simpl.
  - unfold ret. rewrite state_eta. reflexivity.
  - inversion Hok as [| x xs Hp Hrest]; subst.
    unfold bind. rewrite (publish_one_run _ _ _ _ _ _ Hw), Hp, IH by assumption.
    simpl. unfold publish_all_events. simpl.
    destruct rest; simpl; rewrite ?set_stack_twice; reflexivity.
Qed.

(** The body of the [try] when the handler returns and every publisher
    accepts. *)
Lemma try_body_run_result h ms message s body res pr out :
  wrap_consume ms (StreamMessage.decoded_body message) = Return body ->
  HandlerCallWrapper.call_wrapped (HandlerItem.handler h)
    (StreamMessage.set_decoded_body message body) = Return (Some (res, pr)) ->
  wrap_publish ms res = Return out ->
  publish_ok out (StreamMessage.correlation_id message) (targets pr h) ->
  BaseHandler.try_body h ms message s =
  (Return tt,
   {| vars := published (targets pr h)
                (set_result_msg res
                   (set_result (Some (res, pr))
                      (set_stack v_consume_stack [] (vars s))));
      env := env s |},
   call_events h ms message body ++
   publish_all_events ms res out (StreamMessage.correlation_id message) (targets pr h)).
Proof.
  intros Hw Hc Hp Hok. unfold BaseHandler.try_body.
  unfold bind at 1. rewrite (call_handler_run _ _ _ _ _ Hw), Hc.
  unfold bind at 1. unfold modify_vars at 1.
  rewrite (targets_cons pr h _ eq_refl).
  rewrite (publish_all_run _ _ _ _ _ _ Hp Hok). simpl. reflexivity.
Qed.

Lemma try_body_run_none h ms message s body :
  wrap_consume ms (StreamMessage.decoded_body message) = Return body ->
  HandlerCallWrapper.call_wrapped (HandlerItem.handler h)
    (StreamMessage.set_decoded_body message body) = Return None ->
  BaseHandler.try_body h ms message s =
  (Return tt,
   {| vars := set_result None (set_stack v_consume_stack [] (vars s)); env := env s |},
   call_events h ms message body).
Proof.
  intros Hw Hc. unfold BaseHandler.try_body.
  unfold bind at 1. rewrite (call_handler_run _ _ _ _ _ Hw), Hc.
  unfold ret. rewrite app_nil_r. reflexivity.
Qed.

Lemma try_body_run_raise h ms message s body e :
  wrap_consume ms (StreamMessage.decoded_body message) = Return body ->
  HandlerCallWrapper.call_wrapped (HandlerItem.handler h)
    (StreamMessage.set_decoded_body message body) = Raise e ->
  BaseHandler.try_body h ms message s =
  (Raise e,
   {| vars := set_stack v_consume_stack [] (vars s); env := env s |},
   call_events h ms message body).
Proof.
  intros Hw Hc. unfold BaseHandler.try_body.
  unfold bind at 1. rewrite (call_handler_run _ _ _ _ _ Hw), Hc. reflexivity.
Qed.

Lemma close_run self s :
  BaseHandler.close self s =
  (Return tt, {| vars := vars s; env := set_running false (env s) |},
   close_events self).
Proof.
  unfold BaseHandler.close, BaseHandler.wait_release, close_events.
  destruct (BaseHandler.graceful_timeout self) as [[| n] |]; reflexivity.
Qed.

(** The [try] statement on each of its paths. *)
Lemma process_run_result opt self h ms message s body res pr out :
  wrap_consume ms (StreamMessage.decoded_body message) = Return body ->
  HandlerCallWrapper.call_wrapped (HandlerItem.handler h)
    (StreamMessage.set_decoded_body message body) = Return (Some (res, pr)) ->
  wrap_publish ms res = Return out ->
  publish_ok out (StreamMessage.correlation_id message) (targets pr h) ->
  BaseHandler.process opt self h ms message s =
  (Return opt,
   {| vars := set_processed true
                (published (targets pr h)
                   (set_result_msg res
                      (set_result (Some (res, pr))
                         (set_stack v_consume_stack [] (vars s)))));
      env := env s |},
   (call_events h ms message body ++
    publish_all_events ms res out (StreamMessage.correlation_id message) (targets pr h)) ++
   [Trigger (HandlerItem.call_name h) (Some res) None]).
Proof.
  intros Hw Hc Hp Hok. unfold BaseHandler.process, try_except_else.
  rewrite (try_body_run_result _ _ _ _ _ _ _ _ Hw Hc Hp Hok).
  unfold bind, get_vars, BaseHandler.trigger, emit, modify_vars, ret. simpl.
  destruct (targets pr h); reflexivity.
Qed.

Lemma process_run_none opt self h ms message s body :
  wrap_consume ms (StreamMessage.decoded_body message) = Return body ->
  HandlerCallWrapper.call_wrapped (HandlerItem.handler h)
    (StreamMessage.set_decoded_body message body) = Return None ->
  BaseHandler.process opt self h ms message s =
  (Return opt,
   {| vars := set_processed true
                (set_result None (set_stack v_consume_stack [] (vars s)));
      env := env s |},
   call_events h ms message body ++
   [Trigger (HandlerItem.call_name h) (Some VNone) None]).
Proof.
  intros Hw Hc. unfold BaseHandler.process, try_except_else.
  rewrite (try_body_run_none _ _ _ _ _ Hw Hc).
  unfold bind, get_vars, BaseHandler.trigger, emit, modify_vars, ret. simpl.
  reflexivity.
Qed.

Lemma process_run_stop opt self h ms message s body :
  wrap_consume ms (StreamMessage.decoded_body message) = Return body ->
  HandlerCallWrapper.call_wrapped (HandlerItem.handler h)
    (StreamMessage.set_decoded_body message body) = Raise StopConsume ->
  BaseHandler.process opt self h ms message s =
  (Return false,
   {| vars := set_stack v_consume_stack [] (vars s);
      env := set_running false (env s) |},
   call_events h ms message body ++
   close_events self ++ [Trigger (HandlerItem.call_name h) None None]).
Proof.
  intros Hw Hc. unfold BaseHandler.process, try_except_else.
  rewrite (try_body_run_raise _ _ _ _ _ _ Hw Hc).
  unfold bind. rewrite close_run.
  unfold BaseHandler.trigger, emit, ret. simpl. rewrite ?app_nil_r. reflexivity.
Qed.

Lemma process_run_raise opt self h ms message s body e :
  wrap_consume ms (StreamMessage.decoded_body message) = Return body ->
  HandlerCallWrapper.call_wrapped (HandlerItem.handler h)
    (StreamMessage.set_decoded_body message body) = Raise e ->
  e <> StopConsume ->
  BaseHandler.process opt self h ms message s =
  (Raise e,
   {| vars := set_stack v_consume_stack [] (vars s); env := env s |},
   call_events h ms message body ++
   [Trigger (HandlerItem.call_name h) None (error_arg e)]).
Proof.
  intros Hw Hc Hne. unfold BaseHandler.process, try_except_else.
  rewrite (try_body_run_raise _ _ _ _ _ _ Hw Hc).
  destruct e; try congruence;
    unfold bind, BaseHandler.trigger, emit, raise; simpl; reflexivity.
Qed.

(** Lines 218-239 when the middlewares, the parser, the decoder and the
    filter all return. *)
Lemma prepare_run self msg gl h s m0 body accepted :
  enter_ok (instantiate msg (HandlerItem.middlewares h)) ->
  HandlerItem.parser h msg = Return m0 ->
  logged (vars s) = false ->
  HandlerItem.decoder h m0 = Return body ->
  HandlerItem.filter h (filtered_message m0 body (processed (vars s))) =
    Return accepted ->
  BaseHandler.prepare self msg gl h s =
  ((if accepted then
      if processed (vars s) then
        Raise (AssertionError "You can't process a message with multiple consumers")
      else
        Return (Some (gl ++ instantiate msg (HandlerItem.middlewares h),
                      filtered_message m0 body false))
    else Return None),
   prepared self msg h m0 s,
   prepare_events self msg h m0 body (processed (vars s)) accepted).
Proof.
  intros Hok Hp Hl Hd Hf. unfold BaseHandler.prepare.
  unfold bind at 1. rewrite (enter_middlewares_run _ _ _ Hok).
  unfold bind at 1. unfold emit at 1.
  unfold bind at 1. unfold await at 1. rewrite Hp.
  unfold bind at 1. unfold get_vars at 1. simpl. rewrite Hl. simpl.
  unfold bind at 1. unfold bind at 1. unfold context.set_local.
  unfold bind at 1. unfold get_env at 1.
  unfold bind at 1. unfold emit at 1.
  unfold bind at 1. unfold modify_env at 1.
  unfold ret at 1. unfold modify_vars at 1.
  unfold bind at 1. unfold emit at 1.
  unfold bind at 1. unfold await at 1. rewrite Hd.
  unfold bind at 1. unfold get_vars at 1. simpl.
  unfold bind at 1. unfold await at 1. unfold filtered_message in Hf. rewrite Hf.
  unfold bind at 1. unfold emit at 1.
  unfold prepare_events, prepared, filtered_message.
  destruct accepted; simpl.
  - destruct (processed (vars s)); simpl;
      unfold bind, assert_, ret, raise; simpl;
      rewrite <- ?app_assoc; simpl; reflexivity.
  - unfold ret. rewrite <- ?app_assoc. reflexivity.
Qed.

(** ** [consume] in terms of the scan of its items *)

Lemma consume_block_run opt self msg w :
  BaseHandler.consume_block opt self msg (BaseHandler.initial_state w) =
  match BaseHandler.consume_scan opt self msg (BaseHandler.calls self)
          (BaseHandler.initial_state w) with
  | (Return _, s1, l1) =>
      (if negb (running (env s1)) || processed (vars s1)
       then Return tt else Raise must_consume,
       {| vars := set_stack v_stack [] (vars s1); env := unwound s1 |},
       l1 ++ unwind_events s1)
  | (Raise e, s1, l1) =>
      (Raise e,
       {| vars := set_stack v_stack [] (vars s1); env := unwound s1 |},
       l1 ++ unwind_events s1)
  end.
Proof.
  unfold BaseHandler.consume_block. rewrite AsyncExitStack_run.
  change {| vars := set_stack v_stack [] (vars (BaseHandler.initial_state w));
            env := env (BaseHandler.initial_state w) |}
    with (BaseHandler.initial_state w).
  unfold bind at 1.
  destruct (BaseHandler.consume_scan _ _ _ _ _) as [[[b | e] s1] l1]; [| reflexivity].
  unfold bind, get_env, get_vars, assert_. simpl.
  destruct (negb (running (env s1)) || processed (vars s1)); simpl;
    rewrite app_nil_r; reflexivity.
Qed.

Lemma consume_run_scan opt self msg w :
  BaseHandler.consume opt self msg w =
  if running w then
    match BaseHandler.consume_scan opt self msg (BaseHandler.calls self)
            (BaseHandler.initial_state w) with
    | (Return _, s1, l1) =>
        if negb (running (env s1)) || processed (vars s1) then
          match log_context_tag (vars s1) with
          | Some tag =>
              (Return (result_msg (vars s1)), set_log_context tag (unwound s1),
               (l1 ++ unwind_events s1) ++ [ResetLocal "log_context"])
          | None => (Return (result_msg (vars s1)), unwound s1, l1 ++ unwind_events s1)
          end
        else (Raise must_consume, unwound s1, l1 ++ unwind_events s1)
    | (Raise e, s1, l1) => (Raise e, unwound s1, l1 ++ unwind_events s1)
    end
  else (Return VNone, w, []).
Proof.
  rewrite consume_run. destruct (running w); [| reflexivity].
  rewrite consume_block_run.
  destruct (BaseHandler.consume_scan _ _ _ _ _) as [[[b | e] s1] l1]; [| reflexivity].
  destruct (negb (running (env s1)) || processed (vars s1)); reflexivity.
Qed.

(** The entry of the call when every global middleware can be entered. *)
Lemma enter_call_run self msg s :
  enter_ok (instantiate msg (BaseHandler.middlewares self)) ->
  BaseHandler.enter_call self msg s =
  (Return (instantiate msg (BaseHandler.middlewares self)),
   {| vars := set_stack v_stack
                (middleware_exits (instantiate msg (BaseHandler.middlewares self)) ++
                 ExitScope "handler_" :: ExitLock :: stack (vars s))
                (vars s);
      env := set_lock (MultiLock.__enter__ (lock (env s))) (env s) |},
   LockEnter :: ScopeEnter "handler_" ::
   enter_events (instantiate msg (BaseHandler.middlewares self))).
Proof.
  intros Hok. unfold BaseHandler.enter_call.
  unfold bind at 1. rewrite enter_lock_run.
  unfold bind at 1. unfold BaseHandler.enter_scope at 1.
  unfold bind at 1. unfold emit at 1. unfold push at 1, modify_vars at 1.
  rewrite (enter_middlewares_run _ _ _ Hok). simpl.
  rewrite set_stack_twice. reflexivity.
Qed.

(** ** C3: the lock is given back *)

#[export] Instance lock_quiet_step : StepRel lock_quiet.
Proof.
  split.
  - intros s Hc Hp. repeat split; auto. exists []. auto.
  - intros s1 s2 s3 l1 l2 H12 H23 Hc Hp.
    destruct (H12 Hc Hp) as (Hc2 & Hp2 & Hl2 & (k1 & Hk1 & Hn1) & He1).
    destruct (H23 Hc2 Hp2) as (Hc3 & Hp3 & Hl3 & (k2 & Hk2 & Hn2) & He2).
    repeat split; auto.
    + congruence.
    + exists (k2 ++ k1). rewrite Hk2, Hk1, app_assoc. split; [reflexivity |].
      rewrite in_app_iff. tauto.
    + rewrite List.filter_app, He1, He2. reflexivity.
Qed.

(** Closes the goals left by [keeps_step] for [lock_quiet]: one emitted event
    that is not of the lock, or one assignment that is not to the lock. *)
Ltac lock_quiet_prim :=
  unfold lock_quiet; simpl; intros;
  repeat match goal with |- _ /\ _ => split end;
  auto;
  try (exists []; split; [reflexivity | simpl; tauto]).

Lemma lock_quiet_push (v : stack_var) (cb : exit_callback) :
  cb <> ExitLock -> keeps lock_quiet (push v cb).
Proof.
  intros Hcb. unfold push. apply keeps_modify_vars; step_rel_done. intros s Hc Hp.
  destruct v; simpl; repeat split; auto;
    try (intros [E | E]; [congruence | tauto]);
    try (exists []; split; [reflexivity | simpl; tauto]).
  exists [cb]. split; [reflexivity |]. simpl. intros [E | []]. congruence.
Qed.

Lemma lock_quiet_inner_stack {A} (v : stack_var) (body : M A) :
  v <> v_stack -> keeps lock_quiet body -> keeps lock_quiet (AsyncExitStack v body).
Proof.
  intros Hv Hb s r s' l E Hc Hp. rewrite AsyncExitStack_run in E.
  destruct (body _) as [[r1 s1] l1] eqn:E1. inversion E; subst; clear E.
  apply Hb in E1.
  destruct v; try congruence; simpl in *.
  - destruct E1 as (Hc1 & Hp1 & Hl1 & (k & Hk & Hn) & He); auto.
    rewrite unwind_lock_quiet by assumption. simpl.
    repeat split; auto.
    + exists k. auto.
    + rewrite List.filter_app, He, exit_events_quiet by assumption. reflexivity.
  - destruct E1 as (Hc1 & Hp1 & Hl1 & (k & Hk & Hn) & He); auto.
    rewrite unwind_lock_quiet by assumption. simpl.
    repeat split; auto.
    + exists k. auto.
    + rewrite List.filter_app, He, exit_events_quiet by assumption. reflexivity.
Qed.

Ltac lock_quiet_auto :=
  repeat first
    [ apply lock_quiet_push; discriminate
    | apply lock_quiet_inner_stack; [discriminate | ]
    | keeps_step ];
  try lock_quiet_prim.

Lemma lock_quiet_enter_middlewares msg ms :
  keeps lock_quiet (BaseHandler.enter_middlewares msg ms).
Proof.
  induction ms as [| m rest IH]; simpl.
  - lock_quiet_auto.
  - unfold BaseHandler.enter_async_context.
    kbind; [lock_quiet_auto | intros x].
    kbind; [exact IH | intros xs]. lock_quiet_auto.
Qed.

Lemma lock_quiet_enter_consume_scopes ms message :
  keeps lock_quiet (BaseHandler.enter_consume_scopes ms message).
Proof.
  revert message. induction ms as [| m rest IH]; intros message; simpl.
  - lock_quiet_auto.
  - do 3 (kbind; [lock_quiet_auto | intros ?]). apply IH.
Qed.

Lemma lock_quiet_enter_publish_scopes ms v :
  keeps lock_quiet (BaseHandler.enter_publish_scopes ms v).
Proof.
  revert v. induction ms as [| m rest IH]; intros v; simpl.
  - lock_quiet_auto.
  - do 3 (kbind; [lock_quiet_auto | intros ?]). apply IH.
Qed.

Lemma lock_quiet_publish_all ms message v pubs :
  keeps lock_quiet (BaseHandler.publish_all ms message v pubs).
Proof.
  induction pubs as [| [p |] rest IH]; simpl.
  - lock_quiet_auto.
  - kbind; [| intros ?; exact IH].
    unfold BaseHandler.publish_one.
    apply lock_quiet_inner_stack; [discriminate |].
    kbind; [apply lock_quiet_enter_publish_scopes | intros ?].
    lock_quiet_auto.
  - exact IH.
Qed.

Lemma lock_quiet_try_body h ms message :
  keeps lock_quiet (BaseHandler.try_body h ms message).
Proof.
  unfold BaseHandler.try_body, BaseHandler.call_handler.
  kbind.
  - apply lock_quiet_inner_stack; [discriminate |].
    kbind; [apply lock_quiet_enter_consume_scopes | intros ?].
    lock_quiet_auto.
  - intros [[v p] |]; [| lock_quiet_auto].
    kbind; [lock_quiet_auto | intros ?].
    apply lock_quiet_publish_all.
Qed.

Lemma lock_quiet_close self : keeps lock_quiet (BaseHandler.close self).
Proof.
  unfold BaseHandler.close, BaseHandler.wait_release.
  destruct (BaseHandler.graceful_timeout self) as [[| n] |]; lock_quiet_auto.
Qed.

Lemma lock_quiet_process opt self h ms message :
  keeps lock_quiet (BaseHandler.process opt self h ms message).
Proof.
  unfold BaseHandler.process, BaseHandler.trigger.
  apply keeps_try_except_else; step_rel_done.
  - apply lock_quiet_try_body.
  - intros [| d | m | d]; try solve [lock_quiet_auto].
    kbind; [apply lock_quiet_close | intros ?]. lock_quiet_auto.
  - intros ?. lock_quiet_auto.
Qed.

Lemma lock_quiet_prepare self msg gl h :
  keeps lock_quiet (BaseHandler.prepare self msg gl h).
Proof.
  unfold BaseHandler.prepare, context.set_local.
  kbind; [apply lock_quiet_enter_middlewares | intros ?].
  lock_quiet_auto.
Qed.

Lemma lock_quiet_consume_loop opt self msg gl hs :
  keeps lock_quiet (BaseHandler.consume_loop opt self msg gl hs).
Proof.
  induction hs as [| h rest IH]; simpl.
  - lock_quiet_auto.
  - kbind.
    + unfold BaseHandler.consume_call.
      kbind; [apply lock_quiet_prepare | intros [[ms m] |]].
      * apply lock_quiet_process.
      * lock_quiet_auto.
    + intros [|]; [lock_quiet_auto | exact IH].
Qed.

(** After the lock is entered, the rest of the block leaves it alone. *)
Lemma lock_quiet_after_enter opt self msg :
  keeps lock_quiet
    (gl <- (BaseHandler.enter_scope "handler_" ;;
            BaseHandler.enter_middlewares msg (BaseHandler.middlewares self)) ;;
     BaseHandler.consume_loop opt self msg gl (BaseHandler.calls self) ;;
     w <- get_env ;;
     f <- get_vars ;;
     assert_ (negb (running w) || processed f) "You have to consume message").
Proof.
  unfold BaseHandler.enter_scope.
  kbind; [kbind; [lock_quiet_auto | intros ?; apply lock_quiet_enter_middlewares] | intros gl].
  kbind; [apply lock_quiet_consume_loop | intros ?].
  lock_quiet_auto.
Qed.

(** The block of the call, as the entry of the lock followed by the rest. *)
Lemma consume_block_body_split opt self msg (k : M unit) s :
  (BaseHandler.consume_scan opt self msg (BaseHandler.calls self) ;; k) s =
  (BaseHandler.enter_lock ;;
   gl <- (BaseHandler.enter_scope "handler_" ;;
          BaseHandler.enter_middlewares msg (BaseHandler.middlewares self)) ;;
   BaseHandler.consume_loop opt self msg gl (BaseHandler.calls self) ;;
   k) s.
Proof.
  unfold BaseHandler.consume_scan, BaseHandler.enter_call.
  rewrite !bind_assoc. reflexivity.
Qed.

Lemma consume_block_lock opt self msg s r s' l :
  BaseHandler.consume_block opt self msg s = (r, s', l) ->
  ~ In ExitLock (consume_stack (vars s)) ->
  ~ In ExitLock (pub_stack (vars s)) ->
  lock (env s') = lock (env s) /\
  count_events is_LockEnter l = 1 /\ count_events is_LockExit l = 1.
Proof.
  unfold BaseHandler.consume_block. rewrite AsyncExitStack_run.
  rewrite consume_block_body_split.
  erewrite bind_return by apply enter_lock_run.
  match goal with |- context [bind ?m ?f ?s0] => destruct (bind m f s0) as [[r1 s1] l1] eqn:E1 end.
  intros E Hc Hp. inversion E; subst; clear E.
  apply lock_quiet_after_enter in E1.
  destruct E1 as (_ & _ & Hl & (k & Hk & Hn) & He); [assumption | assumption |].
  simpl in Hk, Hl. simpl.
  rewrite Hk, unwind_lock_app, (unwind_lock_quiet k) by assumption. simpl.
  rewrite Hl, MultiLock_exit_enter. split; [reflexivity |].
  unfold count_events. simpl. rewrite map_app, !List.filter_app. simpl.
  assert (Hq : forall x, List.filter lock_event x = [] ->
             List.filter is_LockEnter x = [] /\ List.filter is_LockExit x = []).
  { clear. induction x as [| e x IH]; simpl; [auto |].
    unfold lock_event at 1. destruct e; simpl; try discriminate; auto. }
  destruct (Hq _ He) as [He1 He2].
  destruct (Hq _ (exit_events_quiet k Hn)) as [Hx1 Hx2].
  rewrite He1, He2, Hx1, Hx2. split; reflexivity.
Qed.

(** C3. Whatever the outcome of [consume] (a returned value, a controlled
    stop, a declared handler error or any other exception raised to the
    caller), the lock after the call is the lock before it, so its in-flight
    count is unchanged, and the call entered the lock exactly as often as it
    left it. *)
Theorem consume_lock_no_leak :
  forall (opt : bool) (self : BaseHandler.t) (msg : value) (w : world),
    let run := BaseHandler.consume opt self msg w in
    lock (world_after run) = lock w /\
    MultiLock.qsize (lock (world_after run)) = MultiLock.qsize (lock w) /\
    count_events is_LockEnter (events_of run) =
    count_events is_LockExit (events_of run).
Proof.
  intros opt self msg w run.
  assert (H : lock (world_after run) = lock w /\
              count_events is_LockEnter (events_of run) =
              count_events is_LockExit (events_of run)).
  { subst run. rewrite consume_run.
    destruct (running w); [| auto].
    destruct (BaseHandler.consume_block opt self msg (BaseHandler.initial_state w))
      as [[[u | e] s1] l1] eqn:E1;
      apply consume_block_lock in E1; simpl; auto;
      destruct E1 as (Hl & Hin & Hout).
    - destruct (log_context_tag (vars s1));
        unfold world_after, events_of, count_events in *; simpl.
      + rewrite !List.filter_app, !length_app. simpl. split; [assumption | lia].
      + split; [assumption | lia].
    - unfold world_after, events_of. simpl. split; [assumption | lia]. }
  destruct H as [H1 H2]. rewrite H1. auto.
Qed.

(** ** Relations the loop keeps *)

(** A relation kept by the few kinds of steps an iteration is made of is kept
    by the iteration and by the loop. *)
Section LoopKeeps.
Variable R : state -> state -> list event -> Prop.
Context `{StepRel R}.

Hypothesis R_emit : forall e, plain_event e = true -> keeps R (emit e).
Hypothesis R_filtered : forall n m accepted, keeps R (emit (Filtered n m accepted)).
Hypothesis R_push : forall v cb, cb <> ExitLock -> keeps R (push v cb).
Hypothesis R_inner : forall A v (body : M A),
  v <> v_stack -> keeps R body -> keeps R (AsyncExitStack v body).
Hypothesis R_result : forall r, keeps R (modify_vars (set_result r)).
Hypothesis R_result_msg : forall v, keeps R (modify_vars (set_result_msg v)).
Hypothesis R_set_local : forall k v,
  keeps R (tag <- context.set_local k v ;;
           modify_vars (set_log_context_tag (Some tag))).

Ltac loop_step :=
  first
  [ apply R_emit; reflexivity
  | apply R_filtered
  | apply R_push; discriminate
  | apply R_inner; [discriminate | ]
  | apply R_result
  | apply R_result_msg
  | apply R_set_local
  | keeps_step ].

Lemma loop_keeps_enter_middlewares msg ms :
  keeps R (BaseHandler.enter_middlewares msg ms).
Proof.
  induction ms as [| m rest IH]; simpl.
  - repeat loop_step.
  - unfold BaseHandler.enter_async_context.
    kbind; [repeat loop_step | intros x].
    kbind; [exact IH | intros xs]. repeat loop_step.
Qed.

Lemma loop_keeps_enter_consume_scopes ms message :
  keeps R (BaseHandler.enter_consume_scopes ms message).
Proof.
  revert message. induction ms as [| m rest IH]; intros message; simpl.
  - repeat loop_step.
  - do 3 (kbind; [repeat loop_step | intros ?]). apply IH.
Qed.

Lemma loop_keeps_enter_publish_scopes ms v :
  keeps R (BaseHandler.enter_publish_scopes ms v).
Proof.
  revert v. induction ms as [| m rest IH]; intros v; simpl.
  - repeat loop_step.
  - do 3 (kbind; [repeat loop_step | intros ?]). apply IH.
Qed.

Lemma loop_keeps_publish_all ms message v pubs :
  keeps R (BaseHandler.publish_all ms message v pubs).
Proof.
  induction pubs as [| [p |] rest IH]; simpl.
  - repeat loop_step.
  - kbind; [| intros ?; exact IH].
    unfold BaseHandler.publish_one.
    apply R_inner; [discriminate |].
    kbind; [apply loop_keeps_enter_publish_scopes | intros ?].
    repeat loop_step.
  - exact IH.
Qed.

Lemma loop_keeps_try_body h ms message :
  keeps R (BaseHandler.try_body h ms message).
Proof.
  unfold BaseHandler.try_body, BaseHandler.call_handler.
  kbind.
  - apply R_inner; [discriminate |].
    kbind; [apply loop_keeps_enter_consume_scopes | intros ?].
    repeat loop_step.
  - intros [[v p] |]; [| repeat loop_step].
    kbind; [repeat loop_step | intros ?].
    apply loop_keeps_publish_all.
Qed.

Lemma loop_keeps_prepare self msg gl h :
  keeps R (BaseHandler.prepare self msg gl h).
Proof.
  unfold BaseHandler.prepare.
  kbind; [apply loop_keeps_enter_middlewares | intros ?].
  do 3 (kbind; [repeat loop_step | intros ?]).
  kbind; [destruct (negb _); repeat loop_step | intros ?].
  repeat loop_step.
Qed.

(** The [try] statement, from its four exits. *)
Lemma loop_keeps_process opt self h ms message :
  keeps R (BaseHandler.close self) ->
  (forall e, keeps R (BaseHandler.trigger h None e)) ->
  keeps R (f <- get_vars ;;
           BaseHandler.trigger h
             (Some match result f with Some r => fst r | None => VNone end) None ;;
           modify_vars (set_processed true) ;;
           ret opt) ->
  keeps R (BaseHandler.process opt self h ms message).
Proof.
  intros Hclose Htrig Hdone. unfold BaseHandler.process.
  apply keeps_try_except_else; step_rel_done.
  - apply loop_keeps_try_body.
  - intros [| d | m | d]; (kbind; [| intros ?]);
      try apply Hclose; try apply Htrig; repeat loop_step.
    apply Htrig.
  - intros ?. exact Hdone.
Qed.

Section Loop.
Variables (opt : bool) (self : BaseHandler.t) (msg : value).
Variable gl : list BaseMiddleware.t.
Hypothesis R_call : forall h, keeps R (BaseHandler.consume_call opt self msg gl h).

Lemma loop_keeps_consume_loop hs :
  keeps R (BaseHandler.consume_loop opt self msg gl hs).
Proof.
  induction hs as [| h rest IH]; simpl.
  - repeat loop_step.
  - kbind; [apply R_call | intros [|]; [repeat loop_step | exact IH]].
Qed.
End Loop.

Lemma loop_keeps_consume_call opt self msg gl h :
  (forall ms message, keeps R (BaseHandler.process opt self h ms message)) ->
  keeps R (BaseHandler.consume_call opt self msg gl h).
Proof.
  intros Hp. unfold BaseHandler.consume_call.
  kbind; [apply loop_keeps_prepare | intros [[ms m] |]].
  - apply Hp.
  - repeat loop_step.
Qed.
End LoopKeeps.

(** ** Selecting events of one kind from a trace *)

Section Filters.
Variable p : event -> bool.

Lemma filter_enter_events ms :
  (forall n, p (MiddlewareEnter n) = false) ->
  List.filter p (enter_events ms) = [].
Proof.
  intros Hp. unfold enter_events.
  induction ms as [| m rest IH]; simpl; [reflexivity |]. rewrite Hp. exact IH.
Qed.

Lemma filter_exit_events cbs :
  (forall cb, p (exit_event cb) = false) ->
  List.filter p (map exit_event cbs) = [].
Proof.
  intros Hp. induction cbs as [| cb rest IH]; simpl; [reflexivity |].
  rewrite Hp. exact IH.
Qed.

Lemma filter_consume_scope_events ms body :
  (forall n v, p (ConsumeScopeEnter n v) = false) ->
  List.filter p (consume_scope_events ms body) = [].
Proof.
  intros Hp. revert body. induction ms as [| m rest IH]; intros body; simpl;
  [reflexivity |].
  rewrite Hp. destruct (BaseMiddleware.consume_scope m body); [apply IH | reflexivity].
Qed.

Lemma filter_publish_scope_events ms v :
  (forall n x, p (PublishScopeEnter n x) = false) ->
  List.filter p (publish_scope_events ms v) = [].
Proof.
  intros Hp. revert v. induction ms as [| m rest IH]; intros v; simpl;
  [reflexivity |].
  rewrite Hp. destruct (BaseMiddleware.publish_scope m v); [apply IH | reflexivity].
Qed.

Hypothesis p_enter : forall n, p (MiddlewareEnter n) = false.
Hypothesis p_exit : forall cb, p (exit_event cb) = false.
Hypothesis p_consume_scope : forall n v, p (ConsumeScopeEnter n v) = false.
Hypothesis p_publish_scope : forall n x, p (PublishScopeEnter n x) = false.

Lemma filter_call_events h ms message body :
  List.filter p (call_events h ms message body) =
  List.filter p
  [Call (HandlerItem.call_name h) (StreamMessage.set_decoded_body message body)].
Proof.
  unfold call_events. rewrite !List.filter_app.
  rewrite filter_consume_scope_events, filter_exit_events by assumption.
  rewrite app_nil_r. reflexivity.
Qed.

Lemma filter_publish_all_events ms v out cid ps :
  List.filter p (publish_all_events ms v out cid ps) =
  List.filter p (map (fun q => Publish (PublisherProtocol.name q) out cid) ps).
Proof.
  unfold publish_all_events.
  induction ps as [| q rest IH]; simpl; [reflexivity |].
  rewrite List.filter_app, IH. unfold publish_events at 1.
  rewrite !List.filter_app.
  rewrite filter_publish_scope_events, filter_exit_events by assumption.
  simpl. destruct (p (Publish _ _ _)); reflexivity.
Qed.

Lemma filter_prepare_events self msg h m0 body done accepted :
  List.filter p (prepare_events self msg h m0 body done accepted) =
  List.filter p
  [Parse (HandlerItem.call_name h);
   SetLocal "log_context" (BaseHandler.log_context_builder self m0);
   Decode (HandlerItem.call_name h);
   Filtered (HandlerItem.call_name h) (filtered_message m0 body done) accepted].
Proof.
  unfold prepare_events. rewrite List.filter_app.
  rewrite filter_enter_events by assumption. reflexivity.
Qed.
End Filters.

(** The hypotheses of the section above, for the selections used below. *)
Ltac kind_of_event :=
  first [ intros []; reflexivity | intros ? ?; reflexivity | intros ?; reflexivity ].

(** ** C2: a running dispatcher must consume the message *)

(** C2. After the loop over the handler items (lines 207-292) has run to its
    end, if the dispatcher is still running and no item has processed the
    message, [consume] raises the assertion of line 294.  In particular a
    running dispatcher with no registered item raises it on any message, once
    its global middlewares are entered. *)
Theorem consume_unprocessed_asserts :
  forall (opt : bool) (self : BaseHandler.t) (msg : value) (w : world),
    running w = true ->
    (forall b s1 l1,
        BaseHandler.consume_scan opt self msg (BaseHandler.calls self)
          (BaseHandler.initial_state w) = (Return b, s1, l1) ->
        running (env s1) = true ->
        processed (vars s1) = false ->
        BaseHandler.consume opt self msg w =
        (Raise must_consume, unwound s1, l1 ++ unwind_events s1))
    /\
    (BaseHandler.calls self = [] ->
     enter_ok (instantiate msg (BaseHandler.middlewares self)) ->
     BaseHandler.consume opt self msg w =
     (Raise must_consume, w,
      (LockEnter :: ScopeEnter "handler_" ::
       enter_events (instantiate msg (BaseHandler.middlewares self))) ++
      map exit_event (middleware_exits (instantiate msg (BaseHandler.middlewares self))) ++
      [ScopeExit "handler_"; LockExit])).
Proof.
  intros opt self msg w Hrun. split.
  - intros b s1 l1 Hscan Hr Hp.
    rewrite consume_run_scan, Hrun, Hscan, Hr, Hp. reflexivity.
  - intros Hcalls Hok.
    rewrite consume_run_scan, Hrun, Hcalls.
    unfold BaseHandler.consume_scan. unfold bind.
    rewrite (enter_call_run _ _ _ Hok). simpl. rewrite Hrun. simpl.
    unfold unwound, unwind_events. simpl.
    rewrite unwind_lock_app, unwind_lock_middleware_exits. simpl.
    rewrite MultiLock_exit_enter, map_app, app_nil_r. simpl.
    destruct w; reflexivity.
Qed.

Lemma consume_unprocessed_asserts_witness :
  outcome_of (BaseHandler.consume false Sample.deaf Sample.hello Sample.started) =
    Raise must_consume /\
  outcome_of (BaseHandler.consume false Sample.nobody Sample.hello Sample.started) =
    Raise must_consume.
Proof.
  destruct (consume_unprocessed_asserts false Sample.deaf Sample.hello
              Sample.started eq_refl) as [Hdeaf _].
  destruct (consume_unprocessed_asserts false Sample.nobody Sample.hello
              Sample.started eq_refl) as [_ Hnobody].
  split.
  - erewrite Hdeaf; [reflexivity | reflexivity | reflexivity | reflexivity].
  - rewrite Hnobody; [reflexivity | reflexivity |].
    repeat constructor.
Defined.

(** ** C10: the log context is not reset when the call raises *)

Lemma last_set_app a b c : last_set (a ++ b) c = last_set b (last_set a c).
Proof. unfold last_set. apply fold_left_app. Qed.

#[export] Instance log_kept_step : StepRel log_kept.
Proof.
  split.
  - intros s. split; reflexivity.
  - intros s1 s2 s3 l1 l2 [F1 E1] [F2 E2]. split.
    + rewrite List.filter_app, F1, F2. reflexivity.
    + rewrite last_set_app, <- E1. exact E2.
Qed.

Lemma last_set_exits cbs c : last_set (map exit_event cbs) c = c.
Proof.
  induction cbs as [| cb rest IH]; simpl; [reflexivity |].
  destruct cb; exact IH.
Qed.

Lemma no_reset_exits cbs : List.filter is_ResetLocal (map exit_event cbs) = [].
Proof.
  induction cbs as [| cb rest IH]; simpl; [reflexivity |].
  destruct cb; exact IH.
Qed.

Lemma log_kept_stack {A} v (body : M A) :
  keeps log_kept body -> keeps log_kept (AsyncExitStack v body).
Proof.
  intros Hb s r s' l E. rewrite AsyncExitStack_run in E.
  destruct (body _) as [[r1 s1] l1] eqn:E1. inversion E; subst; clear E.
  apply Hb in E1. destruct E1 as [F1 L1]. simpl in *. split.
  - rewrite List.filter_app, F1, no_reset_exits. reflexivity.
  - rewrite last_set_app, <- L1, last_set_exits. reflexivity.
Qed.

Ltac log_kept_prim :=
  repeat keeps_step;
  try (split; reflexivity).

Lemma log_kept_emit e :
  is_ResetLocal e = false -> is_SetLocal e = false -> keeps log_kept (emit e).
Proof.
  intros H1 H2. apply keeps_emit; step_rel_done. intros s. split.
  - simpl. rewrite H1. reflexivity.
  - destruct e; try discriminate; reflexivity.
Qed.

Lemma log_kept_consume_loop opt self msg gl hs :
  keeps log_kept (BaseHandler.consume_loop opt self msg gl hs).
Proof.
  assert (Hemit : forall e, plain_event e = true -> keeps log_kept (emit e)).
  { intros e He. apply log_kept_emit; destruct e; try discriminate; reflexivity. }
  assert (Hpush : forall v cb, cb <> ExitLock -> keeps log_kept (push v cb)).
  { intros v cb _. unfold push. log_kept_prim. }
  assert (Hinner : forall A v (body : M A), v <> v_stack ->
             keeps log_kept body -> keeps log_kept (AsyncExitStack v body)).
  { intros A v body _. apply log_kept_stack. }
  assert (Hres : forall r, keeps log_kept (modify_vars (set_result r)))
    by (intros; log_kept_prim).
  assert (Hmsg : forall v, keeps log_kept (modify_vars (set_result_msg v)))
    by (intros; log_kept_prim).
  assert (Hset : forall k v,
             keeps log_kept (tag <- context.set_local k v ;;
                             modify_vars (set_log_context_tag (Some tag)))).
  { intros k v s r s' l E. inversion E; subst. split; reflexivity. }
  apply loop_keeps_consume_loop; step_rel_done. intros h.
  apply loop_keeps_consume_call; step_rel_done; auto;
    try (intros; apply log_kept_emit; reflexivity).
  intros ms message.
  apply loop_keeps_process; step_rel_done; auto.
  - unfold BaseHandler.close, BaseHandler.wait_release.
    destruct (BaseHandler.graceful_timeout self) as [[| n] |];
      (kbind; [apply log_kept_emit; reflexivity | intros ?]);
      (kbind; [log_kept_prim | intros ?]);
      try (apply log_kept_emit; reflexivity); log_kept_prim.
  - intros e. apply log_kept_emit; reflexivity.
  - kbind; [log_kept_prim | intros f].
    kbind; [apply log_kept_emit; reflexivity | intros ?].
    log_kept_prim.
Qed.

Lemma log_kept_consume_block opt self msg :
  keeps log_kept (BaseHandler.consume_block opt self msg).
Proof.
  unfold BaseHandler.consume_block. apply log_kept_stack.
  kbind; [| intros ?; log_kept_prim].
  unfold BaseHandler.consume_scan. kbind; [| intros gl; apply log_kept_consume_loop].
  unfold BaseHandler.enter_call, BaseHandler.enter_lock, BaseHandler.enter_scope, push.
  kbind; [| intros ?; kbind; [| intros ?]].
  - kbind; [apply log_kept_emit; reflexivity | intros ?]. log_kept_prim.
  - kbind; [apply log_kept_emit; reflexivity | intros ?]. log_kept_prim.
  - apply loop_keeps_enter_middlewares; step_rel_done.
    + intros e He. apply log_kept_emit; destruct e; try discriminate; reflexivity.
    + intros v cb _. unfold push. log_kept_prim.
Qed.

(** C10. If [consume] ends by raising an exception, the call has not reset
    the log context: no [reset_local] was made, and the context variable
    still holds what the last [set_local] of the call gave it (or what it
    held before the call, if none was made).  The reset of line 297 is
    reached only when the block of the call completes normally. *)
Theorem consume_raise_keeps_log_context :
  forall (opt : bool) (self : BaseHandler.t) (msg : value) (w : world) (e : exn),
    let run := BaseHandler.consume opt self msg w in
    outcome_of run = Raise e ->
    count_events is_ResetLocal (events_of run) = 0 /\
    log_context (world_after run) = last_set (events_of run) (log_context w).
Proof.
  intros opt self msg w e run Hraise. subst run. rewrite consume_run in *.
  destruct (running w); [| discriminate].
  destruct (BaseHandler.consume_block opt self msg (BaseHandler.initial_state w))
    as [[[u | e1] s1] l1] eqn:E1.
  - destruct (log_context_tag (vars s1)); discriminate.
  - apply log_kept_consume_block in E1. destruct E1 as [F1 L1].
    unfold count_events, world_after, events_of. simpl. rewrite F1. auto.
Qed.

Lemma consume_raise_keeps_log_context_witness :
  count_events is_ResetLocal
    (events_of (BaseHandler.consume false Sample.failing Sample.hello Sample.started))
    = 0 /\
  log_context
    (world_after (BaseHandler.consume false Sample.failing Sample.hello Sample.started))
    = Some [("message_id", "id-A")].
Proof.
  destruct (consume_raise_keeps_log_context false Sample.failing Sample.hello
              Sample.started (Exception "boom") eq_refl) as [Hreset Hkept].
  split; [exact Hreset |].
  rewrite Hkept. reflexivity.
Defined.

(** ** C9: the log context is set once per item *)

(** C9. The guard of line 227 reads a flag that is never set: on a dispatcher
    with two items, of which the second accepts, [consume] sets the log
    context twice, the second time from the second item's parser output, and
    resets it once: after the call the context variable holds what the first
    item's parser gave, not what it held before the call. *)
Theorem consume_sets_log_context_for_each_item :
  let run := BaseHandler.consume false Sample.second_of_two Sample.hello Sample.started in
  outcome_of run = Return (VStr "b") /\
  List.filter is_SetLocal (events_of run) =
    [SetLocal "log_context" [("message_id", "id-A")];
     SetLocal "log_context" [("message_id", "id-B")]] /\
  count_events is_ResetLocal (events_of run) = 1 /\
  log_context Sample.started = None /\
  log_context (world_after run) = Some [("message_id", "id-A")].
Proof. repeat split. Qed.

(** ** C4: the controlled stop closes the dispatcher and is swallowed *)

Lemma never_stops_ret {A} (a : A) : never_stops (ret a).
Proof. intros s r s' l E. inversion E. discriminate. Qed.

Lemma never_stops_raise {A} e : e <> StopConsume -> never_stops (@raise A e).
Proof. intros He s r s' l E. inversion E. congruence. Qed.

Lemma never_stops_await {A} (o : outcome A) : stop_free o -> never_stops (await o).
Proof. intros Ho s r s' l E. inversion E; subst. exact Ho. Qed.

Lemma never_stops_emit e : never_stops (emit e).
Proof. intros s r s' l E. inversion E. discriminate. Qed.

Lemma never_stops_modify_vars g : never_stops (modify_vars g).
Proof. intros s r s' l E. inversion E. discriminate. Qed.

Lemma never_stops_modify_env g : never_stops (modify_env g).
Proof. intros s r s' l E. inversion E. discriminate. Qed.

Lemma never_stops_get_vars : never_stops get_vars.
Proof. intros s r s' l E. inversion E. discriminate. Qed.

Lemma never_stops_get_env : never_stops get_env.
Proof. intros s r s' l E. inversion E. discriminate. Qed.

Lemma never_stops_assert_ c msg : never_stops (assert_ c msg).
Proof.
  destruct c; [apply never_stops_ret | apply never_stops_raise; discriminate].
Qed.

Lemma never_stops_bind {A B} (m : M A) (f : A -> M B) :
  never_stops m -> (forall a, never_stops (f a)) -> never_stops (bind m f).
Proof.
  intros Hm Hf s r s' l E. apply bind_inv in E.
  destruct E as [(a & s1 & l1 & l2 & E1 & E2 & _) | (e & E1 & ->)].
  - eapply Hf; eauto.
  - intros Heq. inversion Heq; subst. apply Hm in E1. apply E1. reflexivity.
Qed.

Lemma never_stops_stack {A} v (body : M A) :
  never_stops body -> never_stops (AsyncExitStack v body).
Proof.
  intros Hb s r s' l E. rewrite AsyncExitStack_run in E.
  destruct (body _) as [[r1 s1] l1] eqn:E1. inversion E; subst.
  eapply Hb; eauto.
Qed.

Ltac never_stops_step :=
  lazymatch goal with
  | |- forall _, _ => intros ?
  | |- never_stops (bind _ _) => apply never_stops_bind
  | |- never_stops (ret _) => apply never_stops_ret
  | |- never_stops (raise _) => apply never_stops_raise; discriminate
  | |- never_stops (emit _) => apply never_stops_emit
  | |- never_stops (modify_vars _) => apply never_stops_modify_vars
  | |- never_stops (modify_env _) => apply never_stops_modify_env
  | |- never_stops get_vars => apply never_stops_get_vars
  | |- never_stops get_env => apply never_stops_get_env
  | |- never_stops (assert_ _ _) => apply never_stops_assert_
  | |- never_stops (push _ _) => apply never_stops_modify_vars
  | |- never_stops (match ?x with _ => _ end) => destruct x
  end.

(** Whatever the body of the [try] does, the statement does not let the
    signal through. *)
Lemma never_stops_process opt self h ms message :
  never_stops (BaseHandler.process opt self h ms message).
Proof.
  intros s r s' l. unfold BaseHandler.process, try_except_else.
  destruct (BaseHandler.try_body h ms message s) as [[[u | e] s1] l1].
  - unfold bind, get_vars, BaseHandler.trigger, emit, modify_vars, ret. simpl.
    intros E; inversion E. discriminate.
  - destruct e; rewrite ?close_run;
      unfold bind, BaseHandler.trigger, emit, raise, ret; rewrite ?close_run; simpl;
      intros E; inversion E; discriminate.
Qed.

Lemma never_stops_enter_middlewares msg ms :
  Forall (fun m : value -> BaseMiddleware.t =>
            stop_free (BaseMiddleware.__aenter__ (m msg))) ms ->
  never_stops (BaseHandler.enter_middlewares msg ms).
Proof.
  induction 1 as [| m rest Hm Hrest IH]; simpl.
  - apply never_stops_ret.
  - unfold BaseHandler.enter_async_context.
    apply never_stops_bind; [| intros x; apply never_stops_bind; [exact IH |]];
      repeat never_stops_step.
    apply never_stops_await. exact Hm.
Qed.

Lemma never_stops_consume_call opt self msg gl h :
  stop_free_item msg h ->
  never_stops (BaseHandler.consume_call opt self msg gl h).
Proof.
  intros (Hm & Hp & Hd & Hf). unfold BaseHandler.consume_call.
  apply never_stops_bind.
  - unfold BaseHandler.prepare.
    apply never_stops_bind; [apply never_stops_enter_middlewares; exact Hm | intros ?].
    apply never_stops_bind; [apply never_stops_emit | intros ?].
    apply never_stops_bind; [apply never_stops_await; exact Hp | intros ?].
    apply never_stops_bind; [apply never_stops_get_vars | intros ?].
    apply never_stops_bind.
    { destruct (negb _); [| apply never_stops_ret].
      unfold context.set_local. repeat never_stops_step. }
    intros ?.
    apply never_stops_bind; [apply never_stops_emit | intros ?].
    apply never_stops_bind; [apply never_stops_await; apply Hd | intros ?].
    apply never_stops_bind; [apply never_stops_get_vars | intros ?].
    apply never_stops_bind; [apply never_stops_await; apply Hf | intros ?].
    repeat never_stops_step.
  - intros [[ms m] |]; [apply never_stops_process | apply never_stops_ret].
Qed.

Lemma never_stops_consume_loop opt self msg gl hs :
  Forall (stop_free_item msg) hs ->
  never_stops (BaseHandler.consume_loop opt self msg gl hs).
Proof.
  induction 1 as [| h rest Hh Hrest IH]; simpl.
  - apply never_stops_ret.
  - apply never_stops_bind; [apply never_stops_consume_call; exact Hh |].
    intros [|]; [apply never_stops_ret | exact IH].
Qed.

Lemma never_stops_consume_block opt self msg :
  stop_free_outside self msg ->
  never_stops (BaseHandler.consume_block opt self msg).
Proof.
  intros [Hgl Hcalls]. unfold BaseHandler.consume_block.
  apply never_stops_stack.
  apply never_stops_bind; [| repeat never_stops_step].
  unfold BaseHandler.consume_scan.
  apply never_stops_bind; [| intros gl; apply never_stops_consume_loop; exact Hcalls].
  unfold BaseHandler.enter_call, BaseHandler.enter_lock, BaseHandler.enter_scope.
  apply never_stops_bind; [repeat never_stops_step | intros ?].
  apply never_stops_bind; [repeat never_stops_step | intros ?].
  apply never_stops_enter_middlewares. exact Hgl.
Qed.

#[export] Instance stays_closed_step : StepRel stays_closed.
Proof.
  split.
  - intros s. split; [intros [] | auto].
  - intros s1 s2 s3 l1 l2 [C1 K1] [C2 K2]. split; [| auto].
    rewrite in_app_iff. intros [Hin | Hin]; auto.
Qed.

Lemma not_Close_exits cbs : ~ In Close (map exit_event cbs).
Proof.
  rewrite in_map_iff. intros ([] & E & _); discriminate.
Qed.

Lemma stays_closed_stack {A} v (body : M A) :
  keeps stays_closed body -> keeps stays_closed (AsyncExitStack v body).
Proof.
  intros Hb s r s' l E. rewrite AsyncExitStack_run in E.
  destruct (body _) as [[r1 s1] l1] eqn:E1. inversion E; subst; clear E.
  apply Hb in E1. destruct E1 as [C1 K1]. simpl in *. split; [| exact K1].
  rewrite in_app_iff. intros [Hin | Hin]; [auto |].
  exfalso. exact (not_Close_exits _ Hin).
Qed.

Lemma stays_closed_emit e : e <> Close -> keeps stays_closed (emit e).
Proof.
  intros He. apply keeps_emit; step_rel_done. intros s. split; [| auto].
  intros [E | []]. congruence.
Qed.

Ltac stays_closed_prim :=
  repeat first [ apply stays_closed_emit; discriminate | keeps_step ];
  try (split; [intros [] | simpl; auto]).

Lemma stays_closed_consume_block opt self msg :
  keeps stays_closed (BaseHandler.consume_block opt self msg).
Proof.
  assert (Hemit : forall e, plain_event e = true -> keeps stays_closed (emit e)).
  { intros e He. apply stays_closed_emit. destruct e; discriminate. }
  assert (Hpush : forall v cb, cb <> ExitLock -> keeps stays_closed (push v cb)).
  { intros v cb _. unfold push. stays_closed_prim. }
  assert (Hinner : forall A v (body : M A), v <> v_stack ->
             keeps stays_closed body -> keeps stays_closed (AsyncExitStack v body)).
  { intros A v body _. apply stays_closed_stack. }
  unfold BaseHandler.consume_block. apply stays_closed_stack.
  kbind; [| intros ?; stays_closed_prim].
  unfold BaseHandler.consume_scan. kbind.
  - unfold BaseHandler.enter_call, BaseHandler.enter_lock, BaseHandler.enter_scope, push.
    kbind; [stays_closed_prim | intros ?].
    kbind; [stays_closed_prim | intros ?].
    apply loop_keeps_enter_middlewares; step_rel_done; auto.
  - intros gl.
    apply loop_keeps_consume_loop; step_rel_done. intros h.
    apply loop_keeps_consume_call; step_rel_done; auto;
      try solve [intros; stays_closed_prim].
    { intros k v. unfold context.set_local. stays_closed_prim. }
    intros ms message.
    apply loop_keeps_process; step_rel_done; auto;
      try solve [intros; stays_closed_prim];
      try solve [unfold BaseHandler.trigger; intros; stays_closed_prim];
      try solve [intros; unfold context.set_local; stays_closed_prim].
    intros s r s' l E. rewrite close_run in E. inversion E; subst. split; reflexivity.
Qed.

(** C4. When the handler callable raises the controlled-stop signal, the
    [try] statement calls [close] (the dispatcher is no longer running),
    calls [trigger] on the handler and completes normally, without [break].
    Whenever [close] was called during a call of [consume] the dispatcher is
    not running after it.  And [consume] never raises the signal to its
    caller, as long as the signal does not come from a collaborator called
    outside the [try] statement (a middleware being entered, a parser, a
    decoder or a filter). *)
Theorem stop_consume_closes_and_is_swallowed :
  forall (opt : bool) (self : BaseHandler.t) (msg : value),
    (forall h ms message body s,
        wrap_consume ms (StreamMessage.decoded_body message) = Return body ->
        HandlerCallWrapper.call_wrapped (HandlerItem.handler h)
          (StreamMessage.set_decoded_body message body) = Raise StopConsume ->
        BaseHandler.process opt self h ms message s =
        (Return false,
         {| vars := set_stack v_consume_stack [] (vars s);
            env := set_running false (env s) |},
         call_events h ms message body ++
         close_events self ++ [Trigger (HandlerItem.call_name h) None None]))
    /\
    (forall w,
        In Close (events_of (BaseHandler.consume opt self msg w)) ->
        running (world_after (BaseHandler.consume opt self msg w)) = false)
    /\
    (forall w,
        stop_free_outside self msg ->
        outcome_of (BaseHandler.consume opt self msg w) <> Raise StopConsume).
Proof.
  intros opt self msg. split; [| split].
  - intros h ms message body s Hw Hc. apply process_run_stop; assumption.
  - intros w. rewrite consume_run.
    destruct (running w) eqn:Hrun; [| intros []].
    destruct (BaseHandler.consume_block opt self msg (BaseHandler.initial_state w))
      as [[[u | e] s1] l1] eqn:E1;
      apply stays_closed_consume_block in E1; destruct E1 as [C1 _].
    + destruct (log_context_tag (vars s1)); unfold events_of, world_after; simpl.
      * rewrite in_app_iff. intros [Hin | [Hin | []]]; [auto | discriminate].
      * exact C1.
    + exact C1.
  - intros w Hfree. rewrite consume_run.
    destruct (running w); [| discriminate].
    destruct (BaseHandler.consume_block opt self msg (BaseHandler.initial_state w))
      as [[[u | e] s1] l1] eqn:E1.
    + destruct (log_context_tag (vars s1)); discriminate.
    + apply never_stops_consume_block in E1; [| assumption].
      intros Heq. inversion Heq; subst. apply E1. reflexivity.
Qed.

Lemma stop_consume_closes_and_is_swallowed_witness :
  (exists s' l,
      BaseHandler.process false Sample.stopping Sample.stopper
        [Sample.marking "g" Sample.hello] (Sample.seen "id-A")
        (BaseHandler.initial_state Sample.started) =
      (Return false, s', l ++ [Close; Trigger "A" None None]) /\
      running (env s') = false) /\
  running (world_after
             (BaseHandler.consume false Sample.stopping Sample.hello Sample.started)) =
    false /\
  outcome_of (BaseHandler.consume false Sample.stopping Sample.hello Sample.started) <>
    Raise StopConsume.
Proof.
  destruct (stop_consume_closes_and_is_swallowed false Sample.stopping Sample.hello)
    as (Htry & Hclosed & Hswallowed).
  split; [| split].
  - eexists. eexists. split.
    + rewrite (Htry Sample.stopper [Sample.marking "g" Sample.hello]
                 (Sample.seen "id-A") Sample.hello _ eq_refl eq_refl).
      reflexivity.
    + reflexivity.
  - apply Hclosed. simpl. tauto.
  - apply Hswallowed. split.
    + repeat constructor; discriminate.
    + repeat constructor; try discriminate; intros ?; discriminate.
Defined.

(** ** Reaching an item of the loop *)

Lemma enter_middlewares_returns msg fs s ms s' l :
  BaseHandler.enter_middlewares msg fs s = (Return ms, s', l) ->
  ms = instantiate msg fs.
Proof.
  revert s ms s' l. induction fs as [| m rest IH]; intros s ms s' l; simpl.
  - intros E; inversion E; reflexivity.
  - intros E. apply bind_inv in E.
    destruct E as [(x & s1 & l1 & l2 & E1 & E2 & _) | (e & _ & Hr)]; [| discriminate].
    apply bind_inv in E2.
    destruct E2 as [(xs & s2 & l3 & l4 & E3 & E4 & _) | (e & _ & Hr)]; [| discriminate].
    inversion E4; subst. apply IH in E3. subst.
    unfold BaseHandler.enter_async_context in E1.
    unfold bind, emit, await, push, modify_vars, ret in E1.
    destruct (BaseMiddleware.__aenter__ (m msg)); inversion E1; reflexivity.
Qed.

Lemma consume_loop_app opt self msg gl pre rest s :
  BaseHandler.consume_loop opt self msg gl (pre ++ rest) s =
  match BaseHandler.consume_loop opt self msg gl pre s with
  | (Return false, s1, l1) =>
      match BaseHandler.consume_loop opt self msg gl rest s1 with
      | (r, s2, l2) => (r, s2, l1 ++ l2)
      end
  | other => other
  end.
Proof.
  revert s. induction pre as [| h pre' IH]; intros s; simpl.
  - unfold ret. destruct (BaseHandler.consume_loop opt self msg gl rest s) as [[r s2] l2].
    reflexivity.
  - unfold bind.
    destruct (BaseHandler.consume_call opt self msg gl h s) as [[[[|] | e] s1] l1];
      try reflexivity.
    + rewrite IH.
      destruct (BaseHandler.consume_loop opt self msg gl pre' s1)
        as [[[[|] | e] s2] l2]; try reflexivity.
      destruct (BaseHandler.consume_loop opt self msg gl rest s2) as [[r s3] l3].
      rewrite app_assoc. reflexivity.
Qed.

(** When the scan of the items [pre] has run to its end without [break], the
    scan of [pre ++ rest] goes on with [rest] from there. *)
Lemma consume_scan_app opt self msg pre rest s s1 l1 :
  BaseHandler.consume_scan opt self msg pre s = (Return false, s1, l1) ->
  BaseHandler.consume_scan opt self msg (pre ++ rest) s =
  match BaseHandler.consume_loop opt self msg
          (instantiate msg (BaseHandler.middlewares self)) rest s1 with
  | (r, s2, l2) => (r, s2, l1 ++ l2)
  end.
Proof.
  unfold BaseHandler.consume_scan. intros E. apply bind_inv in E.
  destruct E as [(gl & s0 & l0 & l0' & E1 & E2 & ->) | (e & _ & Hr)]; [| discriminate].
  assert (Hgl : gl = instantiate msg (BaseHandler.middlewares self)).
  { unfold BaseHandler.enter_call in E1. apply bind_inv in E1.
    destruct E1 as [(x & sa & la & lb & _ & E1 & _) | (e & _ & Hr)]; [| discriminate].
    apply bind_inv in E1.
    destruct E1 as [(y & sb & lc & ld & _ & E1 & _) | (e & _ & Hr)]; [| discriminate].
    eapply enter_middlewares_returns; eauto. }
  subst gl. unfold bind. rewrite E1, consume_loop_app, E2.
  destruct (BaseHandler.consume_loop _ _ _ _ rest s1) as [[r s2] l2].
  rewrite app_assoc. reflexivity.
Qed.

(** ** C5: handler errors are reported and raised to the caller *)

(** C5. Let the loop of a call of [consume] on a running dispatcher reach the
    item [h], let the filter of [h] accept, and let the handler callable raise
    an exception [e] other than the controlled stop.  Then [trigger] is called
    on the handler, with no argument when [e] is a declared handler error and
    with [error=e] otherwise; nothing but the exits of the open scopes
    follows; and [consume] raises [e] itself to its caller. *)
Theorem handler_error_is_reported_and_raised :
  forall (opt : bool) (self : BaseHandler.t) (msg : value) (w : world)
         (pre post : list HandlerItem.t) (h : HandlerItem.t)
         (s1 s2 : state) (l1 l2 : list event)
         (ms : list BaseMiddleware.t) (message : StreamMessage.t)
         (body : value) (e : exn),
    running w = true ->
    BaseHandler.calls self = pre ++ h :: post ->
    BaseHandler.consume_scan opt self msg pre (BaseHandler.initial_state w) =
      (Return false, s1, l1) ->
    BaseHandler.prepare self msg (instantiate msg (BaseHandler.middlewares self)) h s1 =
      (Return (Some (ms, message)), s2, l2) ->
    wrap_consume ms (StreamMessage.decoded_body message) = Return body ->
    HandlerCallWrapper.call_wrapped (HandlerItem.handler h)
      (StreamMessage.set_decoded_body message body) = Raise e ->
    e <> StopConsume ->
    BaseHandler.consume opt self msg w =
      (Raise e, unwound s2,
       (l1 ++ l2 ++ call_events h ms message body ++
        [Trigger (HandlerItem.call_name h) None (error_arg e)]) ++
       unwind_events s2) /\
    (forall d, e = HandlerException d -> error_arg e = None) /\
    ((forall d, e <> HandlerException d) -> error_arg e = Some e).
Proof.
  intros opt self msg w pre post h s1 s2 l1 l2 ms message body e
    Hrun Hcalls Hscan Hprep Hw Hcall Hne.
  split; [| split].
  - rewrite consume_run_scan, Hrun, Hcalls.
    rewrite (consume_scan_app _ _ _ _ _ _ _ _ Hscan). simpl.
    unfold bind at 1. unfold BaseHandler.consume_call. unfold bind at 1.
    rewrite Hprep. rewrite (process_run_raise _ _ _ _ _ _ _ _ Hw Hcall Hne).
    reflexivity.
  - intros d ->. reflexivity.
  - intros Hd. destruct e; try reflexivity. exfalso. eapply Hd. reflexivity.
Qed.

Lemma handler_error_is_reported_and_raised_witness :
  (outcome_of (BaseHandler.consume false Sample.failing Sample.hello Sample.started) =
     Raise (Exception "boom") /\
   In (Trigger "A" None (Some (Exception "boom")))
     (events_of (BaseHandler.consume false Sample.failing Sample.hello Sample.started)))
  /\
  (outcome_of (BaseHandler.consume false Sample.declaring Sample.hello Sample.started) =
     Raise (HandlerException "nack") /\
   In (Trigger "A" None None)
     (events_of (BaseHandler.consume false Sample.declaring Sample.hello Sample.started))).
Proof.
  split.
  - edestruct (handler_error_is_reported_and_raised false Sample.failing Sample.hello
                 Sample.started [] [])
      as (Hrun & _ & _);
      [ reflexivity | reflexivity | reflexivity | reflexivity | reflexivity
      | reflexivity | discriminate | ].
    rewrite Hrun. split; [reflexivity |]. simpl. tauto.
  - edestruct (handler_error_is_reported_and_raised false Sample.declaring Sample.hello
                 Sample.started [] [])
      as (Hrun & _ & _);
      [ reflexivity | reflexivity | reflexivity | reflexivity | reflexivity
      | reflexivity | discriminate | ].
    rewrite Hrun. split; [reflexivity |]. simpl. tauto.
Defined.
(** ** C8: the result is published until a target fails *)

Lemma publish_all_events_app ms v out cid a b :
  publish_all_events ms v out cid (a ++ b) =
  publish_all_events ms v out cid a ++ publish_all_events ms v out cid b.
Proof. unfold publish_all_events. rewrite map_app, concat_app. reflexivity. Qed.

Lemma publish_all_run_raise ms message v pre p post s out e :
  wrap_publish ms v = Return out ->
  publish_ok out (StreamMessage.correlation_id message) pre ->
  PublisherProtocol.publish p out (StreamMessage.correlation_id message) = Raise e ->
  BaseHandler.publish_all ms message v (map Some (pre ++ p :: post)) s =
  (Raise e,
   {| vars := set_stack v_pub_stack [] (vars s); env := env s |},
   publish_all_events ms v out (StreamMessage.correlation_id message) (pre ++ [p])).
Proof.
  intros Hw. revert s. induction pre as [| q rest IH]; intros s Hok Hp; simpl.
  - unfold bind. rewrite (publish_one_run _ _ _ _ _ _ Hw), Hp.
    unfold publish_all_events. simpl. rewrite app_nil_r. reflexivity.
  - inversion Hok as [| x xs Hq Hrest]; subst.
    unfold bind. rewrite (publish_one_run _ _ _ _ _ _ Hw), Hq, IH by assumption.
    simpl. rewrite set_stack_twice. reflexivity.
Qed.

(** The targets tried when every publisher accepts, and when one raises. *)
Lemma tried_targets_ok out cid ps :
  publish_ok out cid ps -> tried_targets out cid ps = ps.
Proof.
  induction ps as [| p rest IH]; intros Hok; simpl; [reflexivity |].
  inversion Hok as [| x xs Hp Hrest]; subst. rewrite Hp, (IH Hrest). reflexivity.
Qed.

Lemma tried_targets_raise out cid pre p post e :
  publish_ok out cid pre ->
  PublisherProtocol.publish p out cid = Raise e ->
  tried_targets out cid (pre ++ p :: post) = pre ++ [p].
Proof.
  induction pre as [| q rest IH]; intros Hok Hp; simpl.
  - rewrite Hp. reflexivity.
  - inversion Hok as [| x xs Hq Hrest]; subst. rewrite Hq, (IH Hrest Hp). reflexivity.
Qed.

(** Entering the publish scopes ends as [wrap_publish] does and calls no
    publisher. *)
Lemma enter_publish_scopes_outcome ms v s :
  exists s' l,
    BaseHandler.enter_publish_scopes ms v s = (wrap_publish ms v, s', l) /\
    List.filter is_Publish l = [].
Proof.
  revert v s. induction ms as [| m rest IH]; intros v s; simpl.
  - eexists. eexists. split; reflexivity.
  - unfold bind at 1. unfold emit at 1.
    unfold bind at 1. unfold await at 1.
    destruct (BaseMiddleware.publish_scope m v) as [b | e];
      [| eexists; eexists; split; reflexivity].
    unfold bind at 1. unfold push at 1, modify_vars at 1.
    match goal with
    | |- context [BaseHandler.enter_publish_scopes rest b ?s0] =>
        destruct (IH b s0) as (s1 & l1 & E & Hl)
    end.
    rewrite E. eexists. eexists. split; [reflexivity | exact Hl].
Qed.

Lemma publish_one_outcome ms message v p s :
  exists s' l,
    BaseHandler.publish_one ms message v p s =
    (match wrap_publish ms v with
     | Return out =>
         PublisherProtocol.publish p out (StreamMessage.correlation_id message)
     | Raise e => Raise e
     end, s', l) /\
    List.filter is_Publish l =
      match wrap_publish ms v with
      | Return out =>
          [Publish (PublisherProtocol.name p) out (StreamMessage.correlation_id message)]
      | Raise _ => []
      end.
Proof.
  destruct (wrap_publish ms v) as [out | e] eqn:Hw.
  - rewrite (publish_one_run _ _ _ _ _ _ Hw).
    eexists. eexists. split; [reflexivity |].
    unfold publish_events. rewrite !List.filter_app.
    rewrite filter_publish_scope_events, filter_exit_events by kind_of_event.
    reflexivity.
  - unfold BaseHandler.publish_one. rewrite AsyncExitStack_run.
    unfold bind at 1.
    match goal with
    | |- context [BaseHandler.enter_publish_scopes ms v ?s0] =>
        destruct (enter_publish_scopes_outcome ms v s0) as (s1 & l1 & E & Hl)
    end.
    rewrite E, Hw. eexists. eexists. split; [reflexivity |].
    rewrite List.filter_app, Hl, filter_exit_events by kind_of_event. reflexivity.
Qed.

(** The loop over the targets calls [publish] as [publish_calls] says, and
    raises what a publish scope raises. *)
Lemma publish_all_outcome ms message v ps s :
  exists r s' l,
    BaseHandler.publish_all ms message v (map Some ps) s = (r, s', l) /\
    List.filter is_Publish l =
      publish_calls ms v (StreamMessage.correlation_id message) ps /\
    (forall e, wrap_publish ms v = Raise e -> ps <> [] -> r = Raise e).
Proof.
  revert s. induction ps as [| p rest IH]; intros s.
  - eexists. eexists. eexists. split; [reflexivity |].
    split; [| congruence]. unfold publish_calls.
    destruct (wrap_publish ms v); reflexivity.
  - simpl. unfold bind.
    destruct (publish_one_outcome ms message v p s) as (s1 & l1 & E & Hl).
    rewrite E. unfold publish_calls in *. simpl.
    destruct (wrap_publish ms v) as [out | e0] eqn:Hw.
    + destruct (PublisherProtocol.publish p out _) as [[] | e1].
      * destruct (IH s1) as (r2 & s2 & l2 & E2 & Hl2 & _). rewrite E2.
        eexists. eexists. eexists. split; [reflexivity |].
        split; [| discriminate].
        rewrite List.filter_app, Hl, Hl2. reflexivity.
      * eexists. eexists. eexists. split; [reflexivity |].
        split; [exact Hl | discriminate].
    + eexists. eexists. eexists. split; [reflexivity |].
      split; [exact Hl |]. intros e E0 _. congruence.
Qed.

(** The [try] statement of an item whose handler returned a result. *)
Lemma process_publish_calls opt self h ms message s body res pr :
  wrap_consume ms (StreamMessage.decoded_body message) = Return body ->
  HandlerCallWrapper.call_wrapped (HandlerItem.handler h)
    (StreamMessage.set_decoded_body message body) = Return (Some (res, pr)) ->
  exists r s' l,
    BaseHandler.process opt self h ms message s = (r, s', l) /\
    List.filter is_Publish l =
      publish_calls ms res (StreamMessage.correlation_id message) (targets pr h) /\
    (forall e, wrap_publish ms res = Raise e -> targets pr h <> [] ->
       r = after_failure e).
Proof.
  intros Hw Hc. unfold BaseHandler.process, try_except_else, BaseHandler.try_body.
  unfold bind at 1. rewrite (call_handler_run _ _ _ _ _ Hw), Hc.
  unfold bind at 1. unfold modify_vars at 1.
  rewrite (targets_cons pr h _ eq_refl).
  match goal with
  | |- context [BaseHandler.publish_all ms message res _ ?s0] =>
      destruct (publish_all_outcome ms message res (targets pr h) s0)
        as (r2 & s2 & l2 & E & Hl & Ho)
  end.
  rewrite E.
  assert (Hcall : List.filter is_Publish (call_events h ms message body) = []).
  { rewrite filter_call_events by kind_of_event. reflexivity. }
  destruct r2 as [[] | e].
  - unfold bind, get_vars, BaseHandler.trigger, emit, modify_vars, ret. simpl.
    eexists. eexists. eexists. split; [reflexivity |].
    rewrite !List.filter_app, Hcall, Hl. simpl. rewrite app_nil_r.
    split; [reflexivity |]. intros e He Hne. specialize (Ho e He Hne). discriminate.
  - assert (Hout : forall e0, wrap_publish ms res = Raise e0 -> targets pr h <> [] ->
                     e0 = e).
    { intros e0 He Hne. specialize (Ho e0 He Hne). congruence. }
    destruct e; unfold bind; rewrite ?close_run;
      unfold BaseHandler.trigger, emit, raise, ret; simpl;
      (eexists; eexists; eexists; split; [reflexivity |]);
      rewrite !List.filter_app, Hcall, Hl; unfold close_events;
      try (destruct (BaseHandler.graceful_timeout self) as [[| n] |]);
      simpl; rewrite ?app_nil_r;
      (split; [reflexivity |]);
      intros e0 He Hne; rewrite (Hout e0 He Hne); reflexivity.
Qed.

(** The [try] statement when a publisher raises. *)
Lemma process_run_publish_raise opt self h ms message s body res pr out pre p post e :
  wrap_consume ms (StreamMessage.decoded_body message) = Return body ->
  HandlerCallWrapper.call_wrapped (HandlerItem.handler h)
    (StreamMessage.set_decoded_body message body) = Return (Some (res, pr)) ->
  wrap_publish ms res = Return out ->
  targets pr h = pre ++ p :: post ->
  publish_ok out (StreamMessage.correlation_id message) pre ->
  PublisherProtocol.publish p out (StreamMessage.correlation_id message) = Raise e ->
  exists s' l,
    BaseHandler.process opt self h ms message s = (after_failure e, s', l) /\
    processed (vars s') = processed (vars s).
Proof.
  intros Hw Hc Hp Ht Hok Hpub.
  unfold BaseHandler.process, try_except_else, BaseHandler.try_body.
  unfold bind at 1. rewrite (call_handler_run _ _ _ _ _ Hw), Hc.
  unfold bind at 1. unfold modify_vars at 1.
  rewrite (targets_cons pr h _ eq_refl), Ht.
  rewrite (publish_all_run_raise _ _ _ _ _ _ _ _ _ Hp Hok Hpub). simpl.
  destruct e; unfold bind; rewrite ?close_run;
    unfold BaseHandler.trigger, emit, raise, ret; simpl;
    eexists; eexists; split; reflexivity.
Qed.

(** C8. Let an item's filter accept a delivery that no earlier item has
    processed, and let its handler return the result [res] with the inline
    response target [pr].  The targets are the inline one, when there is
    one, followed by the statically bound publishers.  They are tried in
    that order, each with the value that the publish scopes of the chain
    (the global middlewares followed by the item's own) make of [res] in
    that order, and with the correlation identifier of the parsed message;
    publishing ends with the first target whose [publish] raises, and nothing
    at all is published when a publish scope raises.  So every target
    receives the result, once, when the publish scopes and the publishers all
    return; when the publisher [p] raises, the targets after [p] receive
    nothing and the delivery is not marked as processed.  With no inline
    target, one static publisher and publish scopes that return, [publish]
    is called exactly once. *)
Theorem result_is_published_until_a_target_fails :
  forall (opt : bool) (self : BaseHandler.t) (msg : value)
         (gl : list BaseMiddleware.t) (h : HandlerItem.t) (s : state)
         (m0 : StreamMessage.t) (body0 body res : value)
         (pr : option PublisherProtocol.t),
    let chain := gl ++ instantiate msg (HandlerItem.middlewares h) in
    let message := filtered_message m0 body0 false in
    let cid := StreamMessage.correlation_id m0 in
    let run := BaseHandler.consume_call opt self msg gl h s in
    let sent (out : value) (ps : list PublisherProtocol.t) :=
      map (fun p => Publish (PublisherProtocol.name p) out cid) ps in
    enter_ok (instantiate msg (HandlerItem.middlewares h)) ->
    HandlerItem.parser h msg = Return m0 ->
    logged (vars s) = false ->
    processed (vars s) = false ->
    HandlerItem.decoder h m0 = Return body0 ->
    HandlerItem.filter h message = Return true ->
    wrap_consume chain body0 = Return body ->
    HandlerCallWrapper.call_wrapped (HandlerItem.handler h)
      (StreamMessage.set_decoded_body message body) = Return (Some (res, pr)) ->
    List.filter is_Publish (snd run) = publish_calls chain res cid (targets pr h) /\
    (forall out,
        wrap_publish chain res = Return out ->
        publish_ok out cid (targets pr h) ->
        (exists s',
            run =
            (Return opt, s',
             prepare_events self msg h m0 body0 false true ++
             (call_events h chain message body ++
              publish_all_events chain res out cid (targets pr h)) ++
             [Trigger (HandlerItem.call_name h) (Some res) None])) /\
        List.filter is_Publish (snd run) = sent out (targets pr h)) /\
    (forall out pre p post e,
        wrap_publish chain res = Return out ->
        targets pr h = pre ++ p :: post ->
        publish_ok out cid pre ->
        PublisherProtocol.publish p out cid = Raise e ->
        List.filter is_Publish (snd run) = sent out (pre ++ [p]) /\
        fst (fst run) = after_failure e /\
        processed (vars (snd (fst run))) = false) /\
    (forall e,
        wrap_publish chain res = Raise e ->
        targets pr h <> [] ->
        List.filter is_Publish (snd run) = [] /\
        fst (fst run) = after_failure e) /\
    (forall p out,
        pr = None ->
        HandlerCallWrapper._publishers (HandlerItem.handler h) = [p] ->
        wrap_publish chain res = Return out ->
        List.filter is_Publish (snd run) = [Publish (PublisherProtocol.name p) out cid]).
Proof.
  intros opt self msg gl h s m0 body0 body res pr chain message cid run sent
    Hok Hparse Hlog Hproc Hdec Hfilter Hw Hcall.
  assert (Hrun : run =
    let '(r, s', l) :=
      BaseHandler.process opt self h chain message (prepared self msg h m0 s) in
    (r, s', prepare_events self msg h m0 body0 false true ++ l)).
  { unfold run, BaseHandler.consume_call. unfold bind.
    rewrite (prepare_run self msg gl h s m0 body0 true Hok Hparse Hlog Hdec)
      by (rewrite Hproc; exact Hfilter).
    rewrite Hproc. reflexivity. }
  assert (Hprep : List.filter is_Publish
                    (prepare_events self msg h m0 body0 false true) = []).
  { rewrite filter_prepare_events by kind_of_event. reflexivity. }
  destruct (process_publish_calls opt self h chain message (prepared self msg h m0 s)
              body res pr Hw Hcall) as (r & s' & l & Eproc & Hcalls & Hscope).
  rewrite Eproc in Hrun.
  assert (Hsent : List.filter is_Publish (snd run) =
                  publish_calls chain res cid (targets pr h)).
  { rewrite Hrun. simpl. rewrite List.filter_app, Hprep, Hcalls. reflexivity. }
  split; [exact Hsent |]. split; [| split; [| split]].
  - intros out Hpub Hpubs. split.
    + pose proof (process_run_result opt self h chain message
                    (prepared self msg h m0 s) body res pr out Hw Hcall Hpub Hpubs)
        as E3.
      rewrite Eproc in E3. inversion E3; subst r s' l.
      rewrite Hrun. eexists. reflexivity.
    + rewrite Hsent. unfold publish_calls. rewrite Hpub.
      rewrite (tried_targets_ok _ _ _ Hpubs). reflexivity.
  - intros out pre p post e Hpub Ht Hpre Hp.
    destruct (process_run_publish_raise opt self h chain message
                (prepared self msg h m0 s) body res pr out pre p post e
                Hw Hcall Hpub Ht Hpre Hp) as (s2 & l2 & E2 & Hs).
    rewrite Eproc in E2. inversion E2; subst r s2 l2.
    split; [| split].
    + rewrite Hsent. unfold publish_calls. rewrite Hpub, Ht.
      rewrite (tried_targets_raise _ _ _ _ _ _ Hpre Hp). reflexivity.
    + rewrite Hrun. reflexivity.
    + rewrite Hrun. simpl. rewrite Hs. exact Hproc.
  - intros e He Hne. split.
    + rewrite Hsent. unfold publish_calls. rewrite He. reflexivity.
    + rewrite Hrun. simpl. exact (Hscope e He Hne).
  - intros p out Hpr Hstatic Hpub. rewrite Hsent. unfold publish_calls, targets.
    rewrite Hpub, Hpr, Hstatic. simpl.
    destruct (PublisherProtocol.publish p out cid); reflexivity.
Qed.

Lemma result_is_published_until_a_target_fails_witness :
  List.filter is_Publish
    (snd (BaseHandler.consume_call false Sample.middle_of_three Sample.hello
            [Sample.marking "g" Sample.hello] Sample.item_B
            (BaseHandler.initial_state Sample.started))) =
    [Publish "replies" (VStr "b+g+l") "id-B"] /\
  (List.filter is_Publish
     (snd (BaseHandler.consume_call false (Sample.dispatcher [Faulty.fan_out] [])
             Sample.hello [] Faulty.fan_out
             (BaseHandler.initial_state Sample.started))) =
     [Publish "p1" (VStr "a") "id-A"; Publish "p2" (VStr "a") "id-A"] /\
   fst (fst (BaseHandler.consume_call false (Sample.dispatcher [Faulty.fan_out] [])
               Sample.hello [] Faulty.fan_out
               (BaseHandler.initial_state Sample.started))) =
     Raise (Exception "refused")).
Proof.
  split.
  - edestruct (result_is_published_until_a_target_fails false Sample.middle_of_three
                 Sample.hello [Sample.marking "g" Sample.hello] Sample.item_B
                 (BaseHandler.initial_state Sample.started))
      as (_ & _ & _ & _ & Hone);
      [ repeat constructor | reflexivity | reflexivity | reflexivity | reflexivity
      | reflexivity | reflexivity | reflexivity | ].
    apply (Hone (Sample.publisher "replies") (VStr "b+g+l")); reflexivity.
  - edestruct (result_is_published_until_a_target_fails false
                 (Sample.dispatcher [Faulty.fan_out] []) Sample.hello []
                 Faulty.fan_out (BaseHandler.initial_state Sample.started))
      as (_ & _ & Hfail & _);
      [ repeat constructor | reflexivity | reflexivity | reflexivity | reflexivity
      | reflexivity | reflexivity | reflexivity | ].
    destruct (Hfail (VStr "a") [Sample.publisher "p1"] (Faulty.refusing "p2")
                [Sample.publisher "p3"] (Exception "refused"))
      as (Hsent & Hout & _);
      [reflexivity | reflexivity | repeat constructor | reflexivity |].
    split; [exact Hsent | exact Hout].
Defined.

(** A publisher that refuses the result ends the publishing: the handler
    returned its result, the first two targets were tried, and the third
    receives nothing. *)
Lemma refusing_target_ends_publishing :
  List.filter is_Call
    (events_of (BaseHandler.consume false (Sample.dispatcher [Faulty.fan_out] [])
                  Sample.hello Sample.started)) =
    [Call "A" (Sample.seen "id-A")] /\
  List.filter is_Publish
    (events_of (BaseHandler.consume false (Sample.dispatcher [Faulty.fan_out] [])
                  Sample.hello Sample.started)) =
    [Publish "p1" (VStr "a") "id-A"; Publish "p2" (VStr "a") "id-A"] /\
  ~ every_target_is_published_to false (Sample.dispatcher [Faulty.fan_out] [])
      Sample.hello Sample.started.
Proof.
  split; [reflexivity | split; [reflexivity |]].
  intros H.
  destruct (H Faulty.fan_out (Sample.seen "id-A") (VStr "a") None
              (Sample.publisher "p3")) as [out Hin].
  - left. reflexivity.
  - vm_compute. auto 10.
  - reflexivity.
  - vm_compute. auto.
  - vm_compute in Hin.
    repeat (destruct Hin as [Hin | Hin]; [discriminate Hin |]).
    exact Hin.
Qed.

(** ** C6: the first match decides *)

(** A run of items that all reject leaves the flag, the result and the
    dispatcher as they were, calls no handler and parses once per item, in
    order. *)
Lemma loop_rejecting opt self msg gl hs : forall s,
  Forall (rejects self msg (processed (vars s))) hs ->
  logged (vars s) = false ->
  exists s' l,
    BaseHandler.consume_loop opt self msg gl hs s = (Return false, s', l) /\
    processed (vars s') = processed (vars s) /\
    result_msg (vars s') = result_msg (vars s) /\
    logged (vars s') = false /\
    running (env s') = running (env s) /\
    List.filter is_Call l = [] /\
    List.filter is_Parse l = parse_events hs.
Proof.
  induction hs as [| h rest IH]; intros s Hrej Hlog.
  - exists s, []. simpl. repeat split; auto.
  - inversion Hrej as [| x xs Hh Hrest]; subst.
    destruct Hh as (Hok & m0 & body & Hparse & Hdec & Hfilter).
    destruct (IH (prepared self msg h m0 s)) as (s' & l & Hloop & Hp & Hr & Hl & Hrun & Hc & Hps);
      [exact Hrest | exact Hlog |].
    exists s', (prepare_events self msg h m0 body (processed (vars s)) false ++ l).
    simpl. unfold bind at 1. unfold BaseHandler.consume_call. unfold bind at 1.
    rewrite (prepare_run self msg gl h s m0 body false Hok Hparse Hlog Hdec Hfilter).
    unfold ret at 1. simpl. rewrite Hloop, app_nil_r.
    repeat split; auto.
    + rewrite List.filter_app, Hc, filter_prepare_events by kind_of_event. reflexivity.
    + rewrite List.filter_app, Hps, filter_prepare_events by kind_of_event. reflexivity.
Qed.

Lemma published_fields ps f :
  processed (published ps f) = processed f /\
  result_msg (published ps f) = result_msg f /\
  logged (published ps f) = logged f /\
  stack (published ps f) = stack f /\
  log_context_tag (published ps f) = log_context_tag f.
Proof. destruct ps; simpl; auto. Qed.

(** The iteration of an item whose filter accepts and whose handler returns:
    the handler is called once, the flag is set and the result recorded. *)
Lemma consume_call_accepting opt self msg gl h s m0 body0 body r :
  let chain := gl ++ instantiate msg (HandlerItem.middlewares h) in
  let message := filtered_message m0 body0 false in
  enter_ok (instantiate msg (HandlerItem.middlewares h)) ->
  HandlerItem.parser h msg = Return m0 ->
  logged (vars s) = false ->
  processed (vars s) = false ->
  HandlerItem.decoder h m0 = Return body0 ->
  HandlerItem.filter h message = Return true ->
  wrap_consume chain body0 = Return body ->
  HandlerCallWrapper.call_wrapped (HandlerItem.handler h)
    (StreamMessage.set_decoded_body message body) = Return r ->
  (forall res pr, r = Some (res, pr) ->
     exists out, wrap_publish chain res = Return out /\
                 publish_ok out (StreamMessage.correlation_id m0) (targets pr h)) ->
  exists s' l,
    BaseHandler.consume_call opt self msg gl h s = (Return opt, s', l) /\
    processed (vars s') = true /\
    result_msg (vars s') =
      match r with Some (res, _) => res | None => result_msg (vars s) end /\
    logged (vars s') = false /\
    running (env s') = running (env s) /\
    List.filter is_Call l =
      [Call (HandlerItem.call_name h) (StreamMessage.set_decoded_body message body)] /\
    List.filter is_Parse l = [Parse (HandlerItem.call_name h)].
Proof.
  intros chain message Hok Hparse Hlog Hproc Hdec Hfilter Hw Hcall Hpub.
  unfold BaseHandler.consume_call. unfold bind.
  rewrite (prepare_run self msg gl h s m0 body0 true Hok Hparse Hlog Hdec)
    by (rewrite Hproc; exact Hfilter).
  rewrite Hproc.
  destruct r as [[res pr] |].
  - destruct (Hpub res pr eq_refl) as (out & Hout & Hpubs).
    rewrite (process_run_result opt self h chain message _ body res pr out Hw Hcall Hout Hpubs).
    eexists. eexists. split; [reflexivity |].
    destruct (published_fields (targets pr h)
                (set_result_msg res
                   (set_result (Some (res, pr))
                      (set_stack v_consume_stack [] (vars (prepared self msg h m0 s))))))
      as (Fp & Fr & Fl & _ & _).
    simpl. simpl in Fp, Fr, Fl. repeat split; auto.
    + rewrite Fl. assumption.
    + rewrite !List.filter_app.
      rewrite filter_prepare_events by kind_of_event.
      rewrite filter_call_events by kind_of_event.
      rewrite filter_publish_all_events by kind_of_event.
      simpl. rewrite app_nil_r.
      match goal with |- _ :: ?x = _ => assert (E : x = []); [| rewrite E; reflexivity] end.
      clear. induction (targets pr h); simpl; auto.
    + rewrite !List.filter_app.
      rewrite filter_prepare_events by kind_of_event.
      rewrite filter_call_events by kind_of_event.
      rewrite filter_publish_all_events by kind_of_event.
      simpl. rewrite app_nil_r.
      match goal with |- _ :: ?x = _ => assert (E : x = []); [| rewrite E; reflexivity] end.
      clear. induction (targets pr h); simpl; auto.
  - rewrite (process_run_none opt self h chain message _ body Hw Hcall).
    eexists. eexists. split; [reflexivity |].
    simpl. repeat split; auto.
    + rewrite !List.filter_app.
      rewrite filter_prepare_events by kind_of_event.
      rewrite filter_call_events by kind_of_event. reflexivity.
    + rewrite !List.filter_app.
      rewrite filter_prepare_events by kind_of_event.
      rewrite filter_call_events by kind_of_event. reflexivity.
Qed.

(** C6. On a running dispatcher whose items are [pre ++ B :: post], where
    every item of [pre] and of [post] rejects the delivery and only the filter
    of [B] accepts, [consume] returns what the handler of [B] returns; the
    handler of [B] is the only one called; and the items are visited in
    registration order, each parsed once (up to [B] when the loop stops at
    the first match, all of them otherwise).  With [pre = [A]] and
    [post = [C]] these are the items [A; B; C]. *)
Theorem only_the_matching_handler_runs :
  forall (opt : bool) (self : BaseHandler.t) (msg : value) (w : world)
         (pre post : list HandlerItem.t) (B : HandlerItem.t)
         (m0 : StreamMessage.t) (body0 body : value)
         (r : option HandlerCallWrapper.WrappedReturn),
    let gl := instantiate msg (BaseHandler.middlewares self) in
    let chain := gl ++ instantiate msg (HandlerItem.middlewares B) in
    let message := filtered_message m0 body0 false in
    let run := BaseHandler.consume opt self msg w in
    running w = true ->
    BaseHandler.calls self = pre ++ B :: post ->
    enter_ok gl ->
    Forall (rejects self msg false) pre ->
    Forall (rejects self msg true) post ->
    enter_ok (instantiate msg (HandlerItem.middlewares B)) ->
    HandlerItem.parser B msg = Return m0 ->
    HandlerItem.decoder B m0 = Return body0 ->
    HandlerItem.filter B message = Return true ->
    wrap_consume chain body0 = Return body ->
    HandlerCallWrapper.call_wrapped (HandlerItem.handler B)
      (StreamMessage.set_decoded_body message body) = Return r ->
    (forall res pr, r = Some (res, pr) ->
       exists out, wrap_publish chain res = Return out /\
                   publish_ok out (StreamMessage.correlation_id m0) (targets pr B)) ->
    outcome_of run = Return (returned_value r) /\
    List.filter is_Call (events_of run) =
      [Call (HandlerItem.call_name B) (StreamMessage.set_decoded_body message body)] /\
    List.filter is_Parse (events_of run) =
      parse_events (pre ++ B :: (if opt then [] else post)).
Proof.
  intros opt self msg w pre post B m0 body0 body r gl chain message run
    Hrun Hcalls Hgl Hpre Hpost Hok Hparse Hdec Hfilter Hw Hcall Hpub.
  assert (Hgoal : exists w' evs,
             BaseHandler.consume opt self msg w = (Return (returned_value r), w', evs) /\
             List.filter is_Call evs =
               [Call (HandlerItem.call_name B)
                  (StreamMessage.set_decoded_body message body)] /\
             List.filter is_Parse evs =
               parse_events (pre ++ B :: (if opt then [] else post)));
    [| destruct Hgoal as (w' & evs & E & H1 & H2); subst run; rewrite E; auto].
  rewrite consume_run_scan, Hrun, Hcalls.
  unfold BaseHandler.consume_scan. unfold bind at 1.
  rewrite (enter_call_run self msg _ Hgl).
  set (s0 := {| vars := _; env := _ |}).
  rewrite consume_loop_app.
  destruct (loop_rejecting opt self msg gl pre s0 Hpre eq_refl)
    as (s1 & l1 & Hloop1 & Hp1 & Hr1 & Hl1 & Hrun1 & Hc1 & Hps1).
  fold gl. rewrite Hloop1.
  simpl BaseHandler.consume_loop. unfold bind at 1.
  destruct (consume_call_accepting opt self msg gl B s1 m0 body0 body r
              Hok Hparse Hl1 Hp1 Hdec Hfilter Hw Hcall Hpub)
    as (s2 & l2 & Hcall2 & Hp2 & Hr2 & Hl2 & Hrun2 & Hc2 & Hps2).
  rewrite Hcall2.
  assert (Hval : result_msg (vars s2) = returned_value r).
  { rewrite Hr2. destruct r as [[res pr] |]; [reflexivity |]. rewrite Hr1. reflexivity. }
  assert (Hexit : forall s, List.filter is_Call (unwind_events s) = [] /\
                            List.filter is_Parse (unwind_events s) = []).
  { intros s. unfold unwind_events. split; apply filter_exit_events; kind_of_event. }
  assert (Hg1 : List.filter is_Call (enter_events gl) = [])
    by (apply filter_enter_events; kind_of_event).
  assert (Hg2 : List.filter is_Parse (enter_events gl) = [])
    by (apply filter_enter_events; kind_of_event).
  destruct opt.
  - unfold ret at 1. rewrite Hp2, orb_true_r.
    destruct (Hexit s2) as [Hx1 Hx2].
    destruct (log_context_tag (vars s2)); eexists; eexists;
      (split; [rewrite Hval; reflexivity |]);
      rewrite ?List.filter_app, ?Hc1, ?Hc2, ?Hps1, ?Hps2, ?Hx1, ?Hx2; simpl;
      rewrite ?Hg1, ?Hg2; simpl;
      unfold parse_events; rewrite ?map_app; simpl; rewrite ?app_nil_r; auto.
  - rewrite <- Hp2 in Hpost.
    destruct (loop_rejecting false self msg gl post s2 Hpost Hl2)
      as (s3 & l3 & Hloop3 & Hp3 & Hr3 & Hl3 & Hrun3 & Hc3 & Hps3).
    rewrite Hloop3. rewrite Hp3, Hp2, orb_true_r.
    destruct (Hexit s3) as [Hx1 Hx2].
    destruct (log_context_tag (vars s3)); eexists; eexists;
      (split; [rewrite Hr3, Hval; reflexivity |]);
      rewrite ?List.filter_app, ?Hc1, ?Hc2, ?Hc3, ?Hps1, ?Hps2, ?Hps3, ?Hx1, ?Hx2; simpl;
      rewrite ?Hg1, ?Hg2; simpl;
      unfold parse_events; rewrite ?map_app; simpl; rewrite ?app_nil_r; auto.
Qed.

Lemma only_the_matching_handler_runs_witness :
  let run :=
    BaseHandler.consume false Sample.middle_of_three Sample.hello Sample.started in
  outcome_of run = Return (VStr "b") /\
  List.filter is_Call (events_of run) = [Call "B" (Sample.seen "id-B")] /\
  List.filter is_Parse (events_of run) = [Parse "A"; Parse "B"; Parse "C"].
Proof.
  assert (Hrej : forall done h,
             h = Sample.item_A \/ h = Sample.item_C ->
             rejects Sample.middle_of_three Sample.hello done h).
  { intros done h [-> | ->]; (split; [constructor |]);
      eexists; eexists; repeat split; reflexivity. }
  edestruct (only_the_matching_handler_runs false Sample.middle_of_three Sample.hello
               Sample.started [Sample.item_A] [Sample.item_C] Sample.item_B)
    as (Hout & Hcalls & Hparses).
  - reflexivity.
  - reflexivity.
  - repeat constructor.
  - constructor; [apply Hrej; auto | constructor].
  - constructor; [apply Hrej; auto | constructor].
  - repeat constructor.
  - reflexivity.
  - reflexivity.
  - reflexivity.
  - reflexivity.
  - reflexivity.
  - intros res pr E. inversion E; subst. eexists. split; [reflexivity |].
    repeat constructor.
  - intros run. split; [exact Hout | split; [exact Hcalls | exact Hparses]].
Defined.

(** ** The ways an iteration can end *)

#[export] Instance inert_step keep : StepRel (inert keep).
Proof.
  split.
  - intros s. repeat split; auto.
  - intros s1 s2 s3 l1 l2 (P1 & R1 & K1 & T1) (P2 & R2 & K2 & T2).
    split; [congruence |]. split; [congruence |]. split.
    + intros Hk. destruct (K1 Hk), (K2 Hk). split; congruence.
    + rewrite List.filter_app, T1, T2. reflexivity.
Qed.

Lemma inert_emit keep e : telling e = false -> keeps (inert keep) (emit e).
Proof.
  intros He. apply keeps_emit; step_rel_done. intros s.
  repeat split; auto. simpl. rewrite He. reflexivity.
Qed.

Lemma inert_push keep v cb : keeps (inert keep) (push v cb).
Proof.
  unfold push. apply keeps_modify_vars; step_rel_done. intros s.
  destruct v; repeat split; auto.
Qed.

Lemma telling_exits cbs : List.filter telling (map exit_event cbs) = [].
Proof. apply filter_exit_events. intros []; reflexivity. Qed.

Lemma inert_stack keep {A} v (body : M A) :
  keeps (inert keep) body -> keeps (inert keep) (AsyncExitStack v body).
Proof.
  intros Hb s r s' l E. rewrite AsyncExitStack_run in E.
  destruct (body _) as [[r1 s1] l1] eqn:E1. inversion E; subst; clear E.
  apply Hb in E1. destruct E1 as (P1 & R1 & K1 & T1).
  assert (T : List.filter telling (l1 ++ map exit_event (get_stack v (vars s1))) = [])
    by (rewrite List.filter_app, T1, telling_exits; reflexivity).
  destruct v; simpl in *; (split; [| split; [| split]]); auto.
Qed.

Lemma inert_set_local keep k v :
  keeps (inert keep)
    (tag <- context.set_local k v ;; modify_vars (set_log_context_tag (Some tag))).
Proof. intros s r s' l E. inversion E; subst. repeat split; auto. Qed.

Lemma inert_enter_middlewares keep msg ms :
  keeps (inert keep) (BaseHandler.enter_middlewares msg ms).
Proof.
  apply loop_keeps_enter_middlewares; step_rel_done.
  - intros e He. apply inert_emit. destruct e; try discriminate; reflexivity.
  - intros v cb _. apply inert_push.
Qed.

Lemma inert_publish_all ms message v pubs :
  keeps (inert true) (BaseHandler.publish_all ms message v pubs).
Proof.
  apply loop_keeps_publish_all; step_rel_done.
  - intros e He. apply inert_emit. destruct e; try discriminate; reflexivity.
  - intros w cb _. apply inert_push.
  - intros A w body _. apply inert_stack.
Qed.

Lemma inert_try_body h ms message :
  keeps (inert false) (BaseHandler.try_body h ms message).
Proof.
  apply loop_keeps_try_body; step_rel_done.
  - intros e He. apply inert_emit. destruct e; try discriminate; reflexivity.
  - intros w cb _. apply inert_push.
  - intros A w body _. apply inert_stack.
  - intros r. apply keeps_modify_vars; step_rel_done. intros s.
    split; [| split; [| split]]; auto. discriminate.
  - intros v. apply keeps_modify_vars; step_rel_done. intros s.
    split; [| split; [| split]]; auto. discriminate.
Qed.

(** Lines 218-239, however they end. *)
Lemma prepare_cases self msg gl h s r s' l :
  BaseHandler.prepare self msg gl h s = (r, s', l) ->
  (inert true s s' l /\ exists e, r = Raise e)
  \/
  (exists l0 m accepted,
      l = l0 ++ [Filtered (HandlerItem.call_name h) m accepted] /\
      inert true s s' l0 /\
      StreamMessage.processed m = processed (vars s) /\
      ((accepted = false /\ r = Return None)
       \/ (accepted = true /\ processed (vars s) = true /\ r = Raise multiple_consumers)
       \/ (accepted = true /\ processed (vars s) = false /\
           exists ms' m', r = Return (Some (ms', m'))))).
Proof.
  unfold BaseHandler.prepare. intros E. apply bind_inv in E.
  destruct E as [(locals & s1 & l1 & l2 & E1 & E2 & ->) | (e & E1 & ->)].
  2: { left. split; [eapply inert_enter_middlewares; eauto | eauto]. }
  apply inert_enter_middlewares with (keep := true) in E1.
  assert (Hmid : forall s2 lm,
             inert true s1 s2 lm -> inert true s s2 (l1 ++ lm)).
  { intros s2 lm H2. eapply step_trans; eauto. }
  unfold bind, emit, await, get_vars, get_env, modify_vars, modify_env, ret, raise,
    assert_, context.set_local in E2.
  destruct E1 as (P1 & _).
  destruct (HandlerItem.parser h msg) as [m0 | e].
  2: { inversion E2; subst. left. split; [| eauto].
       apply Hmid. repeat split; auto. }
  simpl in E2.
  destruct (logged (vars s1)); simpl in E2;
    (destruct (HandlerItem.decoder h _) as [body | e];
     [| inversion E2; subst; left; split; [apply Hmid; repeat split; auto | eauto]]);
    simpl in E2;
    (destruct (HandlerItem.filter h _) as [accepted | e];
     [| inversion E2; subst; left; split; [apply Hmid; repeat split; auto | eauto]]);
    simpl in E2;
    right;
    (destruct accepted; simpl in E2;
     [destruct (processed (vars s1)) eqn:Hp; simpl in E2 |]);
    inversion E2; subst; clear E2;
    match goal with
    | |- exists _ _ _, ?a ++ ?evs = _ /\ _ => exists (a ++ removelast evs)
    end;
    eexists; eexists;
    (split; [simpl; rewrite <- app_assoc; reflexivity |]);
    (split; [apply Hmid; repeat split; auto |]);
    (split; [simpl; exact P1 |]);
    rewrite <- P1;
    first
      [ left; split; reflexivity
      | right; left; split; [reflexivity | split; reflexivity]
      | right; right; split; [reflexivity | split; [reflexivity |]];
        eexists; eexists; reflexivity ].
Qed.

Lemma telling_none l :
  List.filter telling l = [] ->
  List.filter is_success l = [] /\
  List.filter is_Filtered l = [] /\
  List.filter is_Close l = [] /\
  List.filter is_accept l = [] /\
  List.filter is_rematch l = [].
Proof.
  induction l as [| e rest IH]; simpl; [auto |].
  unfold telling at 1.
  destruct e; simpl; try discriminate; auto.
  destruct result0; simpl; try discriminate; auto.
  destruct error; simpl; try discriminate; auto.
Qed.

Lemma inert_enter_consume_scopes keep ms message :
  keeps (inert keep) (BaseHandler.enter_consume_scopes ms message).
Proof.
  apply loop_keeps_enter_consume_scopes; step_rel_done.
  - intros e He. apply inert_emit. destruct e; try discriminate; reflexivity.
  - intros v cb _. apply inert_push.
Qed.

(** When the handler call returns, what it returned is in [result]. *)
Lemma call_handler_returns h ms message s r s1 l1 :
  BaseHandler.call_handler h ms message s = (Return r, s1, l1) ->
  result (vars s1) = r /\ result_msg (vars s1) = result_msg (vars s).
Proof.
  unfold BaseHandler.call_handler. rewrite AsyncExitStack_run.
  destruct (bind _ _ _) as [[rb sb] lb] eqn:Eb. intros E.
  inversion E; subst; clear E.
  apply bind_inv in Eb.
  destruct Eb as [(m' & s2 & l2 & l3 & E1 & E2 & _) | (e & _ & Hr)]; [| discriminate].
  apply (inert_enter_consume_scopes true) in E1.
  destruct E1 as (_ & _ & K & _). destruct (K eq_refl) as [K1 K2]. simpl in K1, K2.
  unfold bind, emit, await, modify_vars, ret in E2.
  destruct (HandlerCallWrapper.call_wrapped _ _) as [r' | e]; [| discriminate].
  inversion E2; subst. simpl. auto.
Qed.

(** The body of the [try], however it ends. *)
Lemma try_body_cases h ms message s rb sb lb :
  BaseHandler.try_body h ms message s = (rb, sb, lb) ->
  inert false s sb lb /\
  (rb = Return tt ->
   (exists v pr, result (vars sb) = Some (v, pr) /\ result_msg (vars sb) = v) \/
   (result (vars sb) = None /\ result_msg (vars sb) = result_msg (vars s))).
Proof.
  intros E. split; [eapply inert_try_body; eauto |].
  intros ->. unfold BaseHandler.try_body in E. apply bind_inv in E.
  destruct E as [(r & s1 & l1 & l2 & E1 & E2 & _) | (e & _ & Hr)]; [| discriminate].
  apply call_handler_returns in E1. destruct E1 as [R1 R2].
  destruct r as [[v pr] |].
  - left. exists v, pr. apply bind_inv in E2.
    destruct E2 as [(u & s2 & l3 & l4 & E3 & E4 & _) | (e & _ & Hr)]; [| discriminate].
    inversion E3; subst. apply inert_publish_all in E4.
    destruct E4 as (_ & _ & K & _). destruct (K eq_refl) as [K1 K2].
    simpl in K1, K2. rewrite K1, K2. auto.
  - right. inversion E2; subst. auto.
Qed.

(** The [try] statement, however it ends. *)
Lemma process_tried opt self h ms message s r s' l :
  BaseHandler.process opt self h ms message s = (r, s', l) ->
  tried opt (HandlerItem.call_name h) s r s' l.
Proof.
  unfold BaseHandler.process, try_except_else.
  destruct (BaseHandler.try_body h ms message s) as [[rb sb] lb] eqn:Eb.
  apply try_body_cases in Eb. destruct Eb as ((P & R & _ & T) & Hres).
  destruct (telling_none _ T) as (Ts & Tf & Tc & _).
  destruct rb as [[] | e].
  - unfold bind, get_vars, BaseHandler.trigger, emit, modify_vars, ret. simpl.
    intros E. inversion E; subst; clear E. split.
    + rewrite List.filter_app, Tf. reflexivity.
    + left. repeat split; auto.
      exists (match result (vars sb) with Some r0 => fst r0 | None => VNone end).
      split; [rewrite List.filter_app, Ts; reflexivity |].
      destruct (Hres eq_refl) as [(v & pr & Hr & Hm) | (Hr & Hm)]; rewrite Hr; simpl; auto.
  - destruct e; unfold bind; rewrite ?close_run;
      unfold BaseHandler.trigger, emit, raise, ret; simpl;
      intros E; inversion E; subst; clear E;
      (split; [rewrite ?List.filter_app, Tf;
               unfold close_events;
               try (destruct (BaseHandler.graceful_timeout self) as [[| n] |]);
               reflexivity |]).
    + right; left. repeat split; auto.
      * rewrite List.filter_app, Ts. unfold close_events.
        destruct (BaseHandler.graceful_timeout self) as [[| n] |]; reflexivity.
      * rewrite in_app_iff. right. unfold close_events. simpl. auto.
    + right; right. eexists. repeat split; eauto; try discriminate.
      rewrite List.filter_app, Ts. reflexivity.
    + right; right. eexists. repeat split; eauto; try discriminate.
      rewrite List.filter_app, Ts. reflexivity.
    + right; right. eexists. repeat split; eauto; try discriminate.
      rewrite List.filter_app, Ts. reflexivity.
Qed.

(** An iteration, however it ends. *)
Lemma consume_call_iterated opt self msg gl h s r s' l :
  BaseHandler.consume_call opt self msg gl h s = (r, s', l) ->
  iterated opt h s r s' l.
Proof.
  unfold BaseHandler.consume_call. intros E. apply bind_inv in E.
  destruct E as [(matched & s1 & l1 & l2 & E1 & E2 & ->) | (e & E1 & ->)].
  - apply prepare_cases in E1.
    destruct E1 as [(_ & e & He) | (l0 & m & acc & -> & Hin & Hm & Hcase)];
      [discriminate |].
    destruct Hcase as [(-> & Hr) | [(-> & _ & Hr) | (-> & Hp & ms' & m' & Hr)]];
      [| discriminate |]; inversion Hr; subst; clear Hr.
    + inversion E2; subst; clear E2. left.
      destruct Hin as (P & R & K & T). destruct (K eq_refl) as [_ K2].
      destruct (telling_none _ T) as (Ts & Tf & Tc & _).
      rewrite app_nil_r. repeat split; auto.
      * rewrite List.filter_app, Ts. reflexivity.
      * rewrite List.filter_app, Tc. reflexivity.
      * right; left. eauto.
    + apply process_tried in E2. right. split; [assumption |].
      destruct Hin as (P & R & K & T).
      exists l0, m, l2, s1.
      split; [rewrite <- app_assoc; reflexivity |].
      split; [exact T |].
      split; [congruence |].
      split; [| exact E2].
      split; [exact P | split; [exact R | split; [exact K | exact T]]].
  - apply prepare_cases in E1.
    destruct E1 as [(Hin & e' & He) | (l0 & m & acc & -> & Hin & Hm & Hcase)].
    + left. destruct Hin as (P & R & K & T). destruct (K eq_refl) as [_ K2].
      destruct (telling_none _ T) as (Ts & Tf & Tc & _).
      repeat split; auto. left. eauto.
    + destruct Hcase as [(-> & Hr) | [(-> & Hp & Hr) | (-> & _ & ms' & m' & Hr)]];
        try discriminate.
      inversion Hr; subst. left.
      destruct Hin as (P & R & K & T). destruct (K eq_refl) as [_ K2].
      destruct (telling_none _ T) as (Ts & Tf & Tc & _).
      repeat split; auto.
      * rewrite List.filter_app, Ts. reflexivity.
      * rewrite List.filter_app, Tc. reflexivity.
      * right; right. exists l0, m. repeat split; auto. congruence.
Qed.

(** ** C1: one consumer per delivery *)

Lemma unique_split {A} (p : A -> bool) (a a' b b' : list A) (x x' : A) :
  List.filter p a = [] -> p x = true -> List.filter p b = [] -> p x' = true ->
  a ++ x :: b = a' ++ x' :: b' ->
  a = a' /\ x = x' /\ b = b'.
Proof.
  revert a'. induction a as [| y a0 IH]; intros a' Ha Hx Hb Hx' E.
  - destruct a' as [| y' a0']; simpl in E.
    + inversion E; auto.
    + inversion E; subst. rewrite List.filter_app in Hb. simpl in Hb.
      rewrite Hx' in Hb. destruct (List.filter p a0'); discriminate.
  - simpl in Ha. destruct (p y) eqn:Hy; [discriminate |].
    destruct a' as [| y' a0']; simpl in E.
    + inversion E; subst. congruence.
    + inversion E; subst. destruct (IH a0' Ha Hx Hb Hx' H1) as (-> & -> & ->). auto.
Qed.

Lemma no_Filtered_no_rematch l :
  List.filter is_Filtered l = [] -> List.filter is_rematch l = [].
Proof.
  induction l as [| e rest IH]; simpl; [auto |].
  destruct e; simpl; try discriminate; auto.
Qed.

Lemma consume_call_rematch_last opt self msg gl h s r s' l :
  BaseHandler.consume_call opt self msg gl h s = (r, s', l) -> rematch_last r l.
Proof.
  intros E. apply consume_call_iterated in E.
  destruct E as [(_ & _ & _ & _ & _ & Hcase) | (_ & l0 & m & lt & sp & -> & T & Hm & _ & Hf & _)].
  - destruct Hcase as [(Hf & _) | [(l0 & m & -> & Hf & _) | (l0 & m & -> & Hf & _ & Hm & ->)]].
    + left. apply no_Filtered_no_rematch. assumption.
    + left. rewrite List.filter_app, (no_Filtered_no_rematch _ Hf). reflexivity.
    + right. split; [reflexivity |]. exists l0, (Filtered (HandlerItem.call_name h) m true).
      split; [reflexivity |].
      split; [simpl; exact Hm | apply no_Filtered_no_rematch; assumption].
  - left. destruct (telling_none _ T) as (_ & _ & _ & _ & Tr).
    rewrite List.filter_app, Tr. simpl. rewrite Hm. simpl.
    apply no_Filtered_no_rematch. assumption.
Qed.

Lemma rematch_last_bind {A B} (m : M A) (f : A -> M B) :
  (forall s r s' l, m s = (r, s', l) -> rematch_last r l) ->
  (forall a s r s' l, f a s = (r, s', l) -> rematch_last r l) ->
  forall s r s' l, bind m f s = (r, s', l) -> rematch_last r l.
Proof.
  intros Hm Hf s r s' l E. apply bind_inv in E.
  destruct E as [(a & s1 & l1 & l2 & E1 & E2 & ->) | (e & E1 & ->)].
  - apply Hm in E1. apply Hf in E2.
    destruct E1 as [N1 | (Habs & _)]; [| discriminate].
    destruct E2 as [N2 | (-> & l0 & e & -> & He & N0)].
    + left. rewrite List.filter_app, N1, N2. reflexivity.
    + right. split; [reflexivity |]. exists (l1 ++ l0), e.
      rewrite app_assoc, List.filter_app, N1, N0. auto.
  - apply Hm in E1. destruct E1 as [N1 | (Hr & Hrest)]; [left; assumption |].
    right. inversion Hr. split; [reflexivity | assumption].
Qed.

Lemma consume_loop_rematch_last opt self msg gl hs :
  forall s r s' l,
    BaseHandler.consume_loop opt self msg gl hs s = (r, s', l) -> rematch_last r l.
Proof.
  induction hs as [| h rest IH]; simpl.
  - intros s r s' l E. inversion E. left. reflexivity.
  - apply rematch_last_bind.
    + apply consume_call_rematch_last.
    + intros [|]; [| exact IH]. intros s r s' l E. inversion E. left. reflexivity.
Qed.

Lemma inert_enter_call keep self msg :
  keeps (inert keep) (BaseHandler.enter_call self msg).
Proof.
  unfold BaseHandler.enter_call, BaseHandler.enter_lock, BaseHandler.enter_scope.
  kbind; [| intros ?; kbind; [| intros ?; apply inert_enter_middlewares]].
  - kbind; [apply inert_emit; reflexivity | intros ?].
    kbind; [| intros ?; apply inert_push].
    apply keeps_modify_env; step_rel_done. intros s.
    split; [| split; [| split]]; auto.
  - kbind; [apply inert_emit; reflexivity | intros ?]. apply inert_push.
Qed.

Lemma consume_scan_rematch_last opt self msg hs s r s' l :
  BaseHandler.consume_scan opt self msg hs s = (r, s', l) -> rematch_last r l.
Proof.
  unfold BaseHandler.consume_scan. revert s r s' l. apply rematch_last_bind.
  - intros s r s' l E. apply (inert_enter_call true) in E.
    destruct E as (_ & _ & _ & T). destruct (telling_none _ T) as (_ & _ & _ & _ & Tr).
    left. assumption.
  - intros gl. apply consume_loop_rematch_last.
Qed.

#[export] Instance once_step : StepRel once.
Proof.
  split.
  - intros s. split; [intros Hp; split; [assumption | reflexivity] |].
    intros _. left. reflexivity.
  - intros s1 s2 s3 l1 l2 [T1 F1] [T2 F2]. split.
    + intros Hp. destruct (T1 Hp) as [P2 S1]. destruct (T2 P2) as [P3 S2].
      rewrite List.filter_app, S1, S2. auto.
    + intros Hp. rewrite List.filter_app.
      destruct (F1 Hp) as [S1 | (P2 & t & S1)].
      * rewrite S1. simpl. destruct (processed (vars s2)) eqn:Hp2.
        -- destruct (T2 eq_refl) as [P3 S2]. left. assumption.
        -- apply F2. reflexivity.
      * destruct (T2 P2) as [P3 S2]. rewrite S1, S2. right.
        split; [assumption | exists t; reflexivity].
Qed.

Lemma inert_once keep s s' l : inert keep s s' l -> once s s' l.
Proof.
  intros (P & _ & _ & T). destruct (telling_none _ T) as (Ts & _).
  split; intros Hp; [split; congruence | left; assumption].
Qed.

Lemma once_consume_call opt self msg gl h :
  keeps once (BaseHandler.consume_call opt self msg gl h).
Proof.
  intros s r s' l E. apply consume_call_iterated in E.
  destruct E as [(P & _ & _ & Ts & _) | (Hp & l0 & m & lt & sp & -> & T & _ & _ & Hf & Hcase)].
  - split; intros Hp; [split; congruence | left; assumption].
  - destruct (telling_none _ T) as (Ts & _).
    split; [congruence |]. intros _. rewrite List.filter_app, Ts. simpl.
    destruct Hcase as [(_ & P & _ & v & S & _) | [(_ & _ & _ & S & _) | (e & _ & _ & _ & _ & S)]].
    + right. split; [assumption |]. eauto.
    + left. assumption.
    + left. assumption.
Qed.

Lemma once_consume_scan opt self msg hs :
  keeps once (BaseHandler.consume_scan opt self msg hs).
Proof.
  unfold BaseHandler.consume_scan. kbind.
  - intros s r s' l E. eapply inert_once. eapply (inert_enter_call true); eauto.
  - intros gl. apply loop_keeps_consume_loop; step_rel_done.
    apply once_consume_call.
Qed.

Lemma exits_are_exits cbs : forallb is_exit (map exit_event cbs) = true.
Proof. induction cbs as [| cb rest IH]; simpl; [reflexivity |]. destruct cb; exact IH. Qed.

Lemma rematch_present l l0 x tail :
  l = l0 ++ x :: tail -> is_rematch x = true -> List.filter is_rematch l <> [].
Proof.
  intros -> Hx. rewrite List.filter_app. simpl. rewrite Hx.
  destruct (List.filter is_rematch l0); discriminate.
Qed.

Lemma no_rematch_exits cbs : List.filter is_rematch (map exit_event cbs) = [].
Proof. apply filter_exit_events. intros []; reflexivity. Qed.

Lemma no_success_exits cbs : List.filter is_success (map exit_event cbs) = [].
Proof. apply filter_exit_events. intros []; reflexivity. Qed.

(** C1, as the code has it.  Whenever, during a call of [consume], a filter
    accepts an envelope flagged as already processed by an earlier item of the
    same pass, [consume] raises the assertion of line 237 and does nothing
    afterwards but leave the scopes it had entered.  Hence in every call at
    most one handler reports having processed the delivery. *)
Theorem rematch_asserts_and_one_consumer :
  forall (opt : bool) (self : BaseHandler.t) (msg : value) (w : world),
    let run := BaseHandler.consume opt self msg w in
    (forall l0 n m tail,
        events_of run = l0 ++ Filtered n m true :: tail ->
        StreamMessage.processed m = true ->
        outcome_of run = Raise multiple_consumers /\ forallb is_exit tail = true)
    /\
    count_events is_success (events_of run) <= 1.
Proof.
  intros opt self msg w run. subst run. rewrite consume_run_scan.
  destruct (running w).
  2: { split; [| simpl; auto]. intros l0 n m tail E. destruct l0; discriminate. }
  destruct (BaseHandler.consume_scan opt self msg (BaseHandler.calls self)
              (BaseHandler.initial_state w)) as [[r s1] l1] eqn:Escan.
  pose proof (consume_scan_rematch_last _ _ _ _ _ _ _ _ Escan) as Hre.
  pose proof (once_consume_scan _ _ _ _ _ _ _ _ Escan) as [_ Honce].
  specialize (Honce eq_refl).
  assert (Hcount : forall tail,
             List.filter is_success tail = [] ->
             count_events is_success (l1 ++ tail) <= 1).
  { intros tail Ht. unfold count_events. rewrite List.filter_app, Ht, app_nil_r.
    destruct Honce as [-> | (_ & t & ->)]; simpl; auto. }
  assert (Hnone : forall evs l0 n m tail,
             List.filter is_rematch evs = [] ->
             evs = l0 ++ Filtered n m true :: tail ->
             StreamMessage.processed m = true -> False).
  { intros evs l0 n m tail Hf E Hm.
    apply (rematch_present _ _ _ _ E); [simpl; rewrite Hm; reflexivity | assumption]. }
  destruct r as [b | e].
  - destruct Hre as [N1 | (Habs & _)]; [| discriminate].
    match goal with
    | |- context [events_of ?x] =>
        assert (Hev : exists o w' tail,
                   x = (o, w', l1 ++ tail) /\
                   List.filter is_rematch tail = [] /\
                   List.filter is_success tail = [])
    end.
    { unfold unwind_events.
      destruct (negb (running (env s1)) || processed (vars s1));
        [destruct (log_context_tag (vars s1)) |];
        eexists; eexists; eexists;
        (split; [rewrite <- ?app_assoc; reflexivity |]);
        rewrite ?List.filter_app, no_rematch_exits, no_success_exits; auto. }
    destruct Hev as (o & w' & tail & -> & Nr & Ns).
    unfold outcome_of, events_of; simpl. split; [| apply Hcount; assumption].
    intros l0 n m tail' E Hm. exfalso.
    eapply Hnone; [| exact E | exact Hm].
    rewrite List.filter_app, N1, Nr. reflexivity.
  - unfold outcome_of, events_of, unwind_events; simpl. split.
    + intros l0 n m tail E Hm.
      destruct Hre as [N1 | (Hr & l0' & e' & -> & He' & N0)].
      * exfalso. eapply Hnone; [| exact E | exact Hm].
        rewrite !List.filter_app, N1, no_rematch_exits. reflexivity.
      * rewrite <- app_assoc in E. simpl in E.
        assert (Hx : is_rematch (Filtered n m true) = true)
          by (simpl; rewrite Hm; reflexivity).
        destruct (unique_split is_rematch _ _ _ _ _ _ N0 He'
                    (no_rematch_exits _) Hx E) as (_ & _ & <-).
        inversion Hr; subst. split; [reflexivity | apply exits_are_exits].
    + apply Hcount. apply no_success_exits.
Qed.

(** The code lets two filters accept one delivery when the handler of the
    first ends with the controlled stop: the flag of the call stays unset, the
    second handler runs and [consume] returns its value. *)
Lemma two_filters_accept_one_delivery :
  outcome_of (BaseHandler.consume false Sample.stop_then_answer Sample.hello
                Sample.started) = Return (VStr "b") /\
  List.filter is_Call
    (events_of (BaseHandler.consume false Sample.stop_then_answer Sample.hello
                  Sample.started)) =
    [Call "A" (Sample.seen "id-A"); Call "B" (Sample.seen "id-B")] /\
  ~ at_most_one_filter_accepts false Sample.stop_then_answer Sample.hello Sample.started.
Proof.
  split; [reflexivity | split; [reflexivity |]].
  unfold at_most_one_filter_accepts. vm_compute. intros H.
  inversion H as [| n H1]. inversion H1.
Qed.

Lemma rematch_asserts_and_one_consumer_witness :
  outcome_of (BaseHandler.consume false Sample.both_answer Sample.hello Sample.started) =
    Raise multiple_consumers /\
  List.filter is_Call
    (events_of (BaseHandler.consume false Sample.both_answer Sample.hello
                  Sample.started)) = [Call "A" (Sample.seen "id-A")].
Proof.
  destruct (rematch_asserts_and_one_consumer false Sample.both_answer Sample.hello
              Sample.started) as [Hassert _].
  destruct (Hassert
              (firstn 11 (events_of (BaseHandler.consume false Sample.both_answer
                                       Sample.hello Sample.started)))
              "B" (Sample.seen_again "id-B")
              [ScopeExit "handler_"; LockExit] eq_refl eq_refl) as [Hraise _].
  split; [exact Hraise | reflexivity].
Defined.

(** ** C7: what [consume] returns *)

#[export] Instance accept_first_step : StepRel accept_first.
Proof.
  split.
  - intros s [[H1 H2] | [H1 H2]]; congruence.
  - intros s1 s2 s3 l1 l2 H12 H23 Hpre. rewrite existsb_app. apply orb_true_iff.
    destruct Hpre as [[P1 P3] | [R1 R3]].
    + destruct (processed (vars s2)) eqn:P2; [left; apply H12 | right; apply H23]; auto.
    + destruct (running (env s2)) eqn:R2; [right; apply H23 | left; apply H12]; auto.
Qed.

Lemma accept_first_inert keep s s' l : inert keep s s' l -> accept_first s s' l.
Proof. intros (P & R & _) [[H1 H2] | [H1 H2]]; congruence. Qed.

Lemma accept_first_consume_call opt self msg gl h :
  keeps accept_first (BaseHandler.consume_call opt self msg gl h).
Proof.
  intros s r s' l E. apply consume_call_iterated in E.
  destruct E as [(P & R & _) | (_ & l0 & m & lt & sp & -> & _)].
  - intros [[H1 H2] | [H1 H2]]; congruence.
  - intros _. rewrite existsb_app. simpl. apply orb_true_r.
Qed.

Lemma accept_first_consume_scan opt self msg hs :
  keeps accept_first (BaseHandler.consume_scan opt self msg hs).
Proof.
  unfold BaseHandler.consume_scan. kbind.
  - intros s r s' l E. eapply accept_first_inert. eapply (inert_enter_call true); eauto.
  - intros gl. apply loop_keeps_consume_loop; step_rel_done.
    apply accept_first_consume_call.
Qed.

Lemma value_kept_refl s : running (env s) = true -> value_kept s s [].
Proof. intros R. split; [assumption |]. split; intros Hp; auto. Qed.

Lemma value_kept_trans s1 s2 s3 l1 l2 :
  value_kept s1 s2 l1 -> value_kept s2 s3 l2 -> value_kept s1 s3 (l1 ++ l2).
Proof.
  unfold value_kept, reported.
  intros (R1 & T1 & F1) (R2 & T2 & F2). split; [assumption |].
  rewrite List.filter_app. split.
  - intros Hp. destruct (T1 Hp) as (P2 & M2 & S1). destruct (T2 P2) as (P3 & M3 & S2).
    rewrite S1, S2. repeat split; congruence.
  - intros Hp. destruct (F1 Hp) as [(P2 & M2 & S1) | (P2 & v & n & S1 & Hv)].
    + rewrite S1. simpl.
      destruct (F2 P2) as [(P3 & M3 & S2) | (P3 & v & n & S2 & Hv)].
      * left. repeat split; congruence.
      * right. split; [assumption |]. exists v, n. split; [assumption |].
        destruct Hv as [Hv | [Hv1 Hv2]]; [left; assumption | right; split; congruence].
    + destruct (T2 P2) as (P3 & M3 & S2). rewrite S1, S2. right.
      split; [assumption |]. exists v, n. split; [reflexivity |].
      destruct Hv as [Hv | [Hv1 Hv2]]; [left | right; split]; congruence.
Qed.

(** An iteration that returns and leaves the dispatcher running. *)
Lemma value_kept_consume_call opt self msg gl h s b s' l :
  BaseHandler.consume_call opt self msg gl h s = (Return b, s', l) ->
  running (env s') = true ->
  value_kept s s' l.
Proof.
  unfold value_kept, reported.
  intros E Hrun. apply consume_call_iterated in E.
  destruct E as [(P & R & Mr & Ts & _) |
                 (Hp & l0 & m & lt & sp & -> & T & _ & Hin & Hf & Hcase)].
  - split; [congruence |]. split; intros Hp.
    + repeat split; congruence.
    + left. repeat split; congruence.
  - destruct Hin as (Pp & Rp & K & _). destruct (K eq_refl) as [_ Mp].
    destruct (telling_none _ T) as (Ts & _).
    destruct Hcase as [(_ & P & R & v & S & Hv) |
                       [(_ & _ & R & _) | (e & Hr & _)]];
      [| congruence | discriminate].
    split; [congruence |]. split; [congruence |]. intros _. right.
    split; [assumption |]. exists v, (HandlerItem.call_name h). split.
    + rewrite List.filter_app, Ts. simpl. assumption.
    + destruct Hv as [Hv | [Hv1 Hv2]]; [left | right; split]; congruence.
Qed.

Lemma value_kept_consume_loop opt self msg gl hs : forall s b s' l,
  BaseHandler.consume_loop opt self msg gl hs s = (Return b, s', l) ->
  running (env s') = true ->
  value_kept s s' l.
Proof.
  induction hs as [| h rest IH]; intros s b s' l; simpl.
  - intros E Hrun. inversion E; subst. apply value_kept_refl. assumption.
  - intros E Hrun. apply bind_inv in E.
    destruct E as [(stop & s1 & l1 & l2 & E1 & E2 & ->) | (e & _ & Hr)]; [| discriminate].
    destruct stop.
    + inversion E2; subst. rewrite app_nil_r.
      eapply value_kept_consume_call; eauto.
    + pose proof (IH _ _ _ _ E2 Hrun) as H2.
      eapply value_kept_trans; [| exact H2].
      eapply value_kept_consume_call; [exact E1 |]. destruct H2 as [R _]. exact R.
Qed.

Lemma no_accept_exits cbs : existsb is_accept (map exit_event cbs) = false.
Proof. induction cbs as [| cb rest IH]; simpl; [reflexivity |]. destruct cb; exact IH. Qed.

(** C7, as the code has it.  A dispatcher that is not running returns the
    empty result at once and does nothing.  A running dispatcher returns only
    if some filter accepted the delivery.  And when it returns and is still
    running afterwards, exactly one handler has reported having processed the
    delivery and the value returned is the value that handler reported, which
    may itself be empty. *)
Theorem consume_returns_the_reported_value :
  forall (opt : bool) (self : BaseHandler.t) (msg : value) (w : world),
    let run := BaseHandler.consume opt self msg w in
    (running w = false -> run = (Return VNone, w, [])) /\
    (forall v,
        running w = true -> outcome_of run = Return v ->
        existsb is_accept (events_of run) = true) /\
    (forall v,
        running w = true -> outcome_of run = Return v ->
        running (world_after run) = true ->
        exists n, List.filter is_success (events_of run) = [Trigger n (Some v) None]).
Proof.
  intros opt self msg w run. subst run. rewrite consume_run_scan.
  destruct (running w) eqn:Hw.
  2: { split; [reflexivity |]. split; intros; discriminate. }
  split; [discriminate |].
  destruct (BaseHandler.consume_scan opt self msg (BaseHandler.calls self)
              (BaseHandler.initial_state w)) as [[r s1] l1] eqn:Escan.
  destruct r as [b | e]; [| split; intros; discriminate].
  pose proof (accept_first_consume_scan _ _ _ _ _ _ _ _ Escan) as Hacc.
  destruct (negb (running (env s1)) || processed (vars s1)) eqn:Hcond;
    [| split; intros; discriminate].
  assert (Haccepted : existsb is_accept l1 = true).
  { apply Hacc. simpl. rewrite Hw.
    apply orb_true_iff in Hcond. destruct Hcond as [Hc | Hc].
    - right. split; [reflexivity |]. destruct (running (env s1)); [discriminate | reflexivity].
    - left. auto. }
  assert (Hvalue : running (env s1) = true ->
                   exists n, List.filter is_success l1 =
                               [Trigger n (Some (result_msg (vars s1))) None]).
  { intros Hr. rewrite Hr in Hcond. simpl in Hcond.
    unfold BaseHandler.consume_scan in Escan. apply bind_inv in Escan.
    destruct Escan as [(gl & s0 & l0 & l2 & E1 & E2 & ->) | (e & _ & Habs)];
      [| discriminate].
    apply (inert_enter_call true) in E1.
    destruct E1 as (P0 & _ & K0 & T0). destruct (K0 eq_refl) as [_ M0].
    simpl in P0, M0. destruct (telling_none _ T0) as (Ts0 & _).
    apply value_kept_consume_loop in E2; [| assumption].
    destruct E2 as (_ & _ & F). destruct (F P0) as [(P & _) | (_ & v & n & S & Hv)];
      [congruence |].
    exists n. rewrite List.filter_app, Ts0. simpl. rewrite S.
    destruct Hv as [Hv | [Hv1 Hv2]]; congruence. }
  unfold unwind_events, unwound.
  destruct (log_context_tag (vars s1)); unfold outcome_of, events_of, world_after; simpl;
    (split; [intros v _ _; rewrite !existsb_app, Haccepted; reflexivity |]);
    intros v _ Hv Hr; inversion Hv; subst; destruct (Hvalue Hr) as (n & S);
    exists n; rewrite !List.filter_app, S, no_success_exits; reflexivity.
Qed.

Lemma consume_returns_the_reported_value_witness :
  BaseHandler.consume false Sample.middle_of_three Sample.hello Sample.stopped =
    (Return VNone, Sample.stopped, []) /\
  existsb is_accept
    (events_of (BaseHandler.consume false Sample.middle_of_three Sample.hello
                  Sample.started)) = true /\
  (exists n,
      List.filter is_success
        (events_of (BaseHandler.consume false Sample.middle_of_three Sample.hello
                      Sample.started)) = [Trigger n (Some (VStr "b")) None]).
Proof.
  destruct (consume_returns_the_reported_value false Sample.middle_of_three
              Sample.hello Sample.stopped) as (Hstopped & _ & _).
  destruct (consume_returns_the_reported_value false Sample.middle_of_three
              Sample.hello Sample.started) as (_ & Haccepted & Hvalue).
  split; [apply Hstopped; reflexivity |].
  split; [apply (Haccepted (VStr "b")); reflexivity |].
  apply Hvalue; reflexivity.
Defined.

(** A handler that returns nothing to send makes a running dispatcher return
    the empty result although its filter accepted the delivery. *)
Lemma empty_result_from_a_matched_handler :
  outcome_of (BaseHandler.consume false Sample.silent Sample.hello Sample.started) =
    Return VNone /\
  running Sample.started = true /\
  List.filter is_Call
    (events_of (BaseHandler.consume false Sample.silent Sample.hello Sample.started)) =
    [Call "A" (Sample.seen "id-A")] /\
  ~ empty_only_when_unmatched false Sample.silent Sample.hello Sample.started.
Proof.
  split; [reflexivity | split; [reflexivity | split; [reflexivity |]]].
  unfold empty_only_when_unmatched. intros H.
  destruct (H eq_refl) as [Habs | Habs]; vm_compute in Habs; discriminate.
Qed.

(** * Further properties *)

(** ** The lock *)

Lemma lock_after_app a b l :
  lock_after (a ++ b) l = lock_after b (lock_after a l).
Proof. unfold lock_after. apply fold_left_app. Qed.

Lemma MultiLock_exit_qsize (l : MultiLock.t) :
  MultiLock.qsize (MultiLock.__exit__ l) = pred (MultiLock.qsize l).
Proof.
  destruct l as [[items n]].
  unfold MultiLock.__exit__, MultiLock.qsize, Queue.qsize, Queue.get_nowait.
  destruct items as [| x rest]; simpl; [reflexivity |].
  unfold Queue.task_done. destruct n; reflexivity.
Qed.

(** X1. [__exit__] takes one entry back whatever the state of the queue, and
    never raises: the count of entries goes down by one, also when the
    queue's counter of unfinished tasks is already zero, and on a lock with
    no entry the call changes nothing. *)
Theorem multilock_exit_takes_one_entry_back :
  forall l : MultiLock.t,
    MultiLock.qsize (MultiLock.__exit__ l) = pred (MultiLock.qsize l) /\
    (MultiLock.empty l = true -> MultiLock.__exit__ l = l).
Proof.
  intros l. split; [apply MultiLock_exit_qsize |].
  destruct l as [[items n]]. unfold MultiLock.empty, MultiLock.__exit__. simpl.
  destruct items; [reflexivity | discriminate].
Qed.

Lemma multilock_exit_takes_one_entry_back_witness :
  MultiLock.qsize (MultiLock.__exit__ MultiLock.__init__) = 0 /\
  MultiLock.__exit__ MultiLock.__init__ = MultiLock.__init__.
Proof.
  destruct (multilock_exit_takes_one_entry_back MultiLock.__init__) as [H1 H2].
  split; [exact H1 | apply H2; reflexivity].
Defined.

Lemma lock_after_counts history : forall l,
  Queue.unfinished_tasks (MultiLock.queue l) = MultiLock.qsize l ->
  MultiLock.qsize (lock_after history l) = in_flight history (MultiLock.qsize l) /\
  Queue.unfinished_tasks (MultiLock.queue (lock_after history l)) =
    MultiLock.qsize (lock_after history l).
Proof.
  induction history as [| c rest IH]; intros l Hl; simpl; [auto |].
  destruct c; simpl.
  - destruct (IH (MultiLock.__enter__ l)) as [H1 H2].
    + destruct l as [[items n]]. unfold MultiLock.qsize, Queue.qsize in *. simpl in *.
      rewrite length_app. simpl. lia.
    + split; [| exact H2]. rewrite H1. f_equal.
      destruct l as [[items n]]. unfold MultiLock.qsize, Queue.qsize. simpl.
      rewrite length_app. simpl. lia.
  - destruct (IH (MultiLock.__exit__ l)) as [H1 H2].
    + destruct l as [[items n]]. unfold MultiLock.qsize, Queue.qsize in *. simpl in *.
      unfold MultiLock.__exit__, Queue.get_nowait. simpl.
      destruct items as [| x items]; simpl; [exact Hl |].
      simpl in Hl. subst n. reflexivity.
    + split; [| exact H2]. rewrite H1, MultiLock_exit_qsize. reflexivity.
Qed.

(** X2. After any history of entries and exits of a new lock, [qsize] is the
    number of entries not yet taken back, the queue's counter of unfinished
    tasks equals it (so [task_done] never finds the counter at zero and
    [join] is free exactly when no entry is left), and [empty] tells whether
    it is zero. *)
Theorem multilock_counts_the_entries_in_flight :
  forall history : list lock_call,
    let l := lock_after history MultiLock.__init__ in
    MultiLock.qsize l = in_flight history 0 /\
    Queue.unfinished_tasks (MultiLock.queue l) = MultiLock.qsize l /\
    MultiLock.empty l = Nat.eqb (in_flight history 0) 0.
Proof.
  intros history l.
  destruct (lock_after_counts history MultiLock.__init__ eq_refl) as [H1 H2].
  fold l in H1, H2. change (MultiLock.qsize MultiLock.__init__) with 0 in H1.
  split; [exact H1 | split; [exact H2 |]].
  rewrite <- H1. unfold MultiLock.empty, MultiLock.qsize, Queue.qsize.
  destruct (Queue.items (MultiLock.queue l)); reflexivity.
Qed.

Lemma iter_enter_exit (n : nat) : forall l,
  Nat.iter n MultiLock.__exit__ (Nat.iter n MultiLock.__enter__ l) = l.
Proof.
  induction n as [| n IH]; intros l; [reflexivity |].
  rewrite Nat.iter_succ_r. simpl. rewrite MultiLock_exit_enter. apply IH.
Qed.

(** X3. Entries nest: [n] entries raise [qsize] by [n], and [n] exits after
    them give the lock back as it was, whatever it held before. *)
Theorem multilock_nested_entries_are_given_back :
  forall (n : nat) (l : MultiLock.t),
    MultiLock.qsize (Nat.iter n MultiLock.__enter__ l) = MultiLock.qsize l + n /\
    Nat.iter n MultiLock.__exit__ (Nat.iter n MultiLock.__enter__ l) = l.
Proof.
  intros n l. split; [| apply iter_enter_exit].
  induction n as [| n IH]; simpl; [lia |].
  destruct (Nat.iter n MultiLock.__enter__ l) as [[items k]] eqn:E.
  unfold MultiLock.qsize, Queue.qsize in *. simpl in *.
  rewrite length_app. simpl. lia.
Qed.

(** ** Starting, closing and dispatching *)

Lemma consume_not_running opt self msg w :
  running w = false -> BaseHandler.consume opt self msg w = (Return VNone, w, []).
Proof. intros H. rewrite consume_run, H. reflexivity. Qed.

(** X4. A handler dispatches only between [start] and [close].  The handler
    that [__init__] makes has no call, is not running and holds a lock with
    no entry; whatever is registered on it, a delivery made before [start]
    returns the empty result and does nothing.  [close] never raises, leaves
    the lock and the log context alone and, whatever the graceful timeout,
    leaves a handler on which every delivery returns the empty result and
    does nothing; [start] makes the handler running again. *)
Theorem handler_dispatches_only_between_start_and_close :
  forall (opt : bool) (self : BaseHandler.t) (msg : value),
    (forall builder mws timeout w,
        let made := Registration.__init__ builder mws timeout w in
        BaseHandler.calls (fst made) = [] /\
        running (snd made) = false /\
        MultiLock.empty (lock (snd made)) = true /\
        BaseHandler.consume opt self msg (snd made) = (Return VNone, snd made, []))
    /\
    (forall s,
        exists s',
          BaseHandler.close self s = (Return tt, s', close_events self) /\
          lock (env s') = lock (env s) /\
          log_context (env s') = log_context (env s) /\
          BaseHandler.consume opt self msg (env s') = (Return VNone, env s', []) /\
          exists s'',
            BaseHandler.start self s' = (Return tt, s'', []) /\
            running (env s'') = true /\
            lock (env s'') = lock (env s)).
Proof.
  intros opt self msg. split.
  - intros builder mws timeout w made.
    split; [reflexivity | split; [reflexivity | split; [reflexivity |]]].
    apply consume_not_running. reflexivity.
  - intros s. rewrite close_run. eexists. split; [reflexivity |].
    split; [reflexivity | split; [reflexivity |]].
    split; [apply consume_not_running; reflexivity |].
    eexists. split; [reflexivity |]. split; reflexivity.
Qed.

(** X5. Once a call of [consume] has closed the handler (a controlled stop),
    the next delivery finds it not running: it returns the empty result and
    neither calls a collaborator nor touches the lock. *)
Theorem controlled_stop_silences_later_deliveries :
  forall (opt : bool) (self : BaseHandler.t) (msg msg' : value) (w : world),
    let first := BaseHandler.consume opt self msg w in
    In Close (events_of first) ->
    BaseHandler.consume opt self msg' (world_after first) =
    (Return VNone, world_after first, []).
Proof.
  intros opt self msg msg' w first Hin.
  apply consume_not_running.
  revert Hin. unfold first. rewrite consume_run.
  destruct (running w) eqn:Hrun; [| intros []].
  destruct (BaseHandler.consume_block opt self msg (BaseHandler.initial_state w))
    as [[[u | e] s1] l1] eqn:E1;
    apply stays_closed_consume_block in E1; destruct E1 as [C1 _].
  - destruct (log_context_tag (vars s1)); unfold events_of, world_after; simpl.
    + rewrite in_app_iff. intros [Hin | [Hin | []]]; [auto | discriminate].
    + exact C1.
  - exact C1.
Qed.

Lemma controlled_stop_silences_later_deliveries_witness :
  BaseHandler.consume false Sample.stopping (VStr "again")
    (world_after (BaseHandler.consume false Sample.stopping Sample.hello Sample.started)) =
  (Return VNone,
   world_after (BaseHandler.consume false Sample.stopping Sample.hello Sample.started),
   []).
Proof.
  apply (controlled_stop_silences_later_deliveries false Sample.stopping
           Sample.hello (VStr "again") Sample.started).
  vm_compute. auto 20.
Defined.

Lemma lock_quiet_scan_after_enter opt self msg hs :
  keeps lock_quiet
    (gl <- (BaseHandler.enter_scope "handler_" ;;
            BaseHandler.enter_middlewares msg (BaseHandler.middlewares self)) ;;
     BaseHandler.consume_loop opt self msg gl hs).
Proof.
  unfold BaseHandler.enter_scope.
  kbind; [kbind; [lock_quiet_auto | intros ?; apply lock_quiet_enter_middlewares] | intros gl].
  apply lock_quiet_consume_loop.
Qed.

(** X6. While a delivery is dispatched it is counted in the lock: however far
    the loop over the items has come and however it ends there, the lock
    holds the entry of the call on top of what it held before, and nothing
    has taken it back. *)
Theorem delivery_is_in_flight_while_dispatched :
  forall (opt : bool) (self : BaseHandler.t) (msg : value)
         (hs : list HandlerItem.t) (w : world),
    let scan := BaseHandler.consume_scan opt self msg hs (BaseHandler.initial_state w) in
    lock (env (snd (fst scan))) = MultiLock.__enter__ (lock w) /\
    MultiLock.qsize (lock (env (snd (fst scan)))) = S (MultiLock.qsize (lock w)) /\
    count_events is_LockExit (snd scan) = 0.
Proof.
  intros opt self msg hs w scan.
  assert (Hs : scan =
    (BaseHandler.enter_lock ;;
     gl <- (BaseHandler.enter_scope "handler_" ;;
            BaseHandler.enter_middlewares msg (BaseHandler.middlewares self)) ;;
     BaseHandler.consume_loop opt self msg gl hs) (BaseHandler.initial_state w)).
  { unfold scan, BaseHandler.consume_scan, BaseHandler.enter_call.
    rewrite !bind_assoc. reflexivity. }
  rewrite Hs. erewrite bind_return by apply enter_lock_run.
  match goal with |- context [bind ?m ?f ?s0] => destruct (bind m f s0) as [[r1 s1] l1] eqn:E1 end.
  apply lock_quiet_scan_after_enter in E1.
  destruct E1 as (_ & _ & Hl & _ & He); [intros [] | intros [] |].
  simpl in Hl. simpl. rewrite Hl.
  split; [reflexivity |]. split.
  - destruct (lock w) as [[items n]]. unfold MultiLock.qsize, Queue.qsize. simpl.
    rewrite length_app. simpl. lia.
  - unfold count_events. simpl.
    assert (Hq : forall x, List.filter lock_event x = [] -> List.filter is_LockExit x = []).
    { clear. induction x as [| e x IH]; simpl; [auto |].
      unfold lock_event at 1. destruct e; simpl; try discriminate; auto. }
    rewrite (Hq _ He). reflexivity.
Qed.

(** ** Failures on the way to the handler *)

Lemma enter_middlewares_run_raise msg pre f post s e :
  enter_ok (instantiate msg pre) ->
  BaseMiddleware.__aenter__ (f msg) = Raise e ->
  BaseHandler.enter_middlewares msg (pre ++ f :: post) s =
  (Raise e,
   {| vars := set_stack v_stack
                (middleware_exits (instantiate msg pre) ++ stack (vars s)) (vars s);
      env := env s |},
   enter_events (instantiate msg pre) ++
   [MiddlewareEnter (BaseMiddleware.name (f msg))]).
Proof.
  revert s. induction pre as [| m rest IH]; intros s Hok Hf; simpl.
  - unfold BaseHandler.enter_async_context.
    unfold bind at 1. unfold bind at 1. unfold emit at 1.
    unfold bind at 1. unfold await at 1. rewrite Hf.
    destruct s as [[] ?]; reflexivity.
  - inversion Hok as [| x xs Hm Hrest]; subst.
    unfold BaseHandler.enter_async_context.
    unfold bind at 1. unfold bind at 1. unfold emit at 1.
    unfold bind at 1. unfold await at 1. rewrite Hm.
    unfold bind at 1. unfold push at 1, modify_vars at 1. simpl.
    unfold bind at 1. rewrite IH by assumption. simpl.
    unfold middleware_exits. simpl. rewrite <- app_assoc. simpl.
    rewrite set_stack_twice. reflexivity.
Qed.

(** X7. When one of the handler's own middlewares cannot be entered, the
    delivery is abandoned before any item is looked at: [consume] raises the
    middleware's exception, the middlewares entered before it are exited in
    reverse order, the middlewares after it are never entered, no parser is
    called, and the scope and the lock of the call are left as on any other
    path. *)
Theorem failing_global_middleware_abandons_the_delivery :
  forall (opt : bool) (self : BaseHandler.t) (msg : value) (w : world)
         (pre post : list (value -> BaseMiddleware.t))
         (f : value -> BaseMiddleware.t) (e : exn),
    running w = true ->
    BaseHandler.middlewares self = pre ++ f :: post ->
    enter_ok (instantiate msg pre) ->
    BaseMiddleware.__aenter__ (f msg) = Raise e ->
    BaseHandler.consume opt self msg w =
    (Raise e, w,
     (LockEnter :: ScopeEnter "handler_" ::
      enter_events (instantiate msg pre) ++
      [MiddlewareEnter (BaseMiddleware.name (f msg))]) ++
     map exit_event (middleware_exits (instantiate msg pre)) ++
     [ScopeExit "handler_"; LockExit]).
Proof.
  intros opt self msg w pre post f e Hrun Hmw Hok Hf.
  rewrite consume_run_scan, Hrun.
  unfold BaseHandler.consume_scan. unfold bind at 1.
  unfold BaseHandler.enter_call.
  unfold bind at 1. rewrite enter_lock_run.
  unfold bind at 1. unfold BaseHandler.enter_scope at 1.
  unfold bind at 1. unfold emit at 1. unfold push at 1, modify_vars at 1.
  rewrite Hmw, (enter_middlewares_run_raise _ _ _ _ _ _ Hok Hf). simpl.
  unfold unwound, unwind_events. simpl.
  rewrite unwind_lock_app, unwind_lock_middleware_exits. simpl.
  rewrite MultiLock_exit_enter, map_app. simpl.
  destruct w; reflexivity.
Qed.

Lemma failing_global_middleware_abandons_the_delivery_witness :
  BaseHandler.consume false Faulty.guarded Sample.hello Sample.started =
  (Raise (Exception "down"), Sample.started,
   [LockEnter; ScopeEnter "handler_"; MiddlewareEnter "g"; MiddlewareEnter "x";
    MiddlewareExit "g"; ScopeExit "handler_"; LockExit]).
Proof.
  apply (failing_global_middleware_abandons_the_delivery false Faulty.guarded
           Sample.hello Sample.started [Sample.marking "g"] [Sample.marking "h"]
           (Faulty.broken "x") (Exception "down")).
  - reflexivity.
  - reflexivity.
  - repeat constructor.
  - reflexivity.
Defined.

#[export] Instance unreached_step : StepRel unreached.
Proof.
  split.
  - intros s. reflexivity.
  - intros s1 s2 s3 l1 l2 H1 H2. unfold unreached in *.
    rewrite List.filter_app, H1, H2. reflexivity.
Qed.

Lemma unreached_enter_middlewares msg ms :
  keeps unreached (BaseHandler.enter_middlewares msg ms).
Proof.
  induction ms as [| m rest IH]; simpl.
  - repeat keeps_step.
  - unfold BaseHandler.enter_async_context, push.
    kbind; [repeat keeps_step; intros; reflexivity | intros x].
    kbind; [exact IH | intros xs]. repeat keeps_step.
Qed.

Lemma unreached_prepare self msg gl h :
  keeps unreached (BaseHandler.prepare self msg gl h).
Proof.
  unfold BaseHandler.prepare.
  kbind; [apply unreached_enter_middlewares | intros ?].
  unfold context.set_local.
  repeat keeps_step; intros; reflexivity.
Qed.

(** X8. What raises while an item is prepared (one of its middlewares being
    entered, its parser, its decoder, its filter, or the assertion on a
    second match) is raised by [consume] to its caller as it is, and is not
    reported: for this item no handler is called, nothing is published,
    [trigger] is not called and the handler is not closed. *)
Theorem errors_before_the_handler_are_not_reported :
  forall (opt : bool) (self : BaseHandler.t) (msg : value) (w : world)
         (pre post : list HandlerItem.t) (h : HandlerItem.t)
         (s1 s2 : state) (l1 l2 : list event) (e : exn),
    running w = true ->
    BaseHandler.calls self = pre ++ h :: post ->
    BaseHandler.consume_scan opt self msg pre (BaseHandler.initial_state w) =
      (Return false, s1, l1) ->
    BaseHandler.prepare self msg (instantiate msg (BaseHandler.middlewares self)) h s1 =
      (Raise e, s2, l2) ->
    BaseHandler.consume opt self msg w =
      (Raise e, unwound s2, (l1 ++ l2) ++ unwind_events s2) /\
    List.filter reaches_handler (l2 ++ unwind_events s2) = [].
Proof.
  intros opt self msg w pre post h s1 s2 l1 l2 e Hrun Hcalls Hscan Hprep.
  split.
  - rewrite consume_run_scan, Hrun, Hcalls.
    rewrite (consume_scan_app _ _ _ _ _ _ _ _ Hscan). simpl.
    unfold bind at 1. unfold BaseHandler.consume_call. unfold bind at 1.
    rewrite Hprep. reflexivity.
  - rewrite List.filter_app.
    rewrite (unreached_prepare _ _ _ _ _ _ _ _ Hprep).
    unfold unwind_events. rewrite filter_exit_events; [reflexivity |].
    intros []; reflexivity.
Qed.

Lemma errors_before_the_handler_are_not_reported_witness :
  BaseHandler.consume false Faulty.garbling Sample.hello Sample.started =
  (Raise (Exception "garbled"), Sample.started,
   [LockEnter; ScopeEnter "handler_"; Parse "A"; ScopeExit "handler_"; LockExit]).
Proof.
  edestruct (errors_before_the_handler_are_not_reported false Faulty.garbling
               Sample.hello Sample.started [] [] Faulty.unparsable)
    as [Hrun _];
    [reflexivity | reflexivity | reflexivity | reflexivity |].
  rewrite Hrun. reflexivity.
Defined.

(** ** Failures while publishing *)

(** X9. Publishing stops at the first publisher that fails.  When the
    handler has returned a result and the publishers before [p] have taken
    it, an exception of [p] other than the controlled stop ends the [try]
    statement: the publishers after [p] are not called, the failure is
    reported with [trigger] like a failure of the handler itself, the
    delivery is not marked as processed, and the exception is raised. *)
Theorem publishing_stops_at_the_first_failure :
  forall (opt : bool) (self : BaseHandler.t) (h : HandlerItem.t)
         (ms : list BaseMiddleware.t) (message : StreamMessage.t) (s : state)
         (body res out : value) (pr : option PublisherProtocol.t)
         (pre post : list PublisherProtocol.t) (p : PublisherProtocol.t) (e : exn),
    let cid := StreamMessage.correlation_id message in
    let evs :=
      (call_events h ms message body ++
       publish_all_events ms res out cid (pre ++ [p])) ++
      [Trigger (HandlerItem.call_name h) None (error_arg e)] in
    wrap_consume ms (StreamMessage.decoded_body message) = Return body ->
    HandlerCallWrapper.call_wrapped (HandlerItem.handler h)
      (StreamMessage.set_decoded_body message body) = Return (Some (res, pr)) ->
    wrap_publish ms res = Return out ->
    targets pr h = pre ++ p :: post ->
    publish_ok out cid pre ->
    PublisherProtocol.publish p out cid = Raise e ->
    e <> StopConsume ->
    (exists s',
        BaseHandler.process opt self h ms message s = (Raise e, s', evs) /\
        processed (vars s') = processed (vars s)) /\
    List.filter is_Publish evs =
      map (fun q => Publish (PublisherProtocol.name q) out cid) (pre ++ [p]).
Proof.
  intros opt self h ms message s body res out pr pre post p e cid evs
    Hw Hc Hp Ht Hok Hpub Hne.
  split.
  - unfold BaseHandler.process, try_except_else, BaseHandler.try_body.
    unfold bind at 1. rewrite (call_handler_run _ _ _ _ _ Hw), Hc.
    unfold bind at 1. unfold modify_vars at 1.
    rewrite (targets_cons pr h _ eq_refl), Ht.
    rewrite (publish_all_run_raise _ _ _ _ _ _ _ _ _ Hp Hok Hpub). simpl.
    eexists. split.
    + destruct e; try congruence;
        unfold bind, BaseHandler.trigger, emit, raise; simpl; reflexivity.
    + reflexivity.
  - unfold evs. rewrite !List.filter_app.
    rewrite filter_call_events by kind_of_event.
    rewrite filter_publish_all_events by kind_of_event.
    simpl. rewrite app_nil_r.
    induction (pre ++ [p]) as [| q qs IH]; simpl; [reflexivity |].
    rewrite IH. reflexivity.
Qed.

Lemma publishing_stops_at_the_first_failure_witness :
  exists s',
    BaseHandler.process false (Sample.dispatcher [Faulty.fan_out] [])
      Faulty.fan_out [] (Sample.seen "id-A")
      (BaseHandler.initial_state Sample.started) =
    (Raise (Exception "refused"), s',
     [Call "A" (Sample.seen "id-A");
      Publish "p1" (VStr "a") "id-A"; Publish "p2" (VStr "a") "id-A";
      Trigger "A" None (Some (Exception "refused"))]) /\
    processed (vars s') = false.
Proof.
  apply (publishing_stops_at_the_first_failure false
           (Sample.dispatcher [Faulty.fan_out] []) Faulty.fan_out []
           (Sample.seen "id-A") (BaseHandler.initial_state Sample.started)
           Sample.hello (VStr "a") (VStr "a") None
           [Sample.publisher "p1"] [Sample.publisher "p3"]
           (Faulty.refusing "p2") (Exception "refused"));
    [ reflexivity | reflexivity | reflexivity | reflexivity
    | repeat constructor | reflexivity | discriminate ].
Defined.

(** ** Failures of a consume scope *)

Lemma enter_consume_scopes_run_raise pre m post message s mid e :
  wrap_consume pre (StreamMessage.decoded_body message) = Return mid ->
  BaseMiddleware.consume_scope m mid = Raise e ->
  BaseHandler.enter_consume_scopes (pre ++ m :: post) message s =
  (Raise e,
   {| vars := set_stack v_consume_stack
                (consume_scope_exits pre ++ consume_stack (vars s)) (vars s);
      env := env s |},
   consume_scope_events pre (StreamMessage.decoded_body message) ++
   [ConsumeScopeEnter (BaseMiddleware.name m) mid]).
Proof.
  revert message s. induction pre as [| x rest IH]; intros message s; simpl.
  - intros E Hm; inversion E; subst.
    unfold bind at 1. unfold emit at 1.
    unfold bind at 1. unfold await at 1. rewrite Hm.
    destruct s as [[] ?]; reflexivity.
  - destruct (BaseMiddleware.consume_scope x (StreamMessage.decoded_body message))
      as [b | e0] eqn:Ex; [| discriminate].
    intros Hw Hm.
    unfold bind at 1. unfold emit at 1.
    unfold bind at 1. unfold await at 1.
    unfold bind at 1. unfold push at 1, modify_vars at 1.
    rewrite (IH (StreamMessage.set_decoded_body message b) _ Hw Hm). simpl.
    unfold consume_scope_exits. simpl. rewrite <- app_assoc. simpl.
    rewrite set_stack_twice. reflexivity.
Qed.

(** X23. A consume scope that raises prevents the call of the handler and is
    reported like a failure of the handler.  When the consume scopes of the
    middlewares before [m] have wrapped the body and the one of [m] raises
    an exception other than the controlled stop, the scopes entered are left
    in reverse order, the handler is not called, nothing is published,
    [trigger] is called with the error, the delivery is not marked as
    processed and the exception is raised. *)
Theorem failing_consume_scope_prevents_the_call :
  forall (opt : bool) (self : BaseHandler.t) (h : HandlerItem.t)
         (pre post : list BaseMiddleware.t) (m : BaseMiddleware.t)
         (message : StreamMessage.t) (s : state) (mid : value) (e : exn),
    let evs :=
      (consume_scope_events pre (StreamMessage.decoded_body message) ++
       [ConsumeScopeEnter (BaseMiddleware.name m) mid] ++
       map exit_event (consume_scope_exits pre)) ++
      [Trigger (HandlerItem.call_name h) None (error_arg e)] in
    wrap_consume pre (StreamMessage.decoded_body message) = Return mid ->
    BaseMiddleware.consume_scope m mid = Raise e ->
    e <> StopConsume ->
    (exists s',
        BaseHandler.process opt self h (pre ++ m :: post) message s =
          (Raise e, s', evs) /\
        processed (vars s') = processed (vars s) /\
        result_msg (vars s') = result_msg (vars s)) /\
    List.filter is_Call evs = [] /\
    List.filter is_Publish evs = [].
Proof.
  intros opt self h pre post m message s mid e evs Hw Hm Hne.
  split; [| split].
  - unfold BaseHandler.process, try_except_else, BaseHandler.try_body,
      BaseHandler.call_handler.
    unfold bind at 1. rewrite AsyncExitStack_run.
    unfold bind at 1. rewrite (enter_consume_scopes_run_raise _ _ _ _ _ _ _ Hw Hm).
    simpl. rewrite app_nil_r, unwind_lock_consume_exits, set_lock_same.
    eexists. split.
    + unfold evs. rewrite <- !app_assoc. simpl.
      destruct e; try congruence;
        unfold bind, BaseHandler.trigger, emit, raise; simpl;
        rewrite <- ?app_assoc; simpl; reflexivity.
    + destruct e; try congruence; split; reflexivity.
  - unfold evs. rewrite !List.filter_app.
    rewrite filter_consume_scope_events, filter_exit_events by kind_of_event.
    reflexivity.
  - unfold evs. rewrite !List.filter_app.
    rewrite filter_consume_scope_events, filter_exit_events by kind_of_event.
    reflexivity.
Qed.

Lemma failing_consume_scope_prevents_the_call_witness :
  exists s',
    BaseHandler.process false Sample.middle_of_three Sample.item_B
      [Sample.marking "g" Sample.hello; Faulty.choking "c" Sample.hello;
       Sample.marking "l" Sample.hello]
      (Sample.seen "id-B") (BaseHandler.initial_state Sample.started) =
    (Raise (Exception "choked"), s',
     [ConsumeScopeEnter "g" Sample.hello; ConsumeScopeEnter "c" Sample.hello;
      ConsumeScopeExit "g"; Trigger "B" None (Some (Exception "choked"))]) /\
    processed (vars s') = false /\
    result_msg (vars s') = VNone.
Proof.
  apply (failing_consume_scope_prevents_the_call false Sample.middle_of_three
           Sample.item_B [Sample.marking "g" Sample.hello]
           [Sample.marking "l" Sample.hello] (Faulty.choking "c" Sample.hello)
           (Sample.seen "id-B") (BaseHandler.initial_state Sample.started)
           Sample.hello (Exception "choked"));
    [reflexivity | reflexivity | discriminate].
Defined.

(** ** Reports to the watcher *)

#[export] Instance unreported_step : StepRel unreported.
Proof.
  split.
  - intros s. reflexivity.
  - intros s1 s2 s3 l1 l2 H1 H2. unfold unreported in *.
    rewrite List.filter_app, H1, H2. reflexivity.
Qed.

Lemma unreported_emit e : is_Trigger e = false -> keeps unreported (emit e).
Proof.
  intros He. apply keeps_emit; step_rel_done. intros s.
  unfold unreported. simpl. rewrite He. reflexivity.
Qed.

Lemma unreported_push v cb : keeps unreported (push v cb).
Proof. unfold push. apply keeps_modify_vars; step_rel_done. intros s. reflexivity. Qed.

Lemma unreported_stack {A} v (body : M A) :
  keeps unreported body -> keeps unreported (AsyncExitStack v body).
Proof.
  intros Hb s r s' l E. rewrite AsyncExitStack_run in E.
  destruct (body _) as [[r1 s1] l1] eqn:E1. inversion E; subst; clear E.
  apply Hb in E1. unfold unreported in *.
  rewrite List.filter_app, E1, filter_exit_events; [reflexivity |].
  intros []; reflexivity.
Qed.

Lemma unreported_plain e : plain_event e = true -> keeps unreported (emit e).
Proof. intros He. apply unreported_emit. destruct e; try discriminate; reflexivity. Qed.

Lemma unreported_enter_middlewares msg ms :
  keeps unreported (BaseHandler.enter_middlewares msg ms).
Proof.
  apply loop_keeps_enter_middlewares; step_rel_done.
  - apply unreported_plain.
  - intros v cb _. apply unreported_push.
Qed.

Lemma unreported_prepare self msg gl h :
  keeps unreported (BaseHandler.prepare self msg gl h).
Proof.
  apply loop_keeps_prepare; step_rel_done.
  - apply unreported_plain.
  - intros n m accepted. apply unreported_emit. reflexivity.
  - intros v cb _. apply unreported_push.
  - intros k v s r s' l E. inversion E; subst. reflexivity.
Qed.

Lemma unreported_try_body h ms message :
  keeps unreported (BaseHandler.try_body h ms message).
Proof.
  apply loop_keeps_try_body; step_rel_done.
  - apply unreported_plain.
  - intros v cb _. apply unreported_push.
  - intros A v body _. apply unreported_stack.
  - intros r. apply keeps_modify_vars; step_rel_done. intros s. reflexivity.
  - intros v. apply keeps_modify_vars; step_rel_done. intros s. reflexivity.
Qed.

Lemma unreported_enter_call self msg :
  keeps unreported (BaseHandler.enter_call self msg).
Proof.
  unfold BaseHandler.enter_call, BaseHandler.enter_lock, BaseHandler.enter_scope.
  kbind; [| intros ?; kbind; [| intros ?; apply unreported_enter_middlewares]].
  - kbind; [apply unreported_emit; reflexivity | intros ?].
    kbind; [| intros ?; apply unreported_push].
    apply keeps_modify_env; step_rel_done. intros s. reflexivity.
  - kbind; [apply unreported_emit; reflexivity | intros ?]. apply unreported_push.
Qed.

(** The [try] statement reports once, however it ends. *)
Lemma process_reports_once opt self h ms message s r s' l :
  BaseHandler.process opt self h ms message s = (r, s', l) ->
  count_events is_Trigger l = 1.
Proof.
  unfold BaseHandler.process, try_except_else, count_events.
  destruct (BaseHandler.try_body h ms message s) as [[rb sb] lb] eqn:Eb.
  apply unreported_try_body in Eb. unfold unreported in Eb.
  destruct rb as [[] | e].
  - unfold bind, get_vars, BaseHandler.trigger, emit, modify_vars, ret. simpl.
    intros E. inversion E; subst; clear E.
    rewrite List.filter_app, Eb. reflexivity.
  - destruct e; unfold bind; rewrite ?close_run;
      unfold BaseHandler.trigger, emit, raise, ret; simpl;
      intros E; inversion E; subst; clear E;
      rewrite ?List.filter_app, Eb; unfold close_events;
      try (destruct (BaseHandler.graceful_timeout self) as [[| n] |]);
      reflexivity.
Qed.

Lemma no_Filtered_no_attempt l :
  List.filter is_Filtered l = [] -> List.filter is_attempt l = [].
Proof.
  induction l as [| e rest IH]; simpl; [auto |].
  destruct e; simpl; try discriminate; auto.
Qed.

#[export] Instance reported_once_step : StepRel reported_once.
Proof.
  split.
  - intros s. reflexivity.
  - intros s1 s2 s3 l1 l2 H1 H2. unfold reported_once, count_events in *.
    rewrite !List.filter_app, !length_app, H1, H2. reflexivity.
Qed.

Lemma quiet_reported_once (s s' : state) l :
  List.filter is_Trigger l = [] -> List.filter is_Filtered l = [] ->
  reported_once s s' l.
Proof.
  intros Ht Hf. unfold reported_once, count_events.
  rewrite Ht, (no_Filtered_no_attempt _ Hf). reflexivity.
Qed.

Lemma reported_once_consume_call opt self msg gl h :
  keeps reported_once (BaseHandler.consume_call opt self msg gl h).
Proof.
  intros s r s' l E. unfold BaseHandler.consume_call in E. apply bind_inv in E.
  destruct E as [(a & s1 & l1 & l2 & E1 & E2 & ->) | (e & E1 & _)].
  - pose proof (unreported_prepare _ _ _ _ _ _ _ _ E1) as Hnt.
    unfold unreported in Hnt.
    apply prepare_cases in E1.
    destruct E1 as [(_ & e & He) | (l0 & m & acc & -> & Hin & Hm & Hc)];
      [discriminate |].
    destruct Hin as (_ & _ & _ & Tl).
    destruct (telling_none _ Tl) as (_ & Tf & _).
    pose proof (no_Filtered_no_attempt _ Tf) as Ta.
    rewrite List.filter_app in Hnt. simpl in Hnt. rewrite app_nil_r in Hnt.
    destruct Hc as [(-> & Ha) | [(_ & _ & Hr) | (-> & Hp & ms' & m' & Ha)]];
      try discriminate.
    + inversion Ha; subst. inversion E2; subst.
      unfold reported_once, count_events.
      rewrite app_nil_r, !List.filter_app, Hnt, Ta. reflexivity.
    + inversion Ha; subst.
      pose proof (process_reports_once _ _ _ _ _ _ _ _ _ E2) as Hone.
      apply process_tried in E2. destruct E2 as [Hf2 _].
      unfold reported_once, count_events in *.
      rewrite !List.filter_app, !length_app, Hnt, Hone, Ta.
      rewrite (no_Filtered_no_attempt _ Hf2).
      simpl. rewrite Hm, Hp. reflexivity.
  - pose proof (unreported_prepare _ _ _ _ _ _ _ _ E1) as Hnt.
    unfold unreported in Hnt.
    apply prepare_cases in E1.
    destruct E1 as [((_ & _ & _ & Tl) & _) | (l0 & m & acc & -> & Hin & Hm & Hc)].
    + destruct (telling_none _ Tl) as (_ & Tf & _).
      apply quiet_reported_once; assumption.
    + destruct Hin as (_ & _ & _ & Tl).
      destruct (telling_none _ Tl) as (_ & Tf & _).
      pose proof (no_Filtered_no_attempt _ Tf) as Ta.
      rewrite List.filter_app in Hnt. simpl in Hnt. rewrite app_nil_r in Hnt.
      destruct Hc as [(_ & Hr) | [(-> & Hp & _) | (_ & _ & ms' & m' & Hr)]];
        try discriminate.
      unfold reported_once, count_events.
      rewrite !List.filter_app, Hnt, Ta. simpl. rewrite Hm, Hp. reflexivity.
Qed.

Lemma reported_once_consume_scan opt self msg hs :
  keeps reported_once (BaseHandler.consume_scan opt self msg hs).
Proof.
  unfold BaseHandler.consume_scan. kbind.
  - intros s r s' l E. apply quiet_reported_once.
    + eapply unreported_enter_call; eauto.
    + apply (inert_enter_call true) in E. destruct E as (_ & _ & _ & Tl).
      apply telling_none in Tl. tauto.
  - intros gl. apply loop_keeps_consume_loop; step_rel_done.
    apply reported_once_consume_call.
Qed.

(** X10. No attempt is reported to the watcher twice, and nothing else is
    reported.  In any call of [consume], [trigger] is called at most as many
    times as a filter accepted a delivery that was not yet processed, so
    never for an item whose filter rejected or was not reached; and when
    [consume] returns, every one of these attempts was reported, exactly
    once: with a result, or with no argument after a controlled stop.  The
    bound is stated as an equality for the calls that return only: a signal
    that is no [Exception], which [exn] leaves out, would end the [try]
    statement of an attempt, and the call, with no report. *)
Theorem attempts_are_reported_at_most_once :
  forall (opt : bool) (self : BaseHandler.t) (msg : value) (w : world),
    let run := BaseHandler.consume opt self msg w in
    count_events is_Trigger (events_of run) <=
    count_events is_attempt (events_of run) /\
    (forall v,
        outcome_of run = Return v ->
        count_events is_Trigger (events_of run) =
        count_events is_attempt (events_of run)).
Proof.
  intros opt self msg w run.
  assert (H : count_events is_Trigger (events_of run) =
              count_events is_attempt (events_of run)).
  { unfold run. rewrite consume_run_scan.
    destruct (running w); [| reflexivity].
    destruct (BaseHandler.consume_scan opt self msg (BaseHandler.calls self)
                (BaseHandler.initial_state w)) as [[r s1] l1] eqn:E.
    apply reported_once_consume_scan in E.
    unfold reported_once, count_events in E.
    assert (Hx : forall p, (forall cb, p (exit_event cb) = false) ->
                 List.filter p (unwind_events s1) = []).
    { intros p Hp. unfold unwind_events. apply filter_exit_events. exact Hp. }
    assert (Ht : List.filter is_Trigger (unwind_events s1) = [])
      by (apply Hx; intros []; reflexivity).
    assert (Ha : List.filter is_attempt (unwind_events s1) = [])
      by (apply Hx; intros []; reflexivity).
    destruct r as [b | e].
    - destruct (negb (running (env s1)) || processed (vars s1)).
      + destruct (log_context_tag (vars s1)); unfold events_of, count_events; simpl;
          rewrite !List.filter_app, !length_app, Ht, Ha, E; reflexivity.
      + unfold events_of, count_events; simpl.
        rewrite !List.filter_app, !length_app, Ht, Ha, E; reflexivity.
    - unfold events_of, count_events; simpl.
      rewrite !List.filter_app, !length_app, Ht, Ha, E; reflexivity. }
  split; [rewrite H; apply Nat.le_refl | intros v _; exact H].
Qed.

Lemma attempts_are_reported_at_most_once_witness :
  count_events is_Trigger
    (events_of (BaseHandler.consume false Sample.stop_then_answer Sample.hello
                  Sample.started)) = 2 /\
  count_events is_attempt
    (events_of (BaseHandler.consume false Sample.stop_then_answer Sample.hello
                  Sample.started)) = 2.
Proof.
  destruct (attempts_are_reported_at_most_once false Sample.stop_then_answer
              Sample.hello Sample.started) as [_ Hreturned].
  specialize (Hreturned (VStr "b") eq_refl).
  split; [rewrite Hreturned |]; reflexivity.
Defined.

(** ** Calls of the handlers *)

#[export] Instance uncalled_step : StepRel uncalled.
Proof.
  split.
  - intros s. reflexivity.
  - intros s1 s2 s3 l1 l2 H1 H2. unfold uncalled in *.
    rewrite List.filter_app, H1, H2. reflexivity.
Qed.

Lemma uncalled_stack {A} v (body : M A) :
  keeps uncalled body -> keeps uncalled (AsyncExitStack v body).
Proof.
  intros Hb s r s' l E. rewrite AsyncExitStack_run in E.
  destruct (body _) as [[r1 s1] l1] eqn:E1. inversion E; subst; clear E.
  apply Hb in E1. unfold uncalled in *.
  rewrite List.filter_app, E1, filter_exit_events; [reflexivity |].
  intros []; reflexivity.
Qed.

Ltac uncalled_auto :=
  repeat first [ apply uncalled_stack | keeps_step ];
  try (intros; reflexivity).

Lemma uncalled_enter_consume_scopes ms message :
  keeps uncalled (BaseHandler.enter_consume_scopes ms message).
Proof.
  revert message. induction ms as [| m rest IH]; intros message; simpl.
  - uncalled_auto.
  - unfold push. do 3 (kbind; [uncalled_auto | intros ?]). apply IH.
Qed.

Lemma uncalled_enter_publish_scopes ms v :
  keeps uncalled (BaseHandler.enter_publish_scopes ms v).
Proof.
  revert v. induction ms as [| m rest IH]; intros v; simpl.
  - uncalled_auto.
  - unfold push. do 3 (kbind; [uncalled_auto | intros ?]). apply IH.
Qed.

Lemma uncalled_publish_all ms message v pubs :
  keeps uncalled (BaseHandler.publish_all ms message v pubs).
Proof.
  induction pubs as [| [p |] rest IH]; simpl.
  - uncalled_auto.
  - kbind; [| intros ?; exact IH].
    unfold BaseHandler.publish_one. apply uncalled_stack.
    kbind; [apply uncalled_enter_publish_scopes | intros ?].
    uncalled_auto.
  - exact IH.
Qed.

(** The handler is called at most once in a [try] statement. *)
Lemma try_body_calls_once h ms message s r s' l :
  BaseHandler.try_body h ms message s = (r, s', l) ->
  count_events is_Call l <= 1.
Proof.
  unfold BaseHandler.try_body, BaseHandler.call_handler, count_events. intros E.
  apply bind_inv in E.
  assert (Hcall : forall s0 r0 s1 l1,
    AsyncExitStack v_consume_stack
      (message' <- BaseHandler.enter_consume_scopes ms message ;;
       emit (Call (HandlerItem.call_name h) message') ;;
       r1 <- await (HandlerCallWrapper.call_wrapped (HandlerItem.handler h) message') ;;
       modify_vars (set_result r1) ;; ret r1) s0 = (r0, s1, l1) ->
    length (List.filter is_Call l1) <= 1).
  { intros s0 r0 s1 l1 E0. rewrite AsyncExitStack_run in E0.
    match type of E0 with
    | context [bind ?m ?f ?x] => destruct (bind m f x) as [[rb sb] lb] eqn:Eb
    end.
    inversion E0; subst; clear E0.
    rewrite List.filter_app, filter_exit_events by (intros []; reflexivity).
    rewrite app_nil_r.
    apply bind_inv in Eb.
    destruct Eb as [(m' & sa & la & lc & Ea & Ec & ->) | (e & Ea & _)].
    - apply uncalled_enter_consume_scopes in Ea. unfold uncalled in Ea.
      rewrite List.filter_app, Ea. simpl.
      unfold bind, emit, await, modify_vars, ret in Ec.
      destruct (HandlerCallWrapper.call_wrapped _ _); inversion Ec; subst; simpl; lia.
    - apply uncalled_enter_consume_scopes in Ea. unfold uncalled in Ea.
      rewrite Ea. simpl. lia. }
  destruct E as [(a & s1 & l1 & l2 & E1 & E2 & ->) | (e & E1 & _)].
  - apply Hcall in E1.
    assert (H2 : List.filter is_Call l2 = []).
    { destruct a as [[v p] |].
      - apply bind_inv in E2.
        destruct E2 as [(u & s2 & la & lb & Ea & Eb & ->) | (e & Ea & _)].
        + inversion Ea; subst. simpl.
          apply (uncalled_publish_all _ _ _ _ _ _ _ _ Eb).
        + inversion Ea.
      - inversion E2. reflexivity. }
    rewrite List.filter_app, H2, app_nil_r. exact E1.
  - apply Hcall in E1. exact E1.
Qed.

#[export] Instance called_and_reported_step : StepRel called_and_reported.
Proof.
  split.
  - intros s. unfold called_and_reported, count_events. simpl. lia.
  - intros s1 s2 s3 l1 l2 H1 H2. unfold called_and_reported, count_events in *.
    rewrite !List.filter_app, !length_app. lia.
Qed.

Lemma called_and_reported_process opt self h ms message :
  keeps called_and_reported (BaseHandler.process opt self h ms message).
Proof.
  intros s r s' l E. unfold called_and_reported.
  rewrite (process_reports_once _ _ _ _ _ _ _ _ _ E).
  revert E. unfold BaseHandler.process, try_except_else, count_events.
  destruct (BaseHandler.try_body h ms message s) as [[rb sb] lb] eqn:Eb.
  apply try_body_calls_once in Eb. unfold count_events in Eb.
  destruct rb as [[] | e].
  - unfold bind, get_vars, BaseHandler.trigger, emit, modify_vars, ret. simpl.
    intros E. inversion E; subst; clear E.
    rewrite List.filter_app. simpl. rewrite app_nil_r. exact Eb.
  - destruct e; unfold bind; rewrite ?close_run;
      unfold BaseHandler.trigger, emit, raise, ret; simpl;
      intros E; inversion E; subst; clear E;
      rewrite ?List.filter_app; unfold close_events;
      try (destruct (BaseHandler.graceful_timeout self) as [[| n] |]);
      simpl; rewrite ?app_nil_r; exact Eb.
Qed.

Lemma unreached_uncalled l :
  List.filter reaches_handler l = [] -> List.filter is_Call l = [].
Proof.
  induction l as [| e rest IH]; simpl; [auto |].
  unfold reaches_handler at 1.
  destruct (is_Call e); simpl; [discriminate |].
  destruct (is_Publish e || is_Trigger e || is_Close e); [discriminate | exact IH].
Qed.

Lemma called_and_reported_quiet (s s' : state) l :
  List.filter is_Call l = [] -> called_and_reported s s' l.
Proof. intros H. unfold called_and_reported, count_events. rewrite H. simpl. lia. Qed.

Lemma called_and_reported_consume_scan opt self msg hs :
  keeps called_and_reported (BaseHandler.consume_scan opt self msg hs).
Proof.
  unfold BaseHandler.consume_scan. kbind.
  - intros s r s' l E. apply called_and_reported_quiet.
    revert E. unfold BaseHandler.enter_call, BaseHandler.enter_lock,
      BaseHandler.enter_scope, push.
    assert (K : keeps uncalled
      ((emit LockEnter ;;
        modify_env (fun w => set_lock (MultiLock.__enter__ (lock w)) w) ;;
        modify_vars (fun f => set_stack v_stack (ExitLock :: get_stack v_stack f) f)) ;;
       (emit (ScopeEnter "handler_") ;;
        modify_vars
          (fun f => set_stack v_stack (ExitScope "handler_" :: get_stack v_stack f) f)) ;;
       BaseHandler.enter_middlewares msg (BaseHandler.middlewares self))).
    { kbind; [uncalled_auto | intros ?]. kbind; [uncalled_auto | intros ?].
      intros s0 r0 s1 l1 E0. apply unreached_uncalled.
      exact (unreached_enter_middlewares _ _ _ _ _ _ E0). }
    apply K.
  - intros gl. apply loop_keeps_consume_loop; step_rel_done. intros h.
    unfold BaseHandler.consume_call.
    kbind; [| intros [[ms m] |]].
    + intros s r s' l E. apply called_and_reported_quiet, unreached_uncalled.
      exact (unreached_prepare _ _ _ _ _ _ _ _ E).
    + apply called_and_reported_process.
    + intros s r s' l E. inversion E; subst. apply called_and_reported_quiet. reflexivity.
Qed.

(** X22. A handler is called only for a delivery that its filter accepted.
    In any call of [consume], the handlers are called at most as many times
    as a filter accepted a delivery not yet processed (a middleware scope
    that raises before the call saves one), so that no handler is called
    when no filter accepted. *)
Theorem handlers_are_called_only_on_acceptance :
  forall (opt : bool) (self : BaseHandler.t) (msg : value) (w : world),
    let run := BaseHandler.consume opt self msg w in
    count_events is_Call (events_of run) <= count_events is_attempt (events_of run) /\
    (List.filter is_attempt (events_of run) = [] ->
     List.filter is_Call (events_of run) = []).
Proof.
  intros opt self msg w run.
  assert (H : count_events is_Call (events_of run) <=
              count_events is_attempt (events_of run)).
  { unfold run. rewrite consume_run_scan.
    destruct (running w); [| unfold events_of, count_events; simpl; lia].
    destruct (BaseHandler.consume_scan opt self msg (BaseHandler.calls self)
                (BaseHandler.initial_state w)) as [[r s1] l1] eqn:E.
    pose proof (called_and_reported_consume_scan _ _ _ _ _ _ _ _ E) as Hc.
    apply reported_once_consume_scan in E.
    unfold called_and_reported, reported_once, count_events in *.
    assert (Hx : forall p, (forall cb, p (exit_event cb) = false) ->
                 List.filter p (unwind_events s1) = []).
    { intros p Hp. unfold unwind_events. apply filter_exit_events. exact Hp. }
    assert (Hk : List.filter is_Call (unwind_events s1) = [])
      by (apply Hx; intros []; reflexivity).
    assert (Ha : List.filter is_attempt (unwind_events s1) = [])
      by (apply Hx; intros []; reflexivity).
    destruct r as [b | e];
      [destruct (negb (running (env s1)) || processed (vars s1));
       [destruct (log_context_tag (vars s1)) |] |];
      unfold events_of, count_events; simpl;
      rewrite !List.filter_app, !length_app, Hk, Ha; simpl; lia. }
  split; [exact H |].
  intros Hnone. unfold count_events in H. rewrite Hnone in H. simpl in H.
  destruct (List.filter is_Call (events_of run)); [reflexivity | simpl in H; lia].
Qed.

Lemma handlers_are_called_only_on_acceptance_witness :
  List.filter is_Call
    (events_of (BaseHandler.consume false Sample.deaf Sample.hello Sample.started)) = [].
Proof.
  destruct (handlers_are_called_only_on_acceptance false Sample.deaf Sample.hello
              Sample.started) as [_ Hnone].
  apply Hnone. reflexivity.
Defined.

(** ** The teardown of a call *)

Lemma entered_app a b : entered (a ++ b) = entered a ++ entered b.
Proof. unfold entered. apply flat_map_app. Qed.

Lemma entered_exits cbs : entered (map exit_event cbs) = [].
Proof. induction cbs as [| [] rest IH]; simpl; auto. Qed.

Lemma teardown_inner_exits cbs :
  forallb inner cbs = true -> List.filter is_teardown (map exit_event cbs) = [].
Proof.
  induction cbs as [| cb rest IH]; simpl; [reflexivity |].
  destruct cb; simpl; try discriminate; exact IH.
Qed.

#[export] Instance calm_step : StepRel calm.
Proof.
  split.
  - intros s Hc Hp. repeat split; auto.
  - intros s1 s2 s3 l1 l2 H12 H23 Hc Hp.
    destruct (H12 Hc Hp) as (Hc2 & Hp2 & Hs2 & Ht1 & He1).
    destruct (H23 Hc2 Hp2) as (Hc3 & Hp3 & Hs3 & Ht2 & He2).
    split; [assumption |]. split; [assumption |]. split; [congruence |]. split.
    + rewrite List.filter_app, Ht1, Ht2. reflexivity.
    + rewrite entered_app, He1, He2. reflexivity.
Qed.

(** Closes the goals left by [keeps_step] for [calm]: one emitted event or
    one assignment that is not to a stack. *)
Ltac calm_prim :=
  unfold calm; simpl; intros;
  repeat match goal with |- _ /\ _ => split end;
  auto.

Lemma calm_push (v : stack_var) (cb : exit_callback) :
  v <> v_stack -> inner cb = true -> keeps calm (push v cb).
Proof.
  intros Hv Hcb. unfold push. apply keeps_modify_vars; step_rel_done. intros s Hc Hp.
  destruct v; try congruence; simpl; rewrite ?Hcb; repeat split; auto.
Qed.

Lemma calm_inner_stack {A} (v : stack_var) (body : M A) :
  v <> v_stack -> keeps calm body -> keeps calm (AsyncExitStack v body).
Proof.
  intros Hv Hb s r s' l E Hc Hp. rewrite AsyncExitStack_run in E.
  destruct (body _) as [[r1 s1] l1] eqn:E1. inversion E; subst; clear E.
  apply Hb in E1.
  destruct v; try congruence; simpl in *.
  - destruct E1 as (Hc1 & Hp1 & Hs1 & Ht & He); auto.
    repeat split; auto.
    + rewrite List.filter_app, Ht, teardown_inner_exits by assumption. reflexivity.
    + rewrite entered_app, He, entered_exits. reflexivity.
  - destruct E1 as (Hc1 & Hp1 & Hs1 & Ht & He); auto.
    repeat split; auto.
    + rewrite List.filter_app, Ht, teardown_inner_exits by assumption. reflexivity.
    + rewrite entered_app, He, entered_exits. reflexivity.
Qed.

Ltac calm_auto :=
  repeat first
    [ apply calm_push; [discriminate | reflexivity]
    | apply calm_inner_stack; [discriminate | ]
    | keeps_step ];
  try calm_prim.

Lemma calm_enter_consume_scopes ms message :
  keeps calm (BaseHandler.enter_consume_scopes ms message).
Proof.
  revert message. induction ms as [| m rest IH]; intros message; simpl.
  - calm_auto.
  - do 3 (kbind; [calm_auto | intros ?]). apply IH.
Qed.

Lemma calm_enter_publish_scopes ms v :
  keeps calm (BaseHandler.enter_publish_scopes ms v).
Proof.
  revert v. induction ms as [| m rest IH]; intros v; simpl.
  - calm_auto.
  - do 3 (kbind; [calm_auto | intros ?]). apply IH.
Qed.

Lemma calm_publish_all ms message v pubs :
  keeps calm (BaseHandler.publish_all ms message v pubs).
Proof.
  induction pubs as [| [p |] rest IH]; simpl.
  - calm_auto.
  - kbind; [| intros ?; exact IH].
    unfold BaseHandler.publish_one.
    apply calm_inner_stack; [discriminate |].
    kbind; [apply calm_enter_publish_scopes | intros ?].
    calm_auto.
  - exact IH.
Qed.

Lemma calm_try_body h ms message :
  keeps calm (BaseHandler.try_body h ms message).
Proof.
  unfold BaseHandler.try_body, BaseHandler.call_handler.
  kbind.
  - apply calm_inner_stack; [discriminate |].
    kbind; [apply calm_enter_consume_scopes | intros ?].
    calm_auto.
  - intros [[v p] |]; [| calm_auto].
    kbind; [calm_auto | intros ?].
    apply calm_publish_all.
Qed.

Lemma calm_close self : keeps calm (BaseHandler.close self).
Proof.
  unfold BaseHandler.close, BaseHandler.wait_release.
  destruct (BaseHandler.graceful_timeout self) as [[| n] |]; calm_auto.
Qed.

Lemma calm_process opt self h ms message :
  keeps calm (BaseHandler.process opt self h ms message).
Proof.
  unfold BaseHandler.process, BaseHandler.trigger.
  apply keeps_try_except_else; step_rel_done.
  - apply calm_try_body.
  - intros [| d | m | d]; try solve [calm_auto].
    kbind; [apply calm_close | intros ?]. calm_auto.
  - intros ?. calm_auto.
Qed.

Lemma middleware_exits_app a b :
  middleware_exits (a ++ b) = middleware_exits b ++ middleware_exits a.
Proof. unfold middleware_exits. rewrite map_app, rev_app_distr. reflexivity. Qed.

(** A step that leaves the stack of the call alone has entered none of the
    middlewares it was to go through. *)
Lemma calm_stacks {A} (all : list BaseMiddleware.t) (full : bool) (m : M A) :
  (full = true -> all = []) -> keeps calm m -> stacks all full m.
Proof.
  intros Hfull Hm s r s' l E Hc Hp.
  destruct (Hm _ _ _ _ E Hc Hp) as (Hc' & Hp' & Hs & Ht & He).
  split; [assumption |]. split; [assumption |]. split; [assumption |].
  exists [], all. split; [| split].
  - split; [reflexivity |]. split; [constructor |]. left. exact He.
  - exact Hs.
  - intros F _. auto.
Qed.

Lemma stacks_bind {A B} (all1 all2 : list BaseMiddleware.t) (full : bool)
    (m : M A) (f : A -> M B) :
  stacks all1 true m -> (forall a, stacks all2 full (f a)) ->
  stacks (all1 ++ all2) full (bind m f).
Proof.
  intros Hm Hf s r s' l E Hc Hp. apply bind_inv in E.
  destruct E as [(a & s1 & l1 & l2 & E1 & E2 & ->) | (e & E1 & ->)].
  - destruct (Hm _ _ _ _ E1 Hc Hp)
      as (Hc1 & Hp1 & Ht1 & ms1 & rest1 & (Ha1 & Hok1 & He1) & Hs1 & Hf1).
    destruct He1 as [He1 | (f0 & r0 & e0 & l0 & _ & _ & Hr & _)]; [| discriminate].
    assert (rest1 = []) by (apply Hf1; [reflexivity | eexists; reflexivity]).
    subst rest1. rewrite app_nil_r in Ha1. subst all1.
    destruct (Hf a _ _ _ _ E2 Hc1 Hp1)
      as (Hc2 & Hp2 & Ht2 & ms2 & rest2 & (Ha2 & Hok2 & He2) & Hs2 & Hf2).
    split; [assumption |]. split; [assumption |]. split.
    { rewrite List.filter_app, Ht1, Ht2. reflexivity. }
    exists (ms1 ++ ms2), rest2. split; [| split].
    + split; [rewrite Ha2, app_assoc; reflexivity |].
      split; [apply Forall_app; split; assumption |].
      destruct He2 as [He2 | (f0 & r0 & e0 & l0 & Hrest & Hf0 & Hr & Hl & Hl0)].
      * left. rewrite entered_app, He1, He2, map_app. reflexivity.
      * right. exists f0, r0, e0, (l1 ++ l0).
        split; [assumption |]. split; [assumption |]. split; [assumption |].
        split; [rewrite Hl, app_assoc; reflexivity |].
        rewrite entered_app, He1, Hl0, map_app. reflexivity.
    + rewrite Hs2, Hs1, middleware_exits_app, app_assoc. reflexivity.
    + exact Hf2.
  - destruct (Hm _ _ _ _ E1 Hc Hp)
      as (Hc1 & Hp1 & Ht1 & ms1 & rest1 & (Ha1 & Hok1 & He1) & Hs1 & Hf1).
    split; [assumption |]. split; [assumption |]. split; [assumption |].
    exists ms1, (rest1 ++ all2). split; [| split].
    + split; [rewrite Ha1, app_assoc; reflexivity |].
      split; [assumption |].
      destruct He1 as [He1 | (f0 & r0 & e0 & l0 & Hrest & Hf0 & Hr & Hl & Hl0)].
      * left. exact He1.
      * right. exists f0, (r0 ++ all2), e0, l0.
        split; [rewrite Hrest; reflexivity |].
        split; [assumption |].
        split; [inversion Hr; reflexivity |].
        split; assumption.
    + exact Hs1.
    + intros _ [a Ha]. discriminate.
Qed.

Lemma stacks_enter_async_context m :
  stacks [m] true (BaseHandler.enter_async_context m).
Proof.
  intros s r s' l E Hc Hp. unfold BaseHandler.enter_async_context in E.
  unfold bind, emit, await, push, modify_vars, ret in E.
  destruct (BaseMiddleware.__aenter__ m) as [[] | e] eqn:Em;
    inversion E; subst; clear E;
    simpl; (split; [assumption |]); (split; [assumption |]); (split; [reflexivity |]).
  - exists [m], []. split; [| split].
    + split; [reflexivity |]. split; [repeat constructor; exact Em |].
      left. reflexivity.
    + reflexivity.
    + reflexivity.
  - exists [], [m]. split; [| split].
    + split; [reflexivity |]. split; [constructor |].
      right. exists m, [], e, []. repeat split; auto.
    + reflexivity.
    + intros _ [a Ha]. discriminate.
Qed.

Lemma stacks_enter_middlewares msg fs :
  stacks (instantiate msg fs) true (BaseHandler.enter_middlewares msg fs).
Proof.
  induction fs as [| m rest IH]; simpl.
  - apply calm_stacks; [reflexivity | calm_auto].
  - change (m msg :: instantiate msg rest)
      with ([m msg] ++ instantiate msg rest).
    apply stacks_bind; [apply stacks_enter_async_context | intros x].
    rewrite <- (app_nil_r (instantiate msg rest)).
    apply stacks_bind; [exact IH | intros xs].
    apply calm_stacks; [reflexivity | calm_auto].
Qed.

Lemma stacks_prepare self msg gl h :
  stacks (instantiate msg (HandlerItem.middlewares h)) true
    (BaseHandler.prepare self msg gl h).
Proof.
  unfold BaseHandler.prepare, context.set_local.
  rewrite <- (app_nil_r (instantiate msg (HandlerItem.middlewares h))).
  apply stacks_bind; [apply stacks_enter_middlewares | intros ?].
  apply calm_stacks; [reflexivity | calm_auto].
Qed.

Lemma stacks_consume_call opt self msg gl h :
  stacks (instantiate msg (HandlerItem.middlewares h)) true
    (BaseHandler.consume_call opt self msg gl h).
Proof.
  unfold BaseHandler.consume_call.
  rewrite <- (app_nil_r (instantiate msg (HandlerItem.middlewares h))).
  apply stacks_bind; [apply stacks_prepare | intros [[ms m] |]].
  - apply calm_stacks; [reflexivity | apply calm_process].
  - apply calm_stacks; [reflexivity | calm_auto].
Qed.

Lemma stacks_consume_loop opt self msg gl hs :
  stacks (instantiate msg (flat_map HandlerItem.middlewares hs)) false
    (BaseHandler.consume_loop opt self msg gl hs).
Proof.
  induction hs as [| h rest IH]; simpl.
  - apply calm_stacks; [discriminate | calm_auto].
  - unfold instantiate. rewrite map_app.
    apply stacks_bind; [apply stacks_consume_call | intros [|]].
    + apply calm_stacks; [discriminate | calm_auto].
    + exact IH.
Qed.

Lemma enter_scope_run k s :
  BaseHandler.enter_scope k s =
  (Return tt,
   {| vars := set_stack v_stack (ExitScope k :: stack (vars s)) (vars s);
      env := env s |},
   [ScopeEnter k]).
Proof. reflexivity. Qed.

(** The loop over the items, from the point where the lock and the scope of
    the call are entered. *)
Lemma consume_scan_stacked opt self msg hs w r s1 l1 :
  BaseHandler.consume_scan opt self msg hs (BaseHandler.initial_state w) = (r, s1, l1) ->
  exists body ms rest,
    l1 = LockEnter :: ScopeEnter "handler_" :: body /\
    List.filter is_teardown body = [] /\
    entered_through
      (instantiate msg
         (BaseHandler.middlewares self ++ flat_map HandlerItem.middlewares hs))
      ms rest r body /\
    stack (vars s1) = middleware_exits ms ++ [ExitScope "handler_"; ExitLock].
Proof.
  assert (Hs : BaseHandler.consume_scan opt self msg hs (BaseHandler.initial_state w) =
    (BaseHandler.enter_lock ;;
     BaseHandler.enter_scope "handler_" ;;
     gl <- BaseHandler.enter_middlewares msg (BaseHandler.middlewares self) ;;
     BaseHandler.consume_loop opt self msg gl hs) (BaseHandler.initial_state w)).
  { unfold BaseHandler.consume_scan, BaseHandler.enter_call.
    rewrite !bind_assoc. unfold bind at 1. unfold bind at 3.
    destruct (BaseHandler.enter_lock _) as [[[u | e] s0] l0]; [| reflexivity].
    rewrite bind_assoc. reflexivity. }
  rewrite Hs. erewrite bind_return by apply enter_lock_run.
  erewrite bind_return by apply enter_scope_run.
  match goal with |- context [bind ?m ?f ?s0] => destruct (bind m f s0) as [[r2 s2] l2] eqn:E2 end.
  intros E. inversion E; subst; clear E.
  assert (St : stacks
    (instantiate msg
       (BaseHandler.middlewares self ++ flat_map HandlerItem.middlewares hs)) false
    (gl <- BaseHandler.enter_middlewares msg (BaseHandler.middlewares self) ;;
     BaseHandler.consume_loop opt self msg gl hs)).
  { unfold instantiate. rewrite map_app.
    apply stacks_bind; [apply stacks_enter_middlewares | intros gl].
    apply stacks_consume_loop. }
  apply St in E2.
  destruct E2 as (_ & _ & Ht & ms & rest & Hthrough & Hst & _);
    [reflexivity | reflexivity |].
  exists l2, ms, rest. split; [reflexivity |]. split; [exact Ht |].
  split; [exact Hthrough | exact Hst].
Qed.

(** X11. The middlewares are left last, in the reverse order of their
    entering, on every path.  Every call of [consume] on a running handler
    starts by entering the lock and the context scope, then goes through the
    middlewares in one order: the handler's own, then those of each item it
    visits, whatever the filter of the item answers.  While the items are
    looked at, no middleware is exited.  The call ends, whether it returns
    or raises, with the exits of all the middlewares [ms] it entered, the
    last entered first, followed by the exits of the scope and of the lock,
    and last the reset of the log context when the call returns.  The one
    middleware that is entered and not exited is one whose [__aenter__]
    raised: then that call is the last thing done before the exits, and
    [consume] raises its exception. *)
Theorem middlewares_are_exited_last_in_reverse_order :
  forall (opt : bool) (self : BaseHandler.t) (msg : value) (w : world),
    running w = true ->
    let run := BaseHandler.consume opt self msg w in
    exists (body : list event) (ms rest : list BaseMiddleware.t) (tail : list event),
      events_of run =
        (LockEnter :: ScopeEnter "handler_" :: body) ++
        map MiddlewareExit (rev (map BaseMiddleware.name ms)) ++
        [ScopeExit "handler_"; LockExit] ++ tail /\
      List.filter is_teardown body = [] /\
      entered_through (middlewares_of self msg) ms rest (outcome_of run) body /\
      (tail = [] \/
       ((exists v, outcome_of run = Return v) /\ tail = [ResetLocal "log_context"])).
Proof.
  intros opt self msg w Hrun run. unfold run. rewrite consume_run_scan, Hrun.
  destruct (BaseHandler.consume_scan opt self msg (BaseHandler.calls self)
              (BaseHandler.initial_state w)) as [[r s1] l1] eqn:E.
  apply consume_scan_stacked in E.
  destruct E as (body & ms & rest & -> & Ht & (Hall & Hok & Hent) & Hst).
  assert (Hex : unwind_events s1 =
                map MiddlewareExit (rev (map BaseMiddleware.name ms)) ++
                [ScopeExit "handler_"; LockExit]).
  { unfold unwind_events. rewrite Hst, map_app. unfold middleware_exits.
    rewrite <- map_rev, !map_map. simpl. rewrite <- map_rev, map_map. reflexivity. }
  assert (Hthrough : forall (o : outcome value),
    (forall e, r = Raise e -> o = Raise e) ->
    entered_through (middlewares_of self msg) ms rest o body).
  { intros o Ho. split; [exact Hall |]. split; [exact Hok |].
    destruct Hent as [Hent | (f & rest' & e & l0 & Hrest & Hf & Hr & Hl & Hl0)].
    - left. exact Hent.
    - right. exists f, rest', e, l0. repeat split; auto. }
  exists body, ms, rest.
  destruct r as [b | e].
  - destruct (negb (running (env s1)) || processed (vars s1)).
    + destruct (log_context_tag (vars s1)).
      * exists [ResetLocal "log_context"]. unfold events_of, outcome_of. simpl.
        rewrite Hex, <- !app_assoc. simpl.
        split; [reflexivity |]. split; [assumption |].
        split; [apply Hthrough; intros e He; discriminate |].
        right. split; [eexists; reflexivity | reflexivity].
      * exists []. unfold events_of, outcome_of. simpl. rewrite Hex.
        split; [reflexivity |]. split; [assumption |].
        split; [apply Hthrough; intros e He; discriminate | left; reflexivity].
    + exists []. unfold events_of, outcome_of. simpl. rewrite Hex.
      split; [reflexivity |]. split; [assumption |].
      split; [apply Hthrough; intros e He; discriminate | left; reflexivity].
  - exists []. unfold events_of, outcome_of. simpl. rewrite Hex.
    split; [reflexivity |]. split; [assumption |].
    split; [apply Hthrough; intros e0 He; inversion He; reflexivity | left; reflexivity].
Qed.

Lemma middlewares_are_exited_last_in_reverse_order_witness :
  exists (body : list event) (ms rest : list BaseMiddleware.t) (tail : list event),
    events_of (BaseHandler.consume false Faulty.guarded Sample.hello Sample.started) =
      (LockEnter :: ScopeEnter "handler_" :: body) ++
      map MiddlewareExit (rev (map BaseMiddleware.name ms)) ++
      [ScopeExit "handler_"; LockExit] ++ tail /\
    List.filter is_teardown body = [] /\
    entered_through (middlewares_of Faulty.guarded Sample.hello) ms rest
      (outcome_of (BaseHandler.consume false Faulty.guarded Sample.hello Sample.started))
      body /\
    (tail = [] \/
     ((exists v,
          outcome_of (BaseHandler.consume false Faulty.guarded Sample.hello
                        Sample.started) = Return v) /\
      tail = [ResetLocal "log_context"])).
Proof.
  apply (middlewares_are_exited_last_in_reverse_order false Faulty.guarded
           Sample.hello Sample.started).
  reflexivity.
Defined.

(** ** Registering calls *)

Lemma consume_call_append opt self item msg gl h :
  BaseHandler.consume_call opt (Registration.append_call self item) msg gl h =
  BaseHandler.consume_call opt self msg gl h.
Proof. reflexivity. Qed.

Lemma consume_loop_append opt self item msg gl hs s :
  BaseHandler.consume_loop opt (Registration.append_call self item) msg gl hs s =
  BaseHandler.consume_loop opt self msg gl hs s.
Proof.
  revert s. induction hs as [| h rest IH]; intros s; simpl; [reflexivity |].
  rewrite consume_call_append. unfold bind.
  destruct (BaseHandler.consume_call opt self msg gl h s) as [[[b | e] s1] l1];
    [| reflexivity].
  destruct b; [reflexivity |]. rewrite IH. reflexivity.
Qed.

Lemma consume_scan_append opt self item msg hs s :
  BaseHandler.consume_scan opt (Registration.append_call self item) msg hs s =
  BaseHandler.consume_scan opt self msg hs s.
Proof.
  unfold BaseHandler.consume_scan. unfold bind.
  change (BaseHandler.enter_call (Registration.append_call self item) msg s)
    with (BaseHandler.enter_call self msg s).
  destruct (BaseHandler.enter_call self msg s) as [[[gl | e] s1] l1]; [| reflexivity].
  rewrite consume_loop_append. reflexivity.
Qed.

Lemma consume_scan_snoc opt self msg pre h s :
  BaseHandler.consume_scan opt self msg (pre ++ [h]) s =
  match BaseHandler.consume_scan opt self msg pre s with
  | (Return false, s1, l1) =>
      match BaseHandler.consume_call opt self msg
              (instantiate msg (BaseHandler.middlewares self)) h s1 with
      | (r, s2, l2) => (r, s2, l1 ++ l2)
      end
  | other => other
  end.
Proof.
  unfold BaseHandler.consume_scan. unfold bind.
  destruct (BaseHandler.enter_call self msg s) as [[[gl | e] s0] l0] eqn:E0;
    [| reflexivity].
  assert (Hgl : gl = instantiate msg (BaseHandler.middlewares self)).
  { unfold BaseHandler.enter_call in E0. apply bind_inv in E0.
    destruct E0 as [(a & sa & la & lb & _ & E0 & _) | (e & _ & He)]; [| discriminate].
    apply bind_inv in E0.
    destruct E0 as [(a' & sa' & la' & lb' & _ & E0 & _) | (e & _ & He)]; [| discriminate].
    eapply enter_middlewares_returns; eassumption. }
  rewrite consume_loop_app.
  destruct (BaseHandler.consume_loop opt self msg gl pre s0) as [[[b | e] s1] l1];
    [| reflexivity].
  destruct b; [reflexivity |].
  simpl. unfold bind. subst gl.
  destruct (BaseHandler.consume_call opt self msg _ h s1) as [[[b | e] s2] l2].
  - destruct b; simpl; rewrite app_nil_r, app_assoc; reflexivity.
  - rewrite app_assoc. reflexivity.
Qed.

Section Registered.
Variables Callable Depends Kwargs : Type.
Variable wrap_handler : Callable -> list Depends -> Kwargs -> HandlerCallWrapper.t.

(** X13. Registering a call leaves the calls registered before it in front.
    A delivery on which the loop over the earlier items raises, or is left
    by [break], is dispatched exactly as before the registration: the new
    item is not looked at.  When the loop over the earlier items runs to its
    end, the new item is tried next, from the state they left. *)
Theorem registration_leaves_earlier_calls_in_front :
  forall (opt : bool) (self : BaseHandler.t) (msg : value) (w : world)
         (total_deps : list Depends) (wrap_kwargs : Kwargs)
         (filter : StreamMessage.t -> outcome bool)
         (parser : value -> outcome StreamMessage.t)
         (decoder : StreamMessage.t -> outcome value)
         (total_middlewares : list (value -> BaseMiddleware.t))
         (func : Callable)
         (r : outcome bool) (s1 : state) (l1 : list event),
    let registered :=
      Registration.real_wrapper wrap_handler total_deps wrap_kwargs
        filter parser decoder total_middlewares func self in
    let self' := fst registered in
    let item :=
      {| HandlerItem.handler := snd registered;
         HandlerItem.filter := filter;
         HandlerItem.parser := parser;
         HandlerItem.decoder := decoder;
         HandlerItem.middlewares := total_middlewares |} in
    BaseHandler.consume_scan opt self msg (BaseHandler.calls self)
      (BaseHandler.initial_state w) = (r, s1, l1) ->
    (r <> Return false ->
     BaseHandler.consume opt self' msg w = BaseHandler.consume opt self msg w) /\
    (r = Return false ->
     BaseHandler.consume_scan opt self' msg (BaseHandler.calls self')
       (BaseHandler.initial_state w) =
     match BaseHandler.consume_call opt self msg
             (instantiate msg (BaseHandler.middlewares self)) item s1 with
     | (r2, s2, l2) => (r2, s2, l1 ++ l2)
     end).
Proof.
  intros opt self msg w total_deps wrap_kwargs filter parser decoder
    total_middlewares func r s1 l1 registered self' item Hscan.
  assert (Hs : BaseHandler.consume_scan opt self' msg (BaseHandler.calls self')
                 (BaseHandler.initial_state w) =
               BaseHandler.consume_scan opt self msg (BaseHandler.calls self ++ [item])
                 (BaseHandler.initial_state w)).
  { unfold self', registered, Registration.real_wrapper. simpl.
    rewrite consume_scan_append. reflexivity. }
  split.
  - intros Hr. rewrite !consume_run_scan, Hs, consume_scan_snoc, Hscan.
    destruct r as [[|] | e]; [reflexivity | congruence | reflexivity].
  - intros ->. rewrite Hs, consume_scan_snoc, Hscan. reflexivity.
Qed.

End Registered.

Lemma registration_leaves_earlier_calls_in_front_witness :
  BaseHandler.consume false
    (fst (Registration.real_wrapper Faulty.wrap_named [] tt
            (fun _ => Return true) (Sample.parser "id-N") Sample.decoder []
            "late" Sample.failing))
    Sample.hello Sample.started =
  BaseHandler.consume false Sample.failing Sample.hello Sample.started.
Proof.
  edestruct (registration_leaves_earlier_calls_in_front string unit unit
               Faulty.wrap_named false Sample.failing Sample.hello Sample.started
               [] tt (fun _ => Return true) (Sample.parser "id-N") Sample.decoder
               [] "late") as [Hfront _].
  - reflexivity.
  - apply Hfront. discriminate.
Defined.

(** X14. The name and the description of a handler are those of the call
    registered first.  On a handler with no call, such as [__init__] makes,
    reading [call_name] raises [IndexError], while [description] returns
    [None]; once a call is registered [call_name] returns the name of the
    first call in camel case and [description] its documentation, and
    registering further calls changes neither.  A description given to the
    handler that is not empty takes precedence. *)
Theorem call_name_is_the_name_of_the_first_call :
  forall (to_camelcase : string -> string)
         (doc : HandlerCallWrapper.t -> option string),
    (forall builder mws timeout w _description,
        let self := fst (Registration.__init__ builder mws timeout w) in
        Registration.call_name to_camelcase self = Raise IndexError /\
        (Registration.truthy _description = false ->
         Registration.description doc _description self = None)) /\
    (forall self item _description,
        let first := hd item (BaseHandler.calls self) in
        let self' := Registration.append_call self item in
        Registration.call_name to_camelcase self' =
          Return (to_camelcase (HandlerItem.call_name first)) /\
        (Registration.truthy _description = false ->
         Registration.description doc _description self' =
           doc (HandlerItem.handler first)) /\
        (Registration.truthy _description = true ->
         Registration.description doc _description self' = _description)).
Proof.
  intros to_camelcase doc. split.
  - intros builder mws timeout w d self. split; [reflexivity |].
    intros Hd. unfold Registration.description. rewrite Hd. reflexivity.
  - intros self item d first self'.
    unfold Registration.call_name, Registration.description, first, self'. simpl.
    split; [destruct (BaseHandler.calls self); reflexivity |].
    split; intros Hd; rewrite Hd; [| reflexivity].
    destruct (BaseHandler.calls self); reflexivity.
Qed.

Lemma call_name_is_the_name_of_the_first_call_witness :
  Registration.description (fun _ => Some "answers") (Some "")
    (Registration.append_call Sample.nobody Sample.item_A) = Some "answers" /\
  Registration.description (fun _ => Some "answers") (Some "replies to hello")
    (Registration.append_call Sample.nobody Sample.item_A) = Some "replies to hello".
Proof.
  destruct (call_name_is_the_name_of_the_first_call (fun s => s)
              (fun _ => Some "answers")) as [_ H].
  split.
  - apply (H Sample.nobody Sample.item_A (Some "")). reflexivity.
  - apply (H Sample.nobody Sample.item_A (Some "replies to hello")). reflexivity.
Defined.

Lemma payloads_run (to_camelcase : string -> string) (AnyDict : Type)
    (parse : HandlerItem.t -> string -> outcome AnyDict)
    (_title : option string) (self : BaseHandler.t) (name : string) :
  Registration.title_or_call_name to_camelcase _title self = Return name ->
  forall (hs : list HandlerItem.t) (bodies : list AnyDict),
    map (fun h => parse h (name ++ ":Message")%string) hs = map Return bodies ->
    Registration.payloads to_camelcase parse _title self hs =
    Return (combine bodies
              (map (fun h => to_camelcase (HandlerItem.call_name h)) hs)).
Proof.
  intros Hname. induction hs as [| h rest IH]; intros bodies Hb; simpl.
  - destruct bodies; reflexivity.
  - destruct bodies as [| b bs]; [discriminate |]. simpl in Hb.
    inversion Hb as [[Hh Hrest]].
    rewrite Hname, Hh, (IH _ Hrest). reflexivity.
Qed.

Lemma payloads_run_raise (to_camelcase : string -> string) (AnyDict : Type)
    (parse : HandlerItem.t -> string -> outcome AnyDict)
    (_title : option string) (self : BaseHandler.t) (name : string) (e : exn) :
  Registration.title_or_call_name to_camelcase _title self = Return name ->
  forall (pre : list HandlerItem.t) (h : HandlerItem.t) (post : list HandlerItem.t)
         (bodies : list AnyDict),
    map (fun x => parse x (name ++ ":Message")%string) pre = map Return bodies ->
    parse h (name ++ ":Message")%string = Raise e ->
    Registration.payloads to_camelcase parse _title self (pre ++ h :: post) = Raise e.
Proof.
  intros Hname. induction pre as [| x rest IH]; intros h post bodies Hb He; simpl.
  - rewrite Hname, He. reflexivity.
  - destruct bodies as [| b bs]; [discriminate |]. simpl in Hb.
    inversion Hb as [[Hx Hrest]].
    rewrite Hname, Hx, (IH _ _ _ Hrest He). reflexivity.
Qed.

Lemma title_or_call_name_run (to_camelcase : string -> string)
    (_title : option string) (self : BaseHandler.t) :
  BaseHandler.calls self <> [] ->
  exists name,
    Registration.title_or_call_name to_camelcase _title self = Return name /\
    (name ++ ":Message")%string = payload_prefix to_camelcase _title self.
Proof.
  intros Hne. unfold Registration.title_or_call_name, payload_prefix,
    Registration.call_name.
  destruct (BaseHandler.calls self) as [| h rest]; [congruence |].
  destruct _title as [t |]; simpl.
  - destruct (negb (String.eqb t "")); eexists; split; reflexivity.
  - eexists; split; reflexivity.
Qed.

(** X16. [get_payloads] gives one payload for each call, in the order of
    registration, named by the call's own name in camel case, and made with
    one prefix for all of them: the title of the handler when it has one,
    the name of the first call (not of the call described) else.  On a
    handler with no call it returns the empty list, although [call_name]
    raises there; and it raises only what the schema generator raises, for
    the first call it fails on. *)
Theorem get_payloads_describes_every_call :
  forall (to_camelcase : string -> string) (AnyDict : Type)
         (parse : HandlerItem.t -> string -> outcome AnyDict)
         (_title : option string) (self : BaseHandler.t),
    let prefix := payload_prefix to_camelcase _title self in
    let names :=
      map (fun h => to_camelcase (HandlerItem.call_name h)) (BaseHandler.calls self) in
    (BaseHandler.calls self = [] ->
     Registration.get_payloads to_camelcase parse _title self = Return []) /\
    (forall bodies,
        map (fun h => parse h prefix) (BaseHandler.calls self) = map Return bodies ->
        Registration.get_payloads to_camelcase parse _title self =
        Return (combine bodies names)) /\
    (forall pre h post bodies e,
        BaseHandler.calls self = pre ++ h :: post ->
        map (fun x => parse x prefix) pre = map Return bodies ->
        parse h prefix = Raise e ->
        Registration.get_payloads to_camelcase parse _title self = Raise e).
Proof.
  intros to_camelcase AnyDict parse _title self prefix names.
  unfold Registration.get_payloads. split; [| split].
  - intros ->. reflexivity.
  - intros bodies Hb.
    destruct (BaseHandler.calls self) as [| h0 rest] eqn:Hc.
    + destruct bodies; [reflexivity | discriminate].
    + destruct (title_or_call_name_run to_camelcase _title self) as (name & Hn & Hp);
        [congruence |].
      unfold names. rewrite <- Hc in *.
      apply (payloads_run _ _ _ _ _ _ Hn). rewrite Hp. exact Hb.
  - intros pre h post bodies e Hc Hb He.
    destruct (title_or_call_name_run to_camelcase _title self) as (name & Hn & Hp).
    + rewrite Hc. destruct pre; discriminate.
    + rewrite Hc.
      apply (payloads_run_raise _ _ _ _ _ _ _ Hn _ _ _ bodies); rewrite Hp; assumption.
Qed.

Lemma get_payloads_describes_every_call_witness :
  Registration.get_payloads (fun s => s) Faulty.params_of None Sample.nobody =
    Return [] /\
  Registration.get_payloads (fun s => s) Faulty.params_of None Sample.deaf =
    Return [("A:Message:A", "A")] /\
  Registration.get_payloads (fun s => s) Faulty.params_of (Some "Orders")
    Sample.middle_of_three = Raise (Exception "unknown").
Proof.
  destruct (get_payloads_describes_every_call (fun s => s) string Faulty.params_of
              None Sample.nobody) as (Hnone & _ & _).
  destruct (get_payloads_describes_every_call (fun s => s) string Faulty.params_of
              None Sample.deaf) as (_ & Hall & _).
  destruct (get_payloads_describes_every_call (fun s => s) string Faulty.params_of
              (Some "Orders") Sample.middle_of_three) as (_ & _ & Hfail).
  split; [apply Hnone; reflexivity |].
  split; [apply (Hall ["A:Message:A"]); reflexivity |].
  apply (Hfail [Sample.item_A] Sample.item_B [Sample.item_C] ["Orders:Message:A"]);
    reflexivity.
Defined.

(** ** The log context of a call that returns *)

#[export] Instance tracked_step : StepRel tracked.
Proof.
  split.
  - intros s. split; reflexivity.
  - intros s1 s2 s3 l1 l2 [F1 T1] [F2 T2]. split.
    + rewrite List.filter_app, F1, F2. reflexivity.
    + rewrite fold_left_app, <- T1, <- T2. reflexivity.
Qed.

Lemma track_exits cbs ct : fold_left track (map exit_event cbs) ct = ct.
Proof.
  revert ct. induction cbs as [| cb rest IH]; intros ct; simpl; [reflexivity |].
  destruct cb; simpl; apply IH.
Qed.

Ltac tracked_prim :=
  repeat keeps_step;
  try (split; reflexivity).

Lemma tracked_emit e :
  is_ResetLocal e = false -> is_SetLocal e = false -> keeps tracked (emit e).
Proof.
  intros H1 H2. apply keeps_emit; step_rel_done. intros s. split.
  - simpl. rewrite H1. reflexivity.
  - destruct e; try discriminate; reflexivity.
Qed.

Lemma tracked_stack {A} v (body : M A) :
  keeps tracked body -> keeps tracked (AsyncExitStack v body).
Proof.
  intros Hb s r s' l E. rewrite AsyncExitStack_run in E.
  destruct (body _) as [[r1 s1] l1] eqn:E1. inversion E; subst; clear E.
  apply Hb in E1. destruct E1 as [F1 T1]. split.
  - rewrite List.filter_app, F1, no_reset_exits. reflexivity.
  - rewrite fold_left_app, track_exits. destruct v; simpl in *; exact T1.
Qed.

Lemma tracked_consume_loop opt self msg gl hs :
  keeps tracked (BaseHandler.consume_loop opt self msg gl hs).
Proof.
  assert (Hemit : forall e, plain_event e = true -> keeps tracked (emit e)).
  { intros e He. apply tracked_emit; destruct e; try discriminate; reflexivity. }
  assert (Hpush : forall v cb, cb <> ExitLock -> keeps tracked (push v cb)).
  { intros v cb _. unfold push. destruct v; tracked_prim. }
  assert (Hinner : forall A v (body : M A), v <> v_stack ->
             keeps tracked body -> keeps tracked (AsyncExitStack v body)).
  { intros A v body _. apply tracked_stack. }
  assert (Hres : forall r, keeps tracked (modify_vars (set_result r)))
    by (intros; tracked_prim).
  assert (Hmsg : forall v, keeps tracked (modify_vars (set_result_msg v)))
    by (intros; tracked_prim).
  assert (Hset : forall k v,
             keeps tracked (tag <- context.set_local k v ;;
                            modify_vars (set_log_context_tag (Some tag)))).
  { intros k v s r s' l E. inversion E; subst. split; reflexivity. }
  apply loop_keeps_consume_loop; step_rel_done. intros h.
  apply loop_keeps_consume_call; step_rel_done; auto;
    try (intros; apply tracked_emit; reflexivity).
  intros ms message.
  apply loop_keeps_process; step_rel_done; auto.
  - unfold BaseHandler.close, BaseHandler.wait_release.
    destruct (BaseHandler.graceful_timeout self) as [[| n] |];
      (kbind; [apply tracked_emit; reflexivity | intros ?]);
      (kbind; [tracked_prim | intros ?]);
      try (apply tracked_emit; reflexivity); tracked_prim.
  - intros e. apply tracked_emit; reflexivity.
  - kbind; [tracked_prim | intros f].
    kbind; [apply tracked_emit; reflexivity | intros ?].
    tracked_prim.
Qed.

Lemma tracked_consume_scan opt self msg hs :
  keeps tracked (BaseHandler.consume_scan opt self msg hs).
Proof.
  unfold BaseHandler.consume_scan. kbind; [| intros gl; apply tracked_consume_loop].
  unfold BaseHandler.enter_call, BaseHandler.enter_lock, BaseHandler.enter_scope, push.
  kbind; [| intros ?; kbind; [| intros ?]].
  - kbind; [apply tracked_emit; reflexivity | intros ?]. tracked_prim.
  - kbind; [apply tracked_emit; reflexivity | intros ?]. tracked_prim.
  - apply loop_keeps_enter_middlewares; step_rel_done.
    + intros e He. apply tracked_emit; destruct e; try discriminate; reflexivity.
    + intros v cb _. unfold push. destruct v; tracked_prim.
Qed.

Lemma track_token_stays l : forall c t,
  exists c' t', fold_left track l (c, Some t) = (c', Some t').
Proof.
  induction l as [| e rest IH]; intros c t; simpl; [eauto |].
  destruct e; simpl; apply IH.
Qed.

Lemma track_no_token l : forall c c',
  fold_left track l (c, None) = (c', None) -> c' = c.
Proof.
  induction l as [| e rest IH]; intros c c' H; simpl in H.
  - inversion H. reflexivity.
  - destruct e; simpl in H; try (apply IH; exact H).
    match type of H with
    | fold_left track rest (?a, Some ?b) = _ =>
        destruct (track_token_stays rest a b) as (c1 & t1 & E)
    end.
    pose proof (eq_trans (eq_sym E) H) as X. discriminate X.
Qed.

Lemma track_one_set l : forall c t,
  count_events is_SetLocal l <= 1 ->
  snd (fold_left track l (c, t)) = t \/ snd (fold_left track l (c, t)) = Some c.
Proof.
  unfold count_events.
  induction l as [| e rest IH]; intros c t Hn; simpl; [left; reflexivity |].
  destruct e; simpl in *; try (apply IH; exact Hn).
  right. destruct (IH (Some v) (Some c)) as [H | H]; [lia | exact H |].
  assert (Hz : List.filter is_SetLocal rest = [])
    by (destruct (List.filter is_SetLocal rest); [reflexivity | simpl in Hn; lia]).
  clear - Hz. revert v c. induction rest as [| e rest IH]; intros v c; simpl; [reflexivity |].
  destruct e; simpl in *; try (apply IH; exact Hz). discriminate.
Qed.

(** X15. When [consume] returns, the log context is put back to what the
    last [set_local] of the call replaced: the token kept is the one of the
    last item whose parser returned.  A call that set the log context at most
    once (a handler with one call) leaves it as it found it. *)
Theorem returning_consume_restores_what_the_last_set_replaced :
  forall (opt : bool) (self : BaseHandler.t) (msg : value) (w : world) (v : value),
    let run := BaseHandler.consume opt self msg w in
    outcome_of run = Return v ->
    log_context (world_after run) =
      before_last_set (events_of run) (log_context w) /\
    (count_events is_SetLocal (events_of run) <= 1 ->
     log_context (world_after run) = log_context w).
Proof.
  intros opt self msg w v run Hret.
  assert (Hmain : log_context (world_after run) =
                  before_last_set (events_of run) (log_context w)).
  { revert Hret. unfold run. rewrite consume_run_scan.
    destruct (running w); [| reflexivity].
    destruct (BaseHandler.consume_scan opt self msg (BaseHandler.calls self)
                (BaseHandler.initial_state w)) as [[r s1] l1] eqn:E.
    apply tracked_consume_scan in E. destruct E as [_ T]. simpl in T.
    destruct r as [b | e]; [| discriminate].
    destruct (negb (running (env s1)) || processed (vars s1)); [| discriminate].
    destruct (log_context_tag (vars s1)) as [tag |] eqn:Etag; intros _;
      unfold world_after, events_of, before_last_set, unwind_events; simpl;
      rewrite ?fold_left_app, track_exits, <- T; simpl; [reflexivity |].
    symmetry in T. apply track_no_token in T. exact T. }
  split; [exact Hmain |].
  intros Hn. rewrite Hmain. unfold before_last_set.
  destruct (track_one_set (events_of run) (log_context w) None Hn) as [H | H];
    rewrite H; reflexivity.
Qed.

Lemma returning_consume_restores_what_the_last_set_replaced_witness :
  log_context
    (world_after (BaseHandler.consume false Sample.silent Sample.hello Sample.started)) =
  log_context Sample.started /\
  log_context
    (world_after
       (BaseHandler.consume false Sample.second_of_two Sample.hello Sample.started)) =
  before_last_set
    (events_of
       (BaseHandler.consume false Sample.second_of_two Sample.hello Sample.started))
    (log_context Sample.started).
Proof.
  split.
  - apply (returning_consume_restores_what_the_last_set_replaced false Sample.silent
             Sample.hello Sample.started VNone eq_refl).
    vm_compute. constructor.
  - apply (returning_consume_restores_what_the_last_set_replaced false
             Sample.second_of_two Sample.hello Sample.started (VStr "b") eq_refl).
Defined.

(** ** The ends of the [try] statement *)

Lemma stays_closed_consume_scan opt self msg hs :
  keeps stays_closed (BaseHandler.consume_scan opt self msg hs).
Proof.
  assert (Hemit : forall e, plain_event e = true -> keeps stays_closed (emit e)).
  { intros e He. apply stays_closed_emit. destruct e; discriminate. }
  assert (Hpush : forall v cb, cb <> ExitLock -> keeps stays_closed (push v cb)).
  { intros v cb _. unfold push. stays_closed_prim. }
  assert (Hinner : forall A v (body : M A), v <> v_stack ->
             keeps stays_closed body -> keeps stays_closed (AsyncExitStack v body)).
  { intros A v body _. apply stays_closed_stack. }
  unfold BaseHandler.consume_scan. kbind.
  - unfold BaseHandler.enter_call, BaseHandler.enter_lock, BaseHandler.enter_scope, push.
    kbind; [stays_closed_prim | intros ?].
    kbind; [stays_closed_prim | intros ?].
    apply loop_keeps_enter_middlewares; step_rel_done; auto.
  - intros gl.
    apply loop_keeps_consume_loop; step_rel_done. intros h.
    apply loop_keeps_consume_call; step_rel_done; auto;
      try solve [intros; stays_closed_prim].
    { intros k v. unfold context.set_local. stays_closed_prim. }
    intros ms message.
    apply loop_keeps_process; step_rel_done; auto;
      try solve [intros; stays_closed_prim];
      try solve [unfold BaseHandler.trigger; intros; stays_closed_prim];
      try solve [intros; unfold context.set_local; stays_closed_prim].
    intros s r s' l E. rewrite close_run in E. inversion E; subst. split; reflexivity.
Qed.

(** X17. A controlled stop waives the assertion that the delivery was
    consumed.  When the loop over the items runs to its end and the handler
    was closed during it, [consume] returns the result recorded so far (the
    empty result when no handler returned one) instead of raising, whether
    or not an item processed the delivery, and the handler is left not
    running. *)
Theorem controlled_stop_waives_the_final_assertion :
  forall (opt : bool) (self : BaseHandler.t) (msg : value) (w : world)
         (b : bool) (s1 : state) (l1 : list event),
    running w = true ->
    BaseHandler.consume_scan opt self msg (BaseHandler.calls self)
      (BaseHandler.initial_state w) = (Return b, s1, l1) ->
    In Close l1 ->
    outcome_of (BaseHandler.consume opt self msg w) = Return (result_msg (vars s1)) /\
    running (world_after (BaseHandler.consume opt self msg w)) = false.
Proof.
  intros opt self msg w b s1 l1 Hrun Hscan Hin.
  pose proof (stays_closed_consume_scan _ _ _ _ _ _ _ _ Hscan) as [Hc _].
  specialize (Hc Hin).
  rewrite consume_run_scan, Hrun, Hscan, Hc. simpl.
  destruct (log_context_tag (vars s1)); split; try reflexivity;
    unfold world_after, unwound; simpl; exact Hc.
Qed.

Lemma controlled_stop_waives_the_final_assertion_witness :
  outcome_of (BaseHandler.consume false Sample.stopping Sample.hello Sample.started) =
    Return VNone /\
  running
    (world_after (BaseHandler.consume false Sample.stopping Sample.hello Sample.started)) =
    false.
Proof.
  edestruct (controlled_stop_waives_the_final_assertion false Sample.stopping
               Sample.hello Sample.started) as [Hout Hrun];
    [reflexivity | reflexivity | simpl; auto 20 |].
  split; [exact Hout | exact Hrun].
Defined.

(** X18. A handler that returns no result publishes nothing.  When the call
    wrapper returns [None], no publisher is called, also not the ones bound
    to the handler; the attempt is reported to [trigger] as a success with
    the empty result, the delivery is marked as processed, and the result
    recorded for the call is left as it was. *)
Theorem handler_without_result_publishes_nothing :
  forall (opt : bool) (self : BaseHandler.t) (h : HandlerItem.t)
         (ms : list BaseMiddleware.t) (message : StreamMessage.t) (s : state)
         (body : value),
    wrap_consume ms (StreamMessage.decoded_body message) = Return body ->
    HandlerCallWrapper.call_wrapped (HandlerItem.handler h)
      (StreamMessage.set_decoded_body message body) = Return None ->
    exists s' evs,
      BaseHandler.process opt self h ms message s = (Return opt, s', evs) /\
      processed (vars s') = true /\
      result_msg (vars s') = result_msg (vars s) /\
      List.filter is_Publish evs = [] /\
      List.filter is_Trigger evs =
        [Trigger (HandlerItem.call_name h) (Some VNone) None].
Proof.
  intros opt self h ms message s body Hw Hc.
  rewrite (process_run_none _ _ _ _ _ _ _ Hw Hc).
  eexists. eexists. split; [reflexivity |].
  split; [reflexivity |]. split; [reflexivity |].
  rewrite !List.filter_app, !filter_call_events by kind_of_event.
  split; reflexivity.
Qed.

Lemma handler_without_result_publishes_nothing_witness :
  exists s' evs,
    BaseHandler.process false (Sample.dispatcher [Faulty.mute] []) Faulty.mute []
      (Sample.seen "id-A") (BaseHandler.initial_state Sample.started) =
    (Return false, s', evs) /\
    processed (vars s') = true /\
    result_msg (vars s') = VNone /\
    List.filter is_Publish evs = [] /\
    List.filter is_Trigger evs = [Trigger "A" (Some VNone) None].
Proof.
  apply (handler_without_result_publishes_nothing false
           (Sample.dispatcher [Faulty.mute] []) Faulty.mute []
           (Sample.seen "id-A") (BaseHandler.initial_state Sample.started)
           Sample.hello);
    reflexivity.
Defined.

(** X19. A controlled stop raised by a publisher is handled like one raised
    by the handler, after the result was recorded.  When the handler has
    returned a result and the publishers before [p] have taken it, the
    controlled-stop signal of [p] closes the handler and is swallowed: the
    publishers after [p] are not called, [trigger] is called with no
    argument, the delivery is not marked as processed, and the result of the
    handler stays recorded as the result of the call. *)
Theorem controlled_stop_of_a_publisher_keeps_the_result :
  forall (opt : bool) (self : BaseHandler.t) (h : HandlerItem.t)
         (ms : list BaseMiddleware.t) (message : StreamMessage.t) (s : state)
         (body res out : value) (pr : option PublisherProtocol.t)
         (pre post : list PublisherProtocol.t) (p : PublisherProtocol.t),
    let cid := StreamMessage.correlation_id message in
    let evs :=
      (call_events h ms message body ++
       publish_all_events ms res out cid (pre ++ [p])) ++
      close_events self ++ [Trigger (HandlerItem.call_name h) None None] in
    wrap_consume ms (StreamMessage.decoded_body message) = Return body ->
    HandlerCallWrapper.call_wrapped (HandlerItem.handler h)
      (StreamMessage.set_decoded_body message body) = Return (Some (res, pr)) ->
    wrap_publish ms res = Return out ->
    targets pr h = pre ++ p :: post ->
    publish_ok out cid pre ->
    PublisherProtocol.publish p out cid = Raise StopConsume ->
    exists s',
      BaseHandler.process opt self h ms message s = (Return false, s', evs) /\
      running (env s') = false /\
      processed (vars s') = processed (vars s) /\
      result_msg (vars s') = res.
Proof.
  intros opt self h ms message s body res out pr pre post p cid evs
    Hw Hc Hp Ht Hok Hpub.
  unfold BaseHandler.process, try_except_else, BaseHandler.try_body.
  unfold bind at 1. rewrite (call_handler_run _ _ _ _ _ Hw), Hc.
  unfold bind at 1. unfold modify_vars at 1.
  rewrite (targets_cons pr h _ eq_refl), Ht.
  rewrite (publish_all_run_raise _ _ _ _ _ _ _ _ _ Hp Hok Hpub). simpl.
  unfold bind at 1. rewrite close_run.
  unfold bind, BaseHandler.trigger, emit, ret. simpl.
  eexists. split; [reflexivity |]. split; [reflexivity |]. split; reflexivity.
Qed.

Lemma controlled_stop_of_a_publisher_keeps_the_result_witness :
  exists s',
    BaseHandler.process false (Sample.dispatcher [Faulty.last_answer] [])
      Faulty.last_answer [] (Sample.seen "id-A")
      (BaseHandler.initial_state Sample.started) =
    (Return false, s',
     [Call "A" (Sample.seen "id-A"); Publish "p1" (VStr "a") "id-A"; Close;
      Trigger "A" None None]) /\
    running (env s') = false /\
    processed (vars s') = false /\
    result_msg (vars s') = VStr "a".
Proof.
  apply (controlled_stop_of_a_publisher_keeps_the_result false
           (Sample.dispatcher [Faulty.last_answer] []) Faulty.last_answer []
           (Sample.seen "id-A") (BaseHandler.initial_state Sample.started)
           Sample.hello (VStr "a") (VStr "a") None
           [] [] (Faulty.halting "p1"));
    [ reflexivity | reflexivity | reflexivity | reflexivity
    | constructor | reflexivity ].
Defined.

(** ** The declarer of queues and exchanges *)

Lemma dict_get_set_same {K V : Type} (eqb : K -> K -> bool) (d : list (K * V)) k v :
  eqb k k = true -> dict_get eqb (dict_set eqb d k v) k = Some v.
Proof.
  intros Hk. induction d as [| [stored v'] rest IH]; simpl.
  - rewrite Hk. reflexivity.
  - destruct (eqb stored k) eqn:E; simpl; rewrite E; [reflexivity | exact IH].
Qed.

Lemma dict_get_set_new {K V : Type} (eqb : K -> K -> bool) (d : list (K * V)) k v :
  dict_get eqb d k = None ->
  forall k0 v0, dict_get eqb d k0 = Some v0 ->
                dict_get eqb (dict_set eqb d k v) k0 = Some v0.
Proof.
  induction d as [| [stored v'] rest IH]; simpl; intros Hk k0 v0 H0; [discriminate |].
  destruct (eqb stored k) eqn:E; [discriminate |]. simpl.
  destruct (eqb stored k0); [exact H0 | apply IH; assumption].
Qed.

Section Declared.
Variables RabbitQueue ExchangeFields RobustQueue RobustExchange : Type.
Variable queue_eqb : RabbitQueue -> RabbitQueue -> bool.
Variable exchange_eqb :
  RabbitDeclarer.RabbitExchange ExchangeFields ->
  RabbitDeclarer.RabbitExchange ExchangeFields -> bool.
Variable channel_declare_queue : RabbitQueue -> outcome RobustQueue.
Variable channel_declare_exchange : ExchangeFields -> outcome RobustExchange.
Variable bind : RobustExchange -> RobustExchange -> ExchangeFields -> outcome unit.

Local Notation "'declarer'" :=
  (RabbitDeclarer.t RabbitQueue ExchangeFields RobustQueue RobustExchange).
Local Notation "'declare_queue'" :=
  (RabbitDeclarer.declare_queue queue_eqb channel_declare_queue).
Local Notation "'declare_known'" :=
  (RabbitDeclarer.declare_known (RobustQueue := RobustQueue) (RabbitQueue := RabbitQueue)
     exchange_eqb channel_declare_exchange).
Local Notation "'declare_exchange'" :=
  (RabbitDeclarer.declare_exchange (RobustQueue := RobustQueue) (RabbitQueue := RabbitQueue)
     exchange_eqb channel_declare_exchange bind) (only parsing).
Local Notation "'known_in'" := (RabbitDeclarer.known_in exchange_eqb).

(** X20. A queue is declared on the channel once.  After [declare_queue] has
    returned a queue, declaring the same queue again returns the same object
    from the dictionary without calling the channel, and changes nothing;
    the exchanges known are never touched.  When the channel raises, the
    exception is raised and nothing is remembered, so that the next call
    asks the channel again. *)
Theorem queue_is_declared_on_the_channel_once :
  (forall queue, queue_eqb queue queue = true) ->
  forall (queue : RabbitQueue) (self self' : declarer) (l : list _),
    (forall q,
        declare_queue queue self = (Return q, self', l) ->
        declare_queue queue self' = (Return q, self', []) /\
        RabbitDeclarer.exchanges self' = RabbitDeclarer.exchanges self /\
        (l = [] \/ l = [RabbitDeclarer.DeclareQueue queue])) /\
    (forall e,
        declare_queue queue self = (Raise e, self', l) ->
        self' = self /\
        l = [RabbitDeclarer.DeclareQueue queue] /\
        channel_declare_queue queue = Raise e).
Proof.
  intros Hrefl queue self self' l. unfold RabbitDeclarer.declare_queue. split.
  - intros q.
    destruct (dict_get queue_eqb (RabbitDeclarer.queues self) queue) as [q0 |] eqn:Eg.
    + intros E. inversion E; subst. rewrite Eg. auto.
    + destruct (channel_declare_queue queue) as [q1 | e]; intros E; inversion E; subst.
      simpl. rewrite dict_get_set_same by apply Hrefl. auto.
  - intros e.
    destruct (dict_get queue_eqb (RabbitDeclarer.queues self) queue) as [q0 |] eqn:Eg;
      [discriminate |].
    destruct (channel_declare_queue queue) as [q1 | e1] eqn:Ec; intros E;
      inversion E; subst. auto.
Qed.

Hypothesis exchange_eqb_refl : forall exchange, exchange_eqb exchange exchange = true.

Lemma known_in_refl (self : declarer) : known_in self self.
Proof. intros x rx H. exact H. Qed.

Lemma known_in_trans (a b c : declarer) :
  known_in a b -> known_in b c -> known_in a c.
Proof. intros Hab Hbc x rx H. apply Hbc, Hab, H. Qed.

Lemma declare_known_returns exchange (self self1 : declarer) exch l1 :
  declare_known exchange self = (Return exch, self1, l1) ->
  dict_get exchange_eqb (RabbitDeclarer.exchanges self1) exchange = Some exch /\
  known_in self self1 /\
  RabbitDeclarer.queues self1 = RabbitDeclarer.queues self /\
  List.filter RabbitDeclarer.is_Bind l1 = [].
Proof.
  unfold RabbitDeclarer.declare_known.
  destruct (dict_get exchange_eqb (RabbitDeclarer.exchanges self) exchange)
    as [x0 |] eqn:Eg.
  - intros E. inversion E; subst. repeat split; auto. apply known_in_refl.
  - destruct (channel_declare_exchange _) as [x1 | e]; intros E; inversion E; subst.
    simpl. split; [apply dict_get_set_same, exchange_eqb_refl |].
    split; [| split; reflexivity].
    intros x rx H. simpl. apply dict_get_set_new; assumption.
Qed.

Lemma declare_exchange_returns exchange : forall (self self' : declarer) exch l,
  declare_exchange exchange self = (Return exch, self', l) ->
  dict_get exchange_eqb (RabbitDeclarer.exchanges self') exchange = Some exch /\
  known_in self self' /\
  RabbitDeclarer.queues self' = RabbitDeclarer.queues self.
Proof.
  induction exchange as [f | f parent IH]; intros self self' exch l; simpl.
  - destruct (declare_known _ self) as [[[x | e] self1] l1] eqn:Ek; intros E;
      inversion E; subst.
    apply declare_known_returns in Ek. tauto.
  - destruct (declare_known _ self) as [[[x | e] self1] l1] eqn:Ek;
      [| discriminate].
    destruct (declare_exchange parent self1) as [[[p | e] self2] l2] eqn:Ep;
      [| discriminate].
    destruct (bind x p f); intros E; inversion E; subst.
    apply declare_known_returns in Ek. destruct Ek as (Hx & Hk1 & Hq1 & _).
    apply IH in Ep. destruct Ep as (_ & Hk2 & Hq2).
    split; [apply Hk2, Hx |].
    split; [eapply known_in_trans; eassumption | congruence].
Qed.

Lemma declare_exchange_again exchange : forall (self self' later : declarer) exch l,
  declare_exchange exchange self = (Return exch, self', l) ->
  known_in self' later ->
  declare_exchange exchange later =
  (Return exch, later, List.filter RabbitDeclarer.is_Bind l).
Proof.
  induction exchange as [f | f parent IH]; intros self self' later exch l; simpl.
  - destruct (declare_known _ self) as [[[x | e] self1] l1] eqn:Ek; intros E Hlater;
      inversion E; subst.
    apply declare_known_returns in Ek. destruct Ek as (Hx & _ & _ & Hb).
    unfold RabbitDeclarer.declare_known. rewrite (Hlater _ _ Hx), Hb. reflexivity.
  - destruct (declare_known _ self) as [[[x | e] self1] l1] eqn:Ek;
      [| discriminate].
    destruct (declare_exchange parent self1) as [[[p | e] self2] l2] eqn:Ep;
      [| discriminate].
    destruct (bind x p f) as [[] | e] eqn:Eb; intros E Hlater; inversion E; subst.
    apply declare_known_returns in Ek. destruct Ek as (Hx & _ & _ & Hb).
    pose proof (declare_exchange_returns _ _ _ _ _ Ep) as (_ & Hk2 & _).
    unfold RabbitDeclarer.declare_known at 1.
    rewrite (Hlater _ _ (Hk2 _ _ Hx)).
    rewrite (IH _ _ _ _ _ Ep Hlater), Eb.
    rewrite !List.filter_app, Hb. reflexivity.
Qed.

(** X21. An exchange and the exchanges it is bound to are declared on the
    channel once, but bound again by every call.  After [declare_exchange]
    has returned, calling it again for the same exchange returns the same
    object and leaves the declarer as it is; it declares nothing, and
    repeats, in the same order, exactly the [bind] calls of the first call,
    one for each exchange of the chain that is bound to another. *)
Theorem exchanges_are_declared_once_and_bound_again :
  forall (exchange : RabbitDeclarer.RabbitExchange ExchangeFields)
         (self self' : declarer) (exch : RobustExchange) (l : list _),
    declare_exchange exchange self = (Return exch, self', l) ->
    declare_exchange exchange self' =
      (Return exch, self', List.filter RabbitDeclarer.is_Bind l) /\
    RabbitDeclarer.queues self' = RabbitDeclarer.queues self /\
    known_in self self'.
Proof.
  intros exchange self self' exch l E.
  split; [eapply declare_exchange_again; [exact E | apply known_in_refl] |].
  apply declare_exchange_returns in E. tauto.
Qed.

End Declared.

Lemma broker_exchange_eqb_refl (exchange : RabbitDeclarer.RabbitExchange string) :
  Broker.exchange_eqb exchange exchange = true.
Proof.
  induction exchange as [f | f parent IH]; simpl.
  - apply String.eqb_refl.
  - rewrite String.eqb_refl, IH. reflexivity.
Qed.

Lemma queue_is_declared_on_the_channel_once_witness :
  RabbitDeclarer.declare_queue String.eqb Broker.declare "orders"
    {| RabbitDeclarer.queues := [("orders", "orders")];
       RabbitDeclarer.exchanges := @nil (RabbitDeclarer.RabbitExchange string * string) |} =
  (Return "orders",
   {| RabbitDeclarer.queues := [("orders", "orders")];
      RabbitDeclarer.exchanges := [] |},
   []).
Proof.
  apply (queue_is_declared_on_the_channel_once string string string string
           String.eqb Broker.declare String.eqb_refl "orders"
           RabbitDeclarer.__init__
           {| RabbitDeclarer.queues := [("orders", "orders")];
              RabbitDeclarer.exchanges := [] |}
           [RabbitDeclarer.DeclareQueue "orders"]).
  reflexivity.
Defined.

Lemma exchanges_are_declared_once_and_bound_again_witness :
  let first :=
    RabbitDeclarer.declare_exchange Broker.exchange_eqb Broker.declare Broker.bind
      Broker.logs (RabbitDeclarer.__init__ (RabbitQueue := string) (RobustQueue := string)) in
  RabbitDeclarer.declare_exchange Broker.exchange_eqb Broker.declare Broker.bind
    Broker.logs (snd (fst first)) =
  (Return "logs", snd (fst first),
   [RabbitDeclarer.Bind "events" "root" "events";
    RabbitDeclarer.Bind "logs" "events" "logs"]).
Proof.
  intros first.
  apply (exchanges_are_declared_once_and_bound_again string string string string
           Broker.exchange_eqb Broker.declare Broker.bind broker_exchange_eqb_refl
           Broker.logs RabbitDeclarer.__init__ (snd (fst first)) "logs" (snd first)).
  reflexivity.
Defined.

(** ** Start and shutdown of the application *)

Section Application.
Variable call_hook :
  FastStream.AsyncFunc -> FastStream.Options -> FastStream.t ->
  outcome unit * FastStream.t.

Lemma nth_error_middle {A} (pre : list A) (x : A) (post : list A) :
  nth_error (pre ++ x :: post) (length pre) = Some x.
Proof. induction pre as [| y ys IH]; simpl; [reflexivity | exact IH]. Qed.

Lemma nth_error_end {A} (l : list A) : nth_error l (length l) = None.
Proof. induction l as [| y ys IH]; simpl; [reflexivity | exact IH]. Qed.

(** The loop over hooks that return and leave its list alone calls them
    all, given fuel for each of them. *)
Lemma call_all_run calling funcs kwargs :
  forall pre self fuel,
    calling self = pre ++ funcs ->
    FastStream.hooks_return call_hook calling funcs kwargs self ->
    length funcs < fuel ->
    FastStream.call_all call_hook fuel calling kwargs (length pre) self =
    Some (Return tt, FastStream.after_hooks call_hook funcs kwargs self,
          FastStream.hook_calls funcs kwargs).
Proof.
  induction funcs as [| f rest IH]; intros pre self fuel Hl Hok Hfuel.
  - destruct fuel as [| fuel]; [simpl in Hfuel; lia |]. simpl.
    rewrite Hl, app_nil_r, nth_error_end. reflexivity.
  - destruct fuel as [| fuel]; [simpl in Hfuel; lia |].
    simpl in Hok. destruct Hok as (Hr & Hsame & Hrest). simpl.
    rewrite Hl, nth_error_middle.
    destruct (call_hook f kwargs self) as [r self'] eqn:E. simpl in *. subst r.
    assert (Hl' : calling self' = (pre ++ [f]) ++ rest)
      by (rewrite Hsame, Hl, <- app_assoc; reflexivity).
    specialize (IH (pre ++ [f]) self' fuel Hl' Hrest).
    rewrite length_app in IH. simpl in IH. rewrite Nat.add_1_r in IH.
    rewrite IH by lia. reflexivity.
Qed.

(** The loop ends with the first hook that raises. *)
Lemma call_all_run_raise calling pre f post kwargs e :
  forall pre0 self fuel,
    calling self = pre0 ++ pre ++ f :: post ->
    FastStream.hooks_return call_hook calling pre kwargs self ->
    fst (call_hook f kwargs (FastStream.after_hooks call_hook pre kwargs self)) =
      Raise e ->
    length pre < fuel ->
    FastStream.call_all call_hook fuel calling kwargs (length pre0) self =
    Some (Raise e,
          snd (call_hook f kwargs (FastStream.after_hooks call_hook pre kwargs self)),
          FastStream.hook_calls (pre ++ [f]) kwargs).
Proof.
  induction pre as [| x rest IH]; intros pre0 self fuel Hl Hok Hf Hfuel.
  - destruct fuel as [| fuel]; [simpl in Hfuel; lia |]. simpl in *.
    rewrite Hl, nth_error_middle.
    destruct (call_hook f kwargs self) as [r self'] eqn:E. simpl in *. subst r.
    reflexivity.
  - destruct fuel as [| fuel]; [simpl in Hfuel; lia |].
    simpl in Hok. destruct Hok as (Hr & Hsame & Hrest). simpl in *.
    rewrite Hl, nth_error_middle.
    destruct (call_hook x kwargs self) as [r self'] eqn:E. simpl in *. subst r.
    assert (Hl' : calling self' = (pre0 ++ [x]) ++ rest ++ f :: post)
      by (rewrite Hsame, Hl, <- app_assoc; reflexivity).
    specialize (IH (pre0 ++ [x]) self' fuel Hl' Hrest Hf).
    rewrite length_app in IH. simpl in IH. rewrite Nat.add_1_r in IH.
    rewrite IH by lia. reflexivity.
Qed.

Lemma call_all_start calling kwargs self fuel :
  FastStream.hooks_return call_hook calling (calling self) kwargs self ->
  length (calling self) < fuel ->
  FastStream.call_all call_hook fuel calling kwargs 0 self =
  Some (Return tt, FastStream.after_hooks call_hook (calling self) kwargs self,
        FastStream.hook_calls (calling self) kwargs).
Proof.
  intros Hok Hfuel.
  exact (call_all_run calling (calling self) kwargs [] self fuel eq_refl Hok Hfuel).
Qed.

Lemma call_all_start_raise calling pre f post kwargs e self fuel :
  calling self = pre ++ f :: post ->
  FastStream.hooks_return call_hook calling pre kwargs self ->
  fst (call_hook f kwargs (FastStream.after_hooks call_hook pre kwargs self)) =
    Raise e ->
  length pre < fuel ->
  FastStream.call_all call_hook fuel calling kwargs 0 self =
  Some (Raise e,
        snd (call_hook f kwargs (FastStream.after_hooks call_hook pre kwargs self)),
        FastStream.hook_calls (pre ++ [f]) kwargs).
Proof.
  intros Hl Hok Hf Hfuel.
  exact (call_all_run_raise calling pre f post kwargs e [] self fuel Hl Hok Hf Hfuel).
Qed.

Lemma filter_hook_calls (p : FastStream.call -> bool) funcs kwargs :
  (forall n k, p (FastStream.Hook n k) = false) ->
  List.filter p (FastStream.hook_calls funcs kwargs) = [].
Proof.
  intros Hp. unfold FastStream.hook_calls.
  induction funcs as [| x xs IH]; simpl; [reflexivity |]. rewrite Hp. exact IH.
Qed.

(** X24. Start and shutdown run the hooks around the broker that the
    application holds when its turn comes.  When the hooks return and leave
    the list they are called from alone, and the broker returns, [_startup]
    calls the [on_startup] hooks with the extra options in the order of
    registration, then starts the broker that they left in the application
    (so a broker set by an [on_startup] hook is started, and none is when
    they left none), then calls with no argument the [after_startup] hooks
    registered by then; [_shutdown] does the same with the [on_shutdown]
    hooks, the close of the broker and the [after_shutdown] hooks.  A hook
    registered by one of the decorators comes after the hooks of its kind
    registered before it. *)
Theorem hooks_run_around_the_broker :
  forall (fuel : nat) (self : FastStream.t) (options : FastStream.Options),
    (let on := FastStream._on_startup_calling self in
     let ready := FastStream.after_hooks call_hook on options self in
     let after := FastStream._after_startup_calling ready in
     FastStream.hooks_return call_hook FastStream._on_startup_calling on options self ->
     (forall b, FastStream.broker ready = Some b -> FastStream.start b = Return tt) ->
     FastStream.hooks_return call_hook FastStream._after_startup_calling after []
       ready ->
     length on < fuel -> length after < fuel ->
     FastStream._startup call_hook fuel self options =
     Some (Return tt, FastStream.after_hooks call_hook after [] ready,
           FastStream.hook_calls on options ++
           FastStream.broker_call ready FastStream.BrokerStart ++
           FastStream.hook_calls after [])) /\
    (let on := FastStream._on_shutdown_calling self in
     let ready := FastStream.after_hooks call_hook on [] self in
     let after := FastStream._after_shutdown_calling ready in
     FastStream.hooks_return call_hook FastStream._on_shutdown_calling on [] self ->
     (forall b, FastStream.broker ready = Some b -> FastStream.close b = Return tt) ->
     FastStream.hooks_return call_hook FastStream._after_shutdown_calling after []
       ready ->
     length on < fuel -> length after < fuel ->
     FastStream._shutdown call_hook fuel self =
     Some (Return tt, FastStream.after_hooks call_hook after [] ready,
           FastStream.hook_calls on [] ++
           FastStream.broker_call ready FastStream.BrokerClose ++
           FastStream.hook_calls after [])) /\
    (forall (Callable : Type) (apply_types : Callable -> FastStream.AsyncFunc)
            (func : Callable),
        FastStream._on_startup_calling
          (fst (FastStream.on_startup apply_types self func)) =
        FastStream._on_startup_calling self ++ [apply_types func] /\
        snd (FastStream.on_startup apply_types self func) = func).
Proof.
  intros fuel self options. split; [| split].
  - intros on ready after Hon Hb Hafter Hf1 Hf2.
    unfold FastStream._startup, FastStream.then_.
    rewrite (call_all_start FastStream._on_startup_calling options self fuel Hon Hf1).
    change (FastStream.after_hooks call_hook (FastStream._on_startup_calling self)
              options self) with ready.
    unfold FastStream.start_broker, FastStream.broker_call.
    destruct (FastStream.broker ready) as [b |] eqn:Eb.
    + rewrite (Hb b eq_refl).
      rewrite (call_all_start FastStream._after_startup_calling [] ready fuel
                 Hafter Hf2).
      reflexivity.
    + rewrite (call_all_start FastStream._after_startup_calling [] ready fuel
                 Hafter Hf2).
      reflexivity.
  - intros on ready after Hon Hb Hafter Hf1 Hf2.
    unfold FastStream._shutdown, FastStream.then_.
    rewrite (call_all_start FastStream._on_shutdown_calling [] self fuel Hon Hf1).
    change (FastStream.after_hooks call_hook (FastStream._on_shutdown_calling self)
              [] self) with ready.
    unfold FastStream.close_broker, FastStream.broker_call.
    destruct (FastStream.broker ready) as [b |] eqn:Eb.
    + rewrite (Hb b eq_refl).
      rewrite (call_all_start FastStream._after_shutdown_calling [] ready fuel
                 Hafter Hf2).
      reflexivity.
    + rewrite (call_all_start FastStream._after_shutdown_calling [] ready fuel
                 Hafter Hf2).
      reflexivity.
  - intros Callable apply_types func. split; reflexivity.
Qed.

(** X25. A startup hook that raises stops the start.  When the [on_startup]
    hooks before [f] have returned, leaving their list alone, and [f]
    raises, [_startup] raises the exception of [f]: the hooks after [f] are
    not called, the broker is not started and no [after_startup] hook is
    called; [_start] then raises it too, having logged that the application
    is starting and not that it has started. *)
Theorem failing_startup_hook_stops_the_start :
  forall (fuel : nat) (self : FastStream.t) (options : FastStream.Options)
         (pre post : list FastStream.AsyncFunc) (f : FastStream.AsyncFunc)
         (e : exn) (log_level : Z),
    let failed :=
      snd (call_hook f options (FastStream.after_hooks call_hook pre options self)) in
    FastStream._on_startup_calling self = pre ++ f :: post ->
    FastStream.hooks_return call_hook FastStream._on_startup_calling pre options self ->
    fst (call_hook f options (FastStream.after_hooks call_hook pre options self)) =
      Raise e ->
    length pre < fuel ->
    FastStream._startup call_hook fuel self options =
      Some (Raise e, failed, FastStream.hook_calls (pre ++ [f]) options) /\
    List.filter FastStream.is_BrokerStart
      (FastStream.calls_of (FastStream._startup call_hook fuel self options)) = [] /\
    FastStream._start call_hook fuel self log_level (Some options) =
      Some (Raise e, failed,
            FastStream.calls_of
              (FastStream._log self log_level "FastStream app starting...") ++
            FastStream.hook_calls (pre ++ [f]) options).
Proof.
  intros fuel self options pre post f e log_level failed Hon Hpre Hf Hfuel.
  assert (Hs : FastStream._startup call_hook fuel self options =
               Some (Raise e, failed, FastStream.hook_calls (pre ++ [f]) options)).
  { unfold FastStream._startup, FastStream.then_.
    rewrite (call_all_start_raise FastStream._on_startup_calling pre f post options e
               self fuel Hon Hpre Hf Hfuel).
    reflexivity. }
  split; [exact Hs |]. split.
  - rewrite Hs. simpl. apply filter_hook_calls. reflexivity.
  - unfold FastStream._start, FastStream._log, FastStream.then_.
    destruct (FastStream.logger self); rewrite Hs; reflexivity.
Qed.

(** X26. A shutdown hook that raises leaves the broker open.  When the
    [on_shutdown] hooks before [f] have returned, leaving their list alone,
    and [f] raises, [_shutdown] raises the exception of [f]: the hooks after
    [f] are not called, the broker is not closed and no [after_shutdown]
    hook is called. *)
Theorem failing_shutdown_hook_leaves_the_broker_open :
  forall (fuel : nat) (self : FastStream.t)
         (pre post : list FastStream.AsyncFunc) (f : FastStream.AsyncFunc) (e : exn),
    let failed :=
      snd (call_hook f [] (FastStream.after_hooks call_hook pre [] self)) in
    FastStream._on_shutdown_calling self = pre ++ f :: post ->
    FastStream.hooks_return call_hook FastStream._on_shutdown_calling pre [] self ->
    fst (call_hook f [] (FastStream.after_hooks call_hook pre [] self)) = Raise e ->
    length pre < fuel ->
    FastStream._shutdown call_hook fuel self =
      Some (Raise e, failed, FastStream.hook_calls (pre ++ [f]) []) /\
    List.filter FastStream.is_BrokerClose
      (FastStream.calls_of (FastStream._shutdown call_hook fuel self)) = [].
Proof.
  intros fuel self pre post f e failed Hon Hpre Hf Hfuel.
  assert (Hs : FastStream._shutdown call_hook fuel self =
               Some (Raise e, failed, FastStream.hook_calls (pre ++ [f]) [])).
  { unfold FastStream._shutdown, FastStream.then_.
    rewrite (call_all_start_raise FastStream._on_shutdown_calling pre f post [] e
               self fuel Hon Hpre Hf Hfuel).
    reflexivity. }
  split; [exact Hs |].
  rewrite Hs. simpl. apply filter_hook_calls. reflexivity.
Qed.

End Application.

Lemma hooks_run_around_the_broker_witness :
  FastStream.calls_of
    (FastStream._startup Service.call_hook 3 Service.app [("workers", VInt 2)]) =
    [FastStream.Hook "invite" [("workers", VInt 2)];
     FastStream.Hook "connect" [("workers", VInt 2)];
     FastStream.BrokerStart "rabbit";
     FastStream.Hook "announce" []; FastStream.Hook "welcome" []] /\
  FastStream.calls_of
    (FastStream._shutdown Service.call_hook 2
       (FastStream.set_broker Service.app Service.rabbit)) =
    [FastStream.Hook "drain" []; FastStream.BrokerClose "rabbit";
     FastStream.Hook "farewell" []].
Proof.
  destruct (hooks_run_around_the_broker Service.call_hook 3 Service.app
              [("workers", VInt 2)]) as (Hstart & _ & _).
  destruct (hooks_run_around_the_broker Service.call_hook 2
              (FastStream.set_broker Service.app Service.rabbit) [])
    as (_ & Hstop & _).
  split.
  - rewrite Hstart; [reflexivity | | | | simpl; lia | simpl; lia].
    + simpl. auto.
    + intros b Hb. inversion Hb. reflexivity.
    + simpl. auto.
  - rewrite Hstop; [reflexivity | | | | simpl; lia | simpl; lia].
    + simpl. auto.
    + intros b Hb. inversion Hb. reflexivity.
    + simpl. auto.
Defined.

Lemma failing_startup_hook_stops_the_start_witness :
  FastStream._start Service.call_hook 2 Service.fragile 20 (Some []) =
  Some (Raise (Exception "hook failed"), Service.fragile,
        [FastStream.Log 20 "FastStream app starting...";
         FastStream.Hook "configure" []; FastStream.Hook "crash" []]).
Proof.
  apply (failing_startup_hook_stops_the_start Service.call_hook 2 Service.fragile []
           ["configure"] ["warm"] "crash" (Exception "hook failed") 20);
    [reflexivity | simpl; auto | reflexivity | simpl; lia].
Defined.

Lemma failing_shutdown_hook_leaves_the_broker_open_witness :
  FastStream._shutdown Service.call_hook 1 Service.fragile =
  Some (Raise (Exception "hook failed"), Service.fragile,
        [FastStream.Hook "crash" []]).
Proof.
  apply (failing_shutdown_hook_leaves_the_broker_open Service.call_hook 1
           Service.fragile [] [] "crash" (Exception "hook failed"));
    [reflexivity | simpl; auto | reflexivity | simpl; lia].
Defined.
